(** * i3 main.c: initialisation and main loop

    A shallow embedding of [src/main.c] of the i3 window manager: the
    drain callback of the X connection, the toggle used by modal drags,
    the exit and signal handlers, and the bootstrap steps of [main] that
    deal with colour configuration, layout restoration, inherited
    descriptors, pre-existing windows and signal dispositions.

    The process is modelled as a state ([World]) threaded through a small
    monad with early termination ([exit], death by signal).  Functions that
    live outside main.c (the handlers, the tree, the IPC layer) are calls
    to one oracle, [ext_call], which may change its own opaque state and
    cause traffic on the X connection; every such call is recorded in a
    trace, so that ordering properties can be stated on the trace.  The
    oracle does not reach the loop's watchers, the descriptor flags or the
    signal dispositions: code outside main.c is taken to leave them as
    main.c set them, and to return to its caller. *)

From Stdlib Require Import ZArith List Bool Lia String.
From stdpp Require Import base gmap list strings.

Local Open Scope string_scope.
Local Open Scope list_scope.
Local Open Scope Z_scope.

(** ** Protocol data *)

(** [xcb_generic_event_t]: the first byte is the response type (0 for an
    error packet, bit 7 set when the event was sent by a client); the
    second byte is [pad0], which [xcb_generic_error_t] reads as
    [error_code]. *)
Record xcb_generic_event_t := {
  response_type : Z;
  pad0 : Z;
  sequence : Z;
  ev_data : list Z
}.

Definition error_code (e : xcb_generic_event_t) : Z := pad0 e.

(** Event code of a MapRequest (X11 core protocol, xproto.h). *)
Definition XCB_MAP_REQUEST : Z := 20.

Record xcb_visualtype_t := {
  visual_id : Z;
  visual_class : Z
}.

Record xcb_depth_t := {
  depth : Z;
  visuals : list xcb_visualtype_t
}.

(** [xcb_screen_t].  [scr_root_visual] is the visual whose id the server
    reports as the root window's visual. *)
Record xcb_screen_t := {
  scr_root : Z;
  scr_root_depth : Z;
  scr_default_colormap : Z;
  scr_root_visual : xcb_visualtype_t;
  allowed_depths : list xcb_depth_t
}.

(** ** Signals *)

Inductive signal_t :=
  | SIGHUP | SIGINT | SIGQUIT | SIGILL | SIGTRAP | SIGABRT | SIGBUS
  | SIGFPE | SIGKILL | SIGUSR1 | SIGSEGV | SIGUSR2 | SIGPIPE | SIGALRM
  | SIGTERM | SIGCHLD.

Global Instance signal_t_eq_dec : EqDecision signal_t.
Proof. solve_decision. Defined.

(** Signal numbers (Linux, x86 and ARM). *)
Definition signum (s : signal_t) : Z :=
  match s with
  | SIGHUP => 1 | SIGINT => 2 | SIGQUIT => 3 | SIGILL => 4 | SIGTRAP => 5
  | SIGABRT => 6 | SIGBUS => 7 | SIGFPE => 8 | SIGKILL => 9 | SIGUSR1 => 10
  | SIGSEGV => 11 | SIGUSR2 => 12 | SIGPIPE => 13 | SIGALRM => 14
  | SIGTERM => 15 | SIGCHLD => 17
  end.

Inductive default_action := Term | Core | Ign.

(** Default dispositions, signal(7). *)
Definition default_disposition (s : signal_t) : default_action :=
  match s with
  | SIGHUP | SIGINT | SIGKILL | SIGUSR1 | SIGUSR2 | SIGPIPE | SIGALRM
  | SIGTERM => Term
  | SIGQUIT | SIGILL | SIGTRAP | SIGABRT | SIGBUS | SIGFPE | SIGSEGV => Core
  | SIGCHLD => Ign
  end.

(** The flags of a [struct sigaction] that matter here. *)
Record sa_flags_t := {
  SA_NODEFER : bool;
  SA_RESETHAND : bool;
  SA_SIGINFO : bool
}.

Inductive sa_handler :=
  | h_handle_core_signal   (** main.c's handler for "Core" signals *)
  | h_ev_sighandler.       (** libev's own handler, behind ev_signal *)

Inductive disposition :=
  | SIG_DFL
  | SIG_IGN
  | SIG_HANDLER (h : sa_handler) (flags : sa_flags_t).

(** [shutdown_reason_t], ipc.h. *)
Inductive shutdown_reason_t :=
  | SHUTDOWN_REASON_RESTART
  | SHUTDOWN_REASON_EXIT.

(** ** Calls that leave main.c *)

(** Functions of other compilation units and of libraries whose effect is
    not modelled in detail, with the arguments main.c passes. *)
Inductive extcall :=
  | handle_event (type : Z) (event : xcb_generic_event_t)
  | event_is_ignored (seq : Z) (rtype : Z)
  | xcb_flush
  | xcb_grab_server
  | xcb_aux_sync
  | xcb_ungrab_server
  | manage_existing_windows (root : Z)
  | tree_restore (path : string)
  | tree_init
  | unlink (path : string)
  | rmdir (path : string)
  | shm_unlink (name : string)
  | ipc_shutdown (reason : shutdown_reason_t) (exempt_fd : Z)
  | xcb_disconnect
  | ev_loop_destroy
  | ipc_create_socket (path : string)
  | ipc_new_client (fd : Z)
  | ipc_new_client_on_fd (fd : Z)
  | ipc_confirm_restart (client : Z)
  | sd_listen_fds (unset_environment : Z)
  | xcb_generate_id
  | xcb_create_colormap_checked (mid window visual : Z)
  | xcb_request_check (cookie : Z)
  | init_dpi
  | xcb_connect
  | xcb_connection_has_error
  | ev_default_loop
  | xcb_intern_atom_replies
  | xcb_change_window_attributes_checked (window : Z)
  | xcb_get_geometry_reply
  | load_keymap
  | setup_signal_handler
  | start_autostarts
  | other_setup (line : Z).

(** Traffic on the X connection caused by a call or by the server: an
    event reaches the socket, or libxcb reads the socket into its own
    queue (as it does whenever it waits for a reply). *)
Inductive xstep :=
  | XArrive (e : xcb_generic_event_t)
  | XRead.

Record ext_result (X : Type) := {
  er_state : X;
  er_traffic : list xstep;
  er_value : Z
}.
Arguments er_state {X} _.
Arguments er_traffic {X} _.
Arguments er_value {X} _.

(** Lines written to the log that the properties refer to. *)
Inductive logline :=
  | LogExpectedX11Error (seq : Z)
  | LogX11Error (seq : Z) (code : Z)
  | LogColormapError (code : Z)
  | LogMalformedRestartFd (value : string)
  | LogSdListenFdsError
  | LogNoSocketsPassed
  | LogAlsoListening (fd : Z)
  | LogCloexecError (fd : Z)
  | LogIpcDisabled
  | LogSigactionError
  | LogClosingShm (name : string)
  | LogFatal (line : Z).

(** What an observer of the process sees, in order. *)
Inductive action :=
  | Call (c : extcall)
  | Log (l : logline)
  | Arrive (e : xcb_generic_event_t)
  | Wait
  | Raise (s : signal_t).

(** ** The libev loop *)

Inductive io_callback := cb_xcb_got_event | cb_ipc_new_client.

Inductive watcher :=
  | W_xcb_prepare
  | W_io (fd : Z) (cb : io_callback)
  | W_signal (i : nat) (s : signal_t).

Global Instance io_callback_eq_dec : EqDecision io_callback.
Proof. solve_decision. Defined.

Global Instance watcher_eq_dec : EqDecision watcher.
Proof. solve_decision. Defined.

Inductive exit_handler := atexit_i3_exit.

(** Close-on-exec, <fcntl.h>. *)
Definition FD_CLOEXEC : Z := 1.

Definition EXIT_FAILURE : Z := 1.
Definition EXIT_SUCCESS : Z := 0.

(** Conversion of a [long] to [int] on an LP64 target: the value modulo
    2^32, read as a signed 32-bit number. *)
Definition int_of_long (z : Z) : Z :=
  (z + 2 ^ 31) mod 2 ^ 32 - 2 ^ 31.

(** ** Process state *)

(** The X connection: events libxcb has already read into its own queue,
    and events still unread on the socket.  Only the second kind makes the
    descriptor readable for the operating system. *)
Record xconn := {
  xcb_buffer : list xcb_generic_event_t;
  xcb_wire : list xcb_generic_event_t
}.

(** The libev loop [main_loop] as far as main.c uses it: the started io
    watchers, whether the [xcb_prepare] watcher is started, the stack of
    pending callbacks, the reference count that keeps [ev_run] going, the
    started signal watchers (index in the static array and signal, latest
    first) and the signals libev has seen but not yet fed. *)
Record ev_loop_t := {
  io_watchers : list (Z * io_callback);
  prepare_active : bool;
  pending : list watcher;
  activecnt : Z;
  signal_watchers : list (nat * signal_t);
  sig_pending : list signal_t
}.

(** The process as the kernel and libc see it: descriptor flags of the
    open descriptors, the environment, signal dispositions and the
    handlers registered with [atexit] (latest first). *)
Record process := {
  fdflags : gmap Z Z;
  environ : gmap string string;
  sigdisp : signal_t -> disposition;
  atexit_handlers : list exit_handler
}.

(** Global variables read or written by the modelled code. *)
Record globals := {
  shmlogname : string;
  ipc_socket_path : string;
  root_depth : Z;
  colormap : Z;
  visual_type : option xcb_visualtype_t;
  listen_fds : Z
}.

Definition set_xcb_buffer v (c : xconn) : xconn :=
  {| xcb_buffer := v; xcb_wire := xcb_wire c |}.
Definition set_xcb_wire v (c : xconn) : xconn :=
  {| xcb_buffer := xcb_buffer c; xcb_wire := v |}.

Definition set_io_watchers v (l : ev_loop_t) : ev_loop_t :=
  {| io_watchers := v; prepare_active := prepare_active l;
     pending := pending l; activecnt := activecnt l;
     signal_watchers := signal_watchers l; sig_pending := sig_pending l |}.
Definition set_prepare_active v (l : ev_loop_t) : ev_loop_t :=
  {| io_watchers := io_watchers l; prepare_active := v;
     pending := pending l; activecnt := activecnt l;
     signal_watchers := signal_watchers l; sig_pending := sig_pending l |}.
Definition set_pending v (l : ev_loop_t) : ev_loop_t :=
  {| io_watchers := io_watchers l; prepare_active := prepare_active l;
     pending := v; activecnt := activecnt l;
     signal_watchers := signal_watchers l; sig_pending := sig_pending l |}.
Definition set_activecnt v (l : ev_loop_t) : ev_loop_t :=
  {| io_watchers := io_watchers l; prepare_active := prepare_active l;
     pending := pending l; activecnt := v;
     signal_watchers := signal_watchers l; sig_pending := sig_pending l |}.
Definition set_signal_watchers v (l : ev_loop_t) : ev_loop_t :=
  {| io_watchers := io_watchers l; prepare_active := prepare_active l;
     pending := pending l; activecnt := activecnt l;
     signal_watchers := v; sig_pending := sig_pending l |}.
Definition set_sig_pending v (l : ev_loop_t) : ev_loop_t :=
  {| io_watchers := io_watchers l; prepare_active := prepare_active l;
     pending := pending l; activecnt := activecnt l;
     signal_watchers := signal_watchers l; sig_pending := v |}.

Definition set_fdflags v (p : process) : process :=
  {| fdflags := v; environ := environ p; sigdisp := sigdisp p;
     atexit_handlers := atexit_handlers p |}.
Definition set_sigdisp v (p : process) : process :=
  {| fdflags := fdflags p; environ := environ p; sigdisp := v;
     atexit_handlers := atexit_handlers p |}.
Definition set_atexit_handlers v (p : process) : process :=
  {| fdflags := fdflags p; environ := environ p; sigdisp := sigdisp p;
     atexit_handlers := v |}.

Definition set_visual v (g : globals) : globals :=
  {| shmlogname := shmlogname g; ipc_socket_path := ipc_socket_path g;
     root_depth := root_depth g; colormap := colormap g;
     visual_type := v; listen_fds := listen_fds g |}.
Definition set_root_depth v (g : globals) : globals :=
  {| shmlogname := shmlogname g; ipc_socket_path := ipc_socket_path g;
     root_depth := v; colormap := colormap g;
     visual_type := visual_type g; listen_fds := listen_fds g |}.
Definition set_colormap v (g : globals) : globals :=
  {| shmlogname := shmlogname g; ipc_socket_path := ipc_socket_path g;
     root_depth := root_depth g; colormap := v;
     visual_type := visual_type g; listen_fds := listen_fds g |}.
Definition set_listen_fds v (g : globals) : globals :=
  {| shmlogname := shmlogname g; ipc_socket_path := ipc_socket_path g;
     root_depth := root_depth g; colormap := colormap g;
     visual_type := visual_type g; listen_fds := v |}.

(** Replaces the disposition of one signal. *)
Definition disp_update (s : signal_t) (d : disposition)
    (f : signal_t -> disposition) : signal_t -> disposition :=
  fun s' => if decide (s' = s) then d else f s'.

Section Model.

(** The state of everything outside main.c, and the oracle for calls that
    leave it. *)
Variable X : Type.
Variable ext_call : extcall -> X -> ext_result X.

(** Constants of headers that are not part of main.c: the first
    descriptor passed by socket activation (sd-daemon.h) and libev's major
    version (ev.h). *)
Variable SD_LISTEN_FDS_START : Z.
Variable EV_VERSION_MAJOR : Z.

(** [parse_long] of libi3 at a given base, and [dirname] of libgen.h. *)
Variable parse_long : string -> Z -> option Z.
Variable dirname : string -> string.

Record World := {
  ext : X;
  conn : xconn;
  main_loop : ev_loop_t;
  proc : process;
  glob : globals;
  trace : list action
}.

Definition set_ext v (w : World) : World :=
  {| ext := v; conn := conn w; main_loop := main_loop w; proc := proc w;
     glob := glob w; trace := trace w |}.
Definition upd_conn f (w : World) : World :=
  {| ext := ext w; conn := f (conn w); main_loop := main_loop w;
     proc := proc w; glob := glob w; trace := trace w |}.
Definition upd_loop f (w : World) : World :=
  {| ext := ext w; conn := conn w; main_loop := f (main_loop w);
     proc := proc w; glob := glob w; trace := trace w |}.
Definition upd_proc f (w : World) : World :=
  {| ext := ext w; conn := conn w; main_loop := main_loop w;
     proc := f (proc w); glob := glob w; trace := trace w |}.
Definition upd_glob f (w : World) : World :=
  {| ext := ext w; conn := conn w; main_loop := main_loop w;
     proc := proc w; glob := f (glob w); trace := trace w |}.
Definition emit (a : action) (w : World) : World :=
  {| ext := ext w; conn := conn w; main_loop := main_loop w;
     proc := proc w; glob := glob w; trace := trace w ++ [a] |}.

(** ** The monad *)

(** The ways a process stops: [exit] was called (the state is the one
    after the exit handlers), the default action of a signal killed it,
    or it sleeps in the loop with no further input. *)
Inductive stop :=
  | Exited (status : Z) (w : World)
  | Killed (s : signal_t) (w : World)
  | Blocked (w : World).

(** A computation returns a value, or the process stops.  [OutOfFuel]
    marks a loop cut short by the model. *)
Inductive result (A : Type) :=
  | Ret (a : A) (w : World)
  | Stop (s : stop)
  | OutOfFuel.
Arguments Ret {A} _ _.
Arguments Stop {A} _.
Arguments OutOfFuel {A}.

Definition M (A : Type) : Type := World -> result A.

Definition ret {A} (a : A) : M A := fun w => Ret a w.

Definition bind {A B} (m : M A) (k : A -> M B) : M B :=
  fun w =>
    match m w with
    | Ret a w' => k a w'
    | Stop s => Stop s
    | OutOfFuel => OutOfFuel
    end.

Notation "'do' x <- m ; k" := (bind m (fun x => k))
  (at level 10, x name, m at level 100, k at level 200).
Notation "m ;; k" := (bind m (fun _ => k))
  (at level 100, k at level 200, right associativity).

Definition gets {A} (f : World -> A) : M A := fun w => Ret (f w) w.
Definition modify (f : World -> World) : M unit := fun w => Ret tt (f w).
Definition out_of_fuel {A} : M A := fun _ => OutOfFuel.

Definition log (l : logline) : M unit := modify (emit (Log l)).

(** The state a computation ends in, when it ends in one. *)
Definition stop_world (s : stop) : World :=
  match s with
  | Exited _ w | Killed _ w | Blocked w => w
  end.

Definition final_world {A} (r : result A) : option World :=
  match r with
  | Ret _ w => Some w
  | Stop s => Some (stop_world s)
  | OutOfFuel => None
  end.

(** ** The X connection *)

Definition apply_xstep (s : xstep) (w : World) : World :=
  match s with
  | XArrive e =>
      emit (Arrive e)
        (upd_conn (fun c => set_xcb_wire (xcb_wire c ++ [e]) c) w)
  | XRead =>
      upd_conn (fun c =>
        set_xcb_wire [] (set_xcb_buffer (xcb_buffer c ++ xcb_wire c) c)) w
  end.

Definition apply_traffic (t : list xstep) (w : World) : World :=
  fold_left (fun w s => apply_xstep s w) t w.

(** A call that leaves main.c: recorded, then answered by the oracle. *)
Definition call (c : extcall) : M Z :=
  fun w =>
    let r := ext_call c (ext w) in
    Ret (er_value r)
        (apply_traffic (er_traffic r) (set_ext (er_state r) (emit (Call c) w))).

(** [xcb_poll_for_event]: the next queued event; with an empty queue,
    libxcb first reads, without blocking, what the socket holds. *)
Definition xcb_poll_for_event : M (option xcb_generic_event_t) :=
  fun w =>
    match xcb_buffer (conn w) with
    | e :: q => Ret (Some e) (upd_conn (set_xcb_buffer q) w)
    | [] =>
        match xcb_wire (conn w) with
        | e :: q =>
            Ret (Some e)
                (upd_conn (fun c => set_xcb_wire [] (set_xcb_buffer q c)) w)
        | [] => Ret None w
        end
    end.

(** [xcb_flush] writes out the queued requests.  While it waits for the
    socket to take them, libxcb also reads what the server has sent, so
    that events may reach its queue as in any other call. *)
Definition xcb_flush_out : M unit := call xcb_flush ;; ret tt.

(** [xcb_aux_sync]: a round trip; when the reply is there, libxcb has
    read everything the server sent before it. *)
Definition xcb_aux_sync_roundtrip : M unit :=
  call xcb_aux_sync ;; modify (apply_xstep XRead).

(** ** libev *)

Definition ev_ref : M unit :=
  modify (upd_loop (fun l => set_activecnt (activecnt l + 1) l)).

Definition ev_unref : M unit :=
  modify (upd_loop (fun l => set_activecnt (activecnt l - 1) l)).

(** [ev_feed_event]: the watcher's callback becomes pending; a watcher
    that is pending already stays where it is. *)
Definition ev_feed_event (wt : watcher) : M unit :=
  modify (upd_loop (fun l =>
    if decide (wt ∈ pending l) then l else set_pending (wt :: pending l) l)).

(** [clear_pending]. *)
Definition clear_pending (wt : watcher) : M unit :=
  modify (upd_loop (fun l =>
    set_pending (filter (fun p => p ≠ wt) (pending l)) l)).

(** [ev_prepare_start] on [xcb_prepare]: nothing when it is started. *)
Definition ev_prepare_start : M unit :=
  do active <- gets (fun w => prepare_active (main_loop w));
  if active : bool then ret tt
  else modify (upd_loop (set_prepare_active true)) ;; ev_ref.

(** [ev_prepare_stop] on [xcb_prepare]. *)
Definition ev_prepare_stop : M unit :=
  clear_pending W_xcb_prepare ;;
  do active <- gets (fun w => prepare_active (main_loop w));
  if active : bool
  then modify (upd_loop (set_prepare_active false)) ;; ev_unref
  else ret tt.

(** [ev_io_start] on a fresh watcher for [fd], interest EV_READ. *)
Definition ev_io_start (fd : Z) (cb : io_callback) : M unit :=
  modify (upd_loop (fun l => set_io_watchers ((fd, cb) :: io_watchers l) l)) ;;
  ev_ref.

(** [sigaction] and [signal]. *)
Definition sigaction (s : signal_t) (d : disposition) : M Z :=
  match s with
  | SIGKILL => ret (-1)
  | _ =>
      modify (upd_proc (fun p => set_sigdisp (disp_update s d (sigdisp p)) p)) ;;
      ret 0
  end.

Definition signal (s : signal_t) (d : disposition) : M unit :=
  sigaction s d ;; ret tt.

(** [ev_signal_start] on watcher [i] of the static array, set up for
    signal [s]: libev installs its handler with the first watcher of a
    signal. *)
Definition ev_signal_start (i : nat) (s : signal_t) : M unit :=
  do ws <- gets (fun w => signal_watchers (main_loop w));
  (if decide (s ∈ map snd ws) then ret tt
   else
     sigaction s (SIG_HANDLER h_ev_sighandler
                    {| SA_NODEFER := false; SA_RESETHAND := false;
                       SA_SIGINFO := false |}) ;; ret tt) ;;
  modify (upd_loop (fun l => set_signal_watchers ((i, s) :: ws) l)) ;;
  ev_ref.

(** ** main.c: the drain callback and its toggle *)

(** [xcb_got_event]: empty, the work is done in [xcb_prepare_cb]. *)
Definition xcb_got_event : M unit := ret tt.

(** The [while] loop of [xcb_prepare_cb]. *)
Fixpoint xcb_prepare_cb_loop (fuel : nat) : M unit :=
  match fuel with
  | O => out_of_fuel
  | S fuel' =>
      do event <- xcb_poll_for_event;
      match event with
      | None => ret tt
      | Some event =>
          if response_type event =? 0 then
            do ignored <- call (event_is_ignored (sequence event) 0);
            (if ignored =? 0
             then log (LogX11Error (sequence event) (error_code event))
             else log (LogExpectedX11Error (sequence event))) ;;
            xcb_prepare_cb_loop fuel'
          else
            let type := Z.land (response_type event) 127 in
            call (handle_event type event) ;;
            xcb_prepare_cb_loop fuel'
      end
  end.

Definition xcb_prepare_cb (fuel : nat) : M unit :=
  xcb_prepare_cb_loop fuel ;;
  xcb_flush_out.

Definition main_set_x11_cb (enable : bool) : M unit :=
  if enable then
    ev_prepare_start ;;
    ev_feed_event W_xcb_prepare
  else
    ev_prepare_stop.

(** ** main.c: exit and signal handlers *)

Definition i3_exit : M unit :=
  do name <- gets (fun w => shmlogname (glob w));
  (if decide (name = "") then ret tt
   else log (LogClosingShm name) ;; call (shm_unlink name) ;; ret tt) ;;
  call (ipc_shutdown SHUTDOWN_REASON_EXIT (-1)) ;;
  do path <- gets (fun w => ipc_socket_path (glob w));
  call (unlink path) ;;
  call xcb_disconnect ;;
  (if 4 <=? EV_VERSION_MAJOR then call ev_loop_destroy ;; ret tt else ret tt).

Definition run_exit_handler (h : exit_handler) : M unit :=
  match h with
  | atexit_i3_exit => i3_exit
  end.

Fixpoint run_exit_handlers (hs : list exit_handler) : M unit :=
  match hs with
  | [] => ret tt
  | h :: hs' => run_exit_handler h ;; run_exit_handlers hs'
  end.

(** [exit]: the handlers registered with [atexit] run, latest first, and
    the process ends with the given status. *)
Definition exit {A} (status : Z) : M A :=
  fun w =>
    match run_exit_handlers (atexit_handlers (proc w)) w with
    | Ret _ w' => Stop (Exited status w')
    | Stop s => Stop s
    | OutOfFuel => OutOfFuel
    end.

Definition atexit (h : exit_handler) : M unit :=
  modify (upd_proc (fun p => set_atexit_handlers (h :: atexit_handlers p) p)).

(** [handle_core_signal], with [raise] as a parameter: it is the delivery
    of the signal to this same process, defined below. *)
Definition handle_core_signal (raise : signal_t -> M unit) (sig : signal_t)
    : M unit :=
  do name <- gets (fun w => shmlogname (glob w));
  (if decide (name = "") then ret tt
   else call (shm_unlink name) ;; ret tt) ;;
  raise sig.

Definition handle_term_signal (s : signal_t) : M unit :=
  exit (128 + signum s).

(** Delivery of a signal to the process.  With a handler installed, the
    disposition is first reset when SA_RESETHAND is set; libev's handler
    only notes the signal for the loop.  A signal raised inside its own
    handler is delivered at once with SA_NODEFER and when the handler
    returns without it; the handler of main.c does nothing after [raise],
    so both orders are this one. *)
Fixpoint deliver (fuel : nat) (s : signal_t) : M unit :=
  match fuel with
  | O => out_of_fuel
  | S fuel' =>
      do d <- gets (fun w => sigdisp (proc w) s);
      match d with
      | SIG_IGN => ret tt
      | SIG_DFL =>
          match default_disposition s with
          | Ign => ret tt
          | Term | Core => fun w => Stop (Killed s w)
          end
      | SIG_HANDLER h flags =>
          (if SA_RESETHAND flags
           then sigaction s SIG_DFL ;; ret tt
           else ret tt) ;;
          match h with
          | h_ev_sighandler =>
              modify (upd_loop (fun l =>
                set_sig_pending (sig_pending l ++ [s]) l))
          | h_handle_core_signal =>
              handle_core_signal
                (fun sig => modify (emit (Raise sig)) ;; deliver fuel' sig) s
          end
      end
  end.

(** [setup_term_handlers]: the six watchers of the static array, each
    started and then unreferenced. *)
Definition term_signal_watchers : list signal_t :=
  [SIGHUP; SIGINT; SIGALRM; SIGTERM; SIGUSR1; SIGUSR1].

Fixpoint start_signal_watchers (i : nat) (ws : list signal_t) : M unit :=
  match ws with
  | [] => ret tt
  | s :: ws' =>
      ev_signal_start i s ;;
      ev_unref ;;
      start_signal_watchers (S i) ws'
  end.

Definition setup_term_handlers : M unit :=
  start_signal_watchers 0 term_signal_watchers.

(** ** The event loop: [ev_loop], that is libev's [ev_run] *)

(** What happens while the process sleeps in the loop's blocking wait:
    events the server sent, descriptors the wait reports readable (for
    the X socket this may or may not agree with [wk_arrivals]), signals. *)
Record wakeup := {
  wk_arrivals : list xcb_generic_event_t;
  wk_readable : list Z;
  wk_signals : list signal_t
}.

Definition invoke (fuel : nat) (wt : watcher) : M unit :=
  match wt with
  | W_xcb_prepare => xcb_prepare_cb fuel
  | W_io fd cb_xcb_got_event => xcb_got_event
  | W_io fd cb_ipc_new_client => call (ipc_new_client fd) ;; ret tt
  | W_signal _ s => handle_term_signal s
  end.

(** [ev_invoke_pending]: callbacks run from the top of the stack until
    none is pending. *)
Fixpoint ev_invoke_pending (fuel : nat) : M unit :=
  match fuel with
  | O => out_of_fuel
  | S fuel' =>
      do p <- gets (fun w => pending (main_loop w));
      match p with
      | [] => ret tt
      | wt :: rest =>
          modify (upd_loop (set_pending rest)) ;;
          invoke fuel' wt ;;
          ev_invoke_pending fuel'
      end
  end.

Fixpoint feed_all (ws : list watcher) : M unit :=
  match ws with
  | [] => ret tt
  | wt :: ws' => ev_feed_event wt ;; feed_all ws'
  end.

Fixpoint deliver_all (fuel : nat) (ss : list signal_t) : M unit :=
  match ss with
  | [] => ret tt
  | s :: ss' => deliver fuel s ;; deliver_all fuel ss'
  end.

Definition io_events (readable : list Z) (l : ev_loop_t) : list watcher :=
  flat_map (fun fd =>
    map (fun p => W_io (fst p) (snd p))
        (filter (fun p => fst p = fd) (io_watchers l))) readable.

Definition signal_events (l : ev_loop_t) : list watcher :=
  flat_map (fun s =>
    map (fun p => W_signal (fst p) (snd p))
        (filter (fun p => snd p = s) (signal_watchers l))) (sig_pending l).

(** The prepare watchers are queued and run before the loop polls. *)
Definition prepare_phase (fuel : nat) : M unit :=
  do active <- gets (fun w => prepare_active (main_loop w));
  if active : bool
  then ev_feed_event W_xcb_prepare ;; ev_invoke_pending fuel
  else ret tt.

(** The process wakes up: what arrived is on the socket, signals have
    been delivered, and the events of the watchers concerned are fed. *)
Definition wakeup_phase (fuel : nat) (wk : wakeup) : M unit :=
  modify (apply_traffic (map XArrive (wk_arrivals wk))) ;;
  deliver_all fuel (wk_signals wk) ;;
  do l <- gets main_loop;
  feed_all (io_events (wk_readable wk) l) ;;
  feed_all (signal_events l) ;;
  modify (upd_loop (set_sig_pending [])).

(** The iterations of [ev_run], one per wakeup.  With no reference left
    the poll does not block and the loop returns; with no wakeup left the
    process sleeps for good. *)
Fixpoint ev_run_loop (fuel : nat) (wks : list wakeup) : M unit :=
  prepare_phase fuel ;;
  do cnt <- gets (fun w => activecnt (main_loop w));
  if cnt =? 0 then ev_invoke_pending fuel
  else
    modify (emit Wait) ;;
    match wks with
    | [] => fun w => Stop (Blocked w)
    | wk :: wks' =>
        wakeup_phase fuel wk ;;
        ev_invoke_pending fuel ;;
        do cnt' <- gets (fun w => activecnt (main_loop w));
        if cnt' =? 0 then ret tt else ev_run_loop fuel wks'
    end.

Definition ev_loop (fuel : nat) (wks : list wakeup) : M unit :=
  ev_invoke_pending fuel ;;
  ev_run_loop fuel wks.

(** ** main.c: the steps of [main] *)

(** [xcb_aux_find_visual_by_attrs] of xcb-util: the first visual of the
    wanted class among the depths of the wanted depth, -1 standing for
    any. *)
Fixpoint find_visual_of_class (class_ : Z) (vs : list xcb_visualtype_t)
    : option xcb_visualtype_t :=
  match vs with
  | [] => None
  | v :: vs' =>
      if (class_ =? -1) || (visual_class v =? class_) then Some v
      else find_visual_of_class class_ vs'
  end.

Fixpoint find_visual_in_depths (class_ depth_ : Z) (ds : list xcb_depth_t)
    : option xcb_visualtype_t :=
  match ds with
  | [] => None
  | d :: ds' =>
      if negb (depth_ =? -1) && negb (depth d =? depth_)
      then find_visual_in_depths class_ depth_ ds'
      else
        match find_visual_of_class class_ (visuals d) with
        | Some v => Some v
        | None => find_visual_in_depths class_ depth_ ds'
        end
  end.

Definition xcb_aux_find_visual_by_attrs (s : xcb_screen_t) (class_ depth_ : Z)
    : option xcb_visualtype_t :=
  find_visual_in_depths class_ depth_ (allowed_depths s).

(** [xcb_aux_get_depth_of_visual] of xcb-util: the depth that lists the
    visual, 0 when none does. *)
Fixpoint depth_of_visual_in (id : Z) (ds : list xcb_depth_t) : Z :=
  match ds with
  | [] => 0
  | d :: ds' =>
      if existsb (fun v => visual_id v =? id) (visuals d) then depth d
      else depth_of_visual_in id ds'
  end.

Definition xcb_aux_get_depth_of_visual (s : xcb_screen_t) (id : Z) : Z :=
  depth_of_visual_in id (allowed_depths s).

(** Modelled from the spec: [get_visualtype] of libi3 is not part of
    main.c; it yields "the server's default configuration", the visual of
    the root window. *)
Definition get_visualtype (s : xcb_screen_t) : option xcb_visualtype_t :=
  Some (scr_root_visual s).

(** Lines 557 to 577: depth, visual and colormap. *)
Definition main_setup_visual (root_screen : xcb_screen_t) : M unit :=
  modify (upd_glob (set_root_depth (scr_root_depth root_screen))) ;;
  modify (upd_glob (set_colormap (scr_default_colormap root_screen))) ;;
  modify (upd_glob
            (set_visual (xcb_aux_find_visual_by_attrs root_screen (-1) 32))) ;;
  do vt <- gets (fun w => visual_type (glob w));
  match vt with
  | Some v =>
      modify (upd_glob (set_root_depth
                (xcb_aux_get_depth_of_visual root_screen (visual_id v)))) ;;
      do id <- call xcb_generate_id;
      modify (upd_glob (set_colormap id)) ;;
      do cm_cookie <- call (xcb_create_colormap_checked id
                              (scr_root root_screen) (visual_id v));
      do error <- call (xcb_request_check cm_cookie);
      if error =? 0 then ret tt
      else log (LogColormapError error) ;; exit EXIT_FAILURE
  | None =>
      modify (upd_glob (set_visual (get_visualtype root_screen)))
  end.

(** Lines 742 to 755: the tree is restored from the layout file or built
    afresh. *)
Definition main_restore_tree (layout_path : option string)
    (delete_layout_path : bool) : M unit :=
  do needs_tree_init <-
    match layout_path with
    | Some path =>
        do restored <- call (tree_restore path);
        (if delete_layout_path
         then call (unlink path) ;; call (rmdir (dirname path)) ;; ret tt
         else ret tt) ;;
        ret (restored =? 0)
    | None => ret true
    end;
  if needs_tree_init : bool then call tree_init ;; ret tt else ret tt.

(** [fcntl] with F_GETFD and F_SETFD: they fail on a descriptor that is
    not open. *)
Definition fcntl_F_GETFD (fd : Z) : M Z :=
  gets (fun w =>
    match fdflags (proc w) !! fd with
    | Some flags => flags
    | None => -1
    end).

Definition fcntl_F_SETFD (fd flags : Z) : M Z :=
  fun w =>
    match fdflags (proc w) !! fd with
    | Some _ =>
        Ret 0 (upd_proc (fun p => set_fdflags (<[fd := flags]> (fdflags p)) p) w)
    | None => Ret (-1) w
    end.

(** The body of the [for] loop of lines 846 to 862. *)
Definition listen_on_activation_fd (fd : Z) : M unit :=
  log (LogAlsoListening fd) ;;
  do flags <- fcntl_F_GETFD fd;
  do failed <-
    (if flags <? 0 then ret true
     else
       do rc <- fcntl_F_SETFD fd (Z.land flags (Z.lnot FD_CLOEXEC));
       ret (rc <? 0));
  (if failed : bool then log (LogCloexecError fd) else ret tt) ;;
  ev_io_start fd cb_ipc_new_client.

(** The loop itself, [n] descriptors from [fd] on. *)
Fixpoint listen_on_activation_fds (n : nat) (fd : Z) : M unit :=
  match n with
  | O => ret tt
  | S n' =>
      listen_on_activation_fd fd ;;
      listen_on_activation_fds n' (fd + 1)
  end.

(** Lines 836 to 863: sockets passed by socket activation. *)
Definition main_socket_activation : M unit :=
  do n <- call (sd_listen_fds 0);
  modify (upd_glob (set_listen_fds n)) ;;
  if n <? 0 then log LogSdListenFdsError
  else if n =? 0 then log LogNoSocketsPassed
  else listen_on_activation_fds (Z.to_nat n) SD_LISTEN_FDS_START.

Definition getenv (name : string) : M (option string) :=
  gets (fun w => environ (proc w) !! name).

Definition parse_restart_fd : M Z :=
  do restart_fd <- getenv "_I3_RESTART_FD";
  match restart_fd with
  | None => ret (-1)
  | Some s =>
      match parse_long s 10 with
      | None => log (LogMalformedRestartFd s) ;; ret (-1)
      | Some fd => ret (int_of_long fd)
      end
  end.

(** Lines 865 to 872. *)
Definition main_restart_fd : M unit :=
  do restart_fd <- parse_restart_fd;
  if restart_fd =? -1 then ret tt
  else
    do client <- call (ipc_new_client_on_fd restart_fd);
    call (ipc_confirm_restart client) ;; ret tt.

(** Lines 881 to 890: the watchers of the X connection. *)
Definition main_start_xcb_watchers (xcb_fd : Z) : M unit :=
  ev_io_start xcb_fd cb_xcb_got_event ;;
  ev_prepare_start ;;
  xcb_flush_out.

(** The [while] loop of lines 909 to 925. *)
Fixpoint discard_events_loop (fuel : nat) : M unit :=
  match fuel with
  | O => out_of_fuel
  | S fuel' =>
      do event <- xcb_poll_for_event;
      match event with
      | None => ret tt
      | Some event =>
          if response_type event =? 0 then discard_events_loop fuel'
          else
            let type := Z.land (response_type event) 127 in
            (if type =? XCB_MAP_REQUEST
             then call (handle_event type event) ;; ret tt
             else ret tt) ;;
            discard_events_loop fuel'
      end
  end.

(** Lines 905 to 928: windows that exist already. *)
Definition main_manage_existing (fuel : nat) (root : Z) : M unit :=
  call xcb_grab_server ;;
  xcb_aux_sync_roundtrip ;;
  discard_events_loop fuel ;;
  call (manage_existing_windows root) ;;
  call xcb_ungrab_server ;; ret tt.

Definition core_signals : list signal_t :=
  [SIGQUIT; SIGILL; SIGABRT; SIGFPE; SIGSEGV].

Definition core_action : disposition :=
  SIG_HANDLER h_handle_core_signal
    {| SA_NODEFER := true; SA_RESETHAND := true; SA_SIGINFO := true |}.

(** The chain of [sigaction(...) == -1 || ...]: true when one fails, and
    the later ones are then not called. *)
Fixpoint sigaction_any_failed (ss : list signal_t) (d : disposition) : M bool :=
  match ss with
  | [] => ret false
  | s :: ss' =>
      do rc <- sigaction s d;
      if rc =? -1 then ret true else sigaction_any_failed ss' d
  end.

(** Lines 956 to 977: signal handlers. *)
Definition main_setup_signals (disable_signalhandler : bool) : M unit :=
  (if negb disable_signalhandler then call setup_signal_handler ;; ret tt
   else
     do failed <- sigaction_any_failed core_signals core_action;
     if failed : bool then log LogSigactionError else ret tt) ;;
  setup_term_handlers ;;
  signal SIGPIPE SIG_IGN.

(** The command line as [main] has read it. *)
Record options := {
  autostart : bool;
  layout_path : option string;
  delete_layout_path : bool;
  disable_signalhandler : bool
}.

(** [main] from line 502 to line 740: connection, capabilities,
    configuration.  [other_setup n] stands for the calls that start at
    line [n] and that main.c does not branch on. *)
Definition main_negotiate (root_screen : xcb_screen_t) : M unit :=
  call (other_setup 503) ;;
  call xcb_connect ;;
  do has_error <- call xcb_connection_has_error;
  if negb (has_error =? 0) then log (LogFatal 537) ;; exit EXIT_FAILURE
  else
  call (other_setup 539) ;;
  do loop <- call ev_default_loop;
  if loop =? 0 then log (LogFatal 546) ;; exit EXIT_FAILURE
  else
  call (other_setup 548) ;;
  main_setup_visual root_screen ;;
  call init_dpi ;;
  call (other_setup 581) ;;
  do atoms <- call xcb_intern_atom_replies;
  if atoms =? 0 then log (LogFatal 594) ;; exit (-1)
  else
  call (other_setup 603) ;;
  do cookie <-
    call (xcb_change_window_attributes_checked (scr_root root_screen));
  do error <- call (xcb_request_check cookie);
  if negb (error =? 0) then log (LogFatal 621) ;; exit 1
  else
  do greply <- call xcb_get_geometry_reply;
  if greply =? 0 then log (LogFatal 630) ;; exit 1
  else
  call (other_setup 635) ;;
  do keymap <- call load_keymap;
  if keymap =? 0 then log (LogFatal 737) ;; exit EXIT_FAILURE
  else
  call (other_setup 739) ;; ret tt.

(** [main] from line 742 to line 1020: the tree, the IPC sockets, the
    watchers of the X connection, the windows that exist already, the
    signal handlers, the exit handler. *)
Definition main_bring_up (fuel : nat) (opt : options)
    (root_screen : xcb_screen_t) (xcb_fd : Z) : M unit :=
  main_restore_tree (layout_path opt) (delete_layout_path opt) ;;
  call (other_setup 757) ;;
  do path <- gets (fun w => ipc_socket_path (glob w));
  do ipc_socket <- call (ipc_create_socket path);
  (if ipc_socket =? -1 then log LogIpcDisabled
   else ev_io_start ipc_socket cb_ipc_new_client) ;;
  main_socket_activation ;;
  main_restart_fd ;;
  call (other_setup 875) ;;
  main_start_xcb_watchers xcb_fd ;;
  main_manage_existing fuel (scr_root root_screen) ;;
  (if autostart opt then call (other_setup 931) ;; ret tt else ret tt) ;;
  main_setup_signals (disable_signalhandler opt) ;;
  (if autostart opt then call start_autostarts ;; ret tt else ret tt) ;;
  call (other_setup 994) ;;
  atexit atexit_i3_exit.

(** [main]: after the bring-up the loop runs; when it returns, so does
    [main], which is an [exit] with status 0. *)
Definition main (fuel : nat) (opt : options) (root_screen : xcb_screen_t)
    (xcb_fd : Z) (wks : list wakeup) : M unit :=
  main_negotiate root_screen ;;
  main_bring_up fuel opt root_screen xcb_fd ;;
  ev_loop fuel wks ;;
  exit 0.

(** ** main.c: the command line *)

(** Parts of headers and libraries that the first lines of [main] depend
    on: [atoi] of the C library, the two message types of i3/ipc.h that
    the command mode uses, and [sizeof(addr.sun_path)] of sys/un.h. *)
Variable atoi : string -> Z.
Variable I3_IPC_MESSAGE_TYPE_RUN_COMMAND : Z.
Variable I3_IPC_REPLY_TYPE_COMMAND : Z.
Variable sun_path_size : nat.

(** [struct option] of getopt.h, with [flag] null as in every row of the
    table. *)
Inductive has_arg_t := no_argument | required_argument.

Record option_t := {
  name : string;
  has_arg : has_arg_t;
  val : Z
}.

(** The code of a character constant: ['a'] is [chr "a"]. *)
Definition chr (s : string) : Z :=
  match s with
  | String c _ => Z.of_nat (Ascii.nat_of_ascii c)
  | EmptyString => 0
  end.

Definition long_options : list option_t :=
  [ {| name := "no-autostart"; has_arg := no_argument; val := chr "a" |};
    {| name := "config"; has_arg := required_argument; val := chr "c" |};
    {| name := "version"; has_arg := no_argument; val := chr "v" |};
    {| name := "moreversion"; has_arg := no_argument; val := chr "m" |};
    {| name := "more-version"; has_arg := no_argument; val := chr "m" |};
    {| name := "more_version"; has_arg := no_argument; val := chr "m" |};
    {| name := "help"; has_arg := no_argument; val := chr "h" |};
    {| name := "layout"; has_arg := required_argument; val := chr "L" |};
    {| name := "restart"; has_arg := required_argument; val := 0 |};
    {| name := "force-xinerama"; has_arg := no_argument; val := 0 |};
    {| name := "force_xinerama"; has_arg := no_argument; val := 0 |};
    {| name := "disable-randr15"; has_arg := no_argument; val := 0 |};
    {| name := "disable_randr15"; has_arg := no_argument; val := 0 |};
    {| name := "disable-signalhandler"; has_arg := no_argument; val := 0 |};
    {| name := "shmlog-size"; has_arg := required_argument; val := 0 |};
    {| name := "shmlog_size"; has_arg := required_argument; val := 0 |};
    {| name := "get-socketpath"; has_arg := no_argument; val := 0 |};
    {| name := "get_socketpath"; has_arg := no_argument; val := 0 |};
    {| name := "fake_outputs"; has_arg := required_argument; val := 0 |};
    {| name := "fake-outputs"; has_arg := required_argument; val := 0 |};
    {| name := "force-old-config-parser-v4.4-only"; has_arg := no_argument;
       val := 0 |} ].

(** One answer of [getopt_long] other than -1: the value returned, the
    index it stored in [option_index] and [optarg]. *)
Record getopt_result := {
  g_opt : Z;
  g_index : nat;
  g_optarg : string
}.

(** [long_options[option_index].name]. *)
Definition long_name (option_index : nat) : string :=
  match nth_error long_options option_index with
  | Some o => name o
  | None => ""
  end.

(** The local variables of [main] that the options set, with the two
    globals [force_xinerama] and [shmlog_size]. *)
Record cmdline := {
  opts : options;
  override_configpath : option string;
  only_check_config : bool;
  disable_randr15 : bool;
  fake_outputs : option string;
  force_xinerama : bool;
  shmlog_size : Z
}.

Definition set_opts v (c : cmdline) : cmdline :=
  {| opts := v; override_configpath := override_configpath c;
     only_check_config := only_check_config c;
     disable_randr15 := disable_randr15 c; fake_outputs := fake_outputs c;
     force_xinerama := force_xinerama c; shmlog_size := shmlog_size c |}.
Definition set_override_configpath v (c : cmdline) : cmdline :=
  {| opts := opts c; override_configpath := v;
     only_check_config := only_check_config c;
     disable_randr15 := disable_randr15 c; fake_outputs := fake_outputs c;
     force_xinerama := force_xinerama c; shmlog_size := shmlog_size c |}.
Definition set_only_check_config v (c : cmdline) : cmdline :=
  {| opts := opts c; override_configpath := override_configpath c;
     only_check_config := v;
     disable_randr15 := disable_randr15 c; fake_outputs := fake_outputs c;
     force_xinerama := force_xinerama c; shmlog_size := shmlog_size c |}.
Definition set_disable_randr15 v (c : cmdline) : cmdline :=
  {| opts := opts c; override_configpath := override_configpath c;
     only_check_config := only_check_config c;
     disable_randr15 := v; fake_outputs := fake_outputs c;
     force_xinerama := force_xinerama c; shmlog_size := shmlog_size c |}.
Definition set_fake_outputs v (c : cmdline) : cmdline :=
  {| opts := opts c; override_configpath := override_configpath c;
     only_check_config := only_check_config c;
     disable_randr15 := disable_randr15 c; fake_outputs := v;
     force_xinerama := force_xinerama c; shmlog_size := shmlog_size c |}.
Definition set_force_xinerama v (c : cmdline) : cmdline :=
  {| opts := opts c; override_configpath := override_configpath c;
     only_check_config := only_check_config c;
     disable_randr15 := disable_randr15 c; fake_outputs := fake_outputs c;
     force_xinerama := v; shmlog_size := shmlog_size c |}.
Definition set_shmlog_size v (c : cmdline) : cmdline :=
  {| opts := opts c; override_configpath := override_configpath c;
     only_check_config := only_check_config c;
     disable_randr15 := disable_randr15 c; fake_outputs := fake_outputs c;
     force_xinerama := force_xinerama c; shmlog_size := v |}.

Definition set_autostart v (o : options) : options :=
  {| autostart := v; layout_path := layout_path o;
     delete_layout_path := delete_layout_path o;
     disable_signalhandler := disable_signalhandler o |}.
Definition set_layout v del (o : options) : options :=
  {| autostart := autostart o; layout_path := v;
     delete_layout_path := del;
     disable_signalhandler := disable_signalhandler o |}.
Definition set_disable_signalhandler v (o : options) : options :=
  {| autostart := autostart o; layout_path := layout_path o;
     delete_layout_path := delete_layout_path o;
     disable_signalhandler := v |}.

(** The calls and the output of this part of [main] that the properties
    below refer to, as they happen in order. *)
Inductive front_effect :=
  | SetVerbosity
  | SetDebugLogging
  | InitLogging
  | DisplayRunningVersion
  | PrintVersion
  | PrintBinaryVersion
  | PrintLine (s : string)
  | PrintUsage
  | LoadConfiguration (path : option string)
  | Connect (path : string)
  | Send (type : Z) (len : nat) (payload : string).

(** It goes on with a value, or the process ends with a status (by
    [exit] or by returning from [main]: no exit handler is registered
    yet). *)
Inductive front_result (A : Type) :=
  | Went_on (a : A)
  | Exits (status : Z).
Arguments Went_on {A} _.
Arguments Exits {A} _.

(** The [default:] label of the switch. *)
Definition usage {A} : list front_effect * front_result A :=
  ([PrintUsage], Exits EXIT_FAILURE).

(** The body of the [switch] on the value [getopt_long] returned;
    [socket_path] is what [root_atom_contents("I3_SOCKET_PATH")] answers. *)
Definition handle_option (socket_path : option string) (r : getopt_result)
    (st : cmdline) : list front_effect * front_result cmdline :=
  let opt := g_opt r in
  let optarg := g_optarg r in
  if opt =? chr "a" then
    ([], Went_on (set_opts (set_autostart false (opts st)) st))
  else if opt =? chr "L" then
    ([], Went_on (set_opts (set_layout (Some optarg) false (opts st)) st))
  else if opt =? chr "c" then
    ([], Went_on (set_override_configpath (Some optarg) st))
  else if opt =? chr "C" then
    ([], Went_on (set_only_check_config true st))
  else if opt =? chr "v" then
    ([PrintVersion], Exits EXIT_SUCCESS)
  else if opt =? chr "m" then
    ([PrintBinaryVersion; DisplayRunningVersion], Exits EXIT_SUCCESS)
  else if opt =? chr "V" then
    ([SetVerbosity], Went_on st)
  else if opt =? chr "d" then
    ([SetDebugLogging], Went_on st)
  else if opt =? chr "l" then
    ([], Went_on st)
  else if opt =? 0 then
    let name := long_name (g_index r) in
    if String.eqb name "force-xinerama" || String.eqb name "force_xinerama"
    then ([], Went_on (set_force_xinerama true st))
    else if String.eqb name "disable-randr15" ||
            String.eqb name "disable_randr15"
    then ([], Went_on (set_disable_randr15 true st))
    else if String.eqb name "disable-signalhandler"
    then ([], Went_on
                (set_opts (set_disable_signalhandler true (opts st)) st))
    else if String.eqb name "get-socketpath" ||
            String.eqb name "get_socketpath"
    then
      match socket_path with
      | Some p => ([PrintLine p], Exits EXIT_SUCCESS)
      | None => ([], Exits EXIT_FAILURE)
      end
    else if String.eqb name "shmlog-size" || String.eqb name "shmlog_size"
    then ([InitLogging], Went_on (set_shmlog_size (atoi optarg) st))
    else if String.eqb name "restart"
    then ([], Went_on
                (set_opts (set_layout (Some optarg) true (opts st)) st))
    else if String.eqb name "fake-outputs" || String.eqb name "fake_outputs"
    then ([], Went_on (set_fake_outputs (Some optarg) st))
    else if String.eqb name "force-old-config-parser-v4.4-only"
    then ([], Went_on st)
    else usage
  else usage.

(** The [while] loop over the answers of [getopt_long]. *)
Fixpoint parse_options (socket_path : option string)
    (rs : list getopt_result) (st : cmdline)
    : list front_effect * front_result cmdline :=
  match rs with
  | [] => ([], Went_on st)
  | r :: rs' =>
      match handle_option socket_path r st with
      | (e, Went_on st') =>
          let (e', res) := parse_options socket_path rs' st' in
          (e ++ e', res)
      | (e, Exits status) => (e, Exits status)
      end
  end.

(** [strstr(haystack, needle) != NULL]. *)
Fixpoint strstr (haystack needle : string) : bool :=
  String.prefix needle haystack ||
  match haystack with
  | EmptyString => false
  | String _ rest => strstr rest needle
  end.

Definition default_shmlog_size : Z := 25 * 1024 * 1024.

(** The variables as they are before the loop. *)
Definition initial_cmdline (is_debug_build : bool) (argv0 : string)
    : cmdline :=
  {| opts := {| autostart := true; layout_path := None;
                delete_layout_path := false;
                disable_signalhandler := false |};
     override_configpath := None;
     only_check_config := false;
     disable_randr15 := false;
     fake_outputs := None;
     force_xinerama := false;
     shmlog_size :=
       if is_debug_build || strstr argv0 "i3-with-shmlog"
       then default_shmlog_size else 0 |}.

(** The [while (optind < argc)] loop that joins the remaining
    arguments; [None] is the null pointer. *)
Fixpoint build_payload (payload : option string) (args : list string)
    : option string :=
  match args with
  | [] => payload
  | arg :: args' =>
      build_payload
        (Some (match payload with
               | None => arg
               | Some p => String.append p (String.append " " arg)
               end))
        args'
  end.

(** What the outside answers in command mode: the socket path on the
    root window, [socket], [connect] to a path, [ipc_send_message] of a
    payload and [ipc_recv_message] (return value, reply type, reply). *)
Record ipc_answers := {
  root_atom_contents : option string;
  socket_fd : Z;
  connect_to : string -> Z;
  ipc_send_message : string -> Z;
  ipc_recv_message : Z * Z * string
}.

(** [strncpy(addr.sun_path, socket_path, sizeof(addr.sun_path) - 1)] into
    the zeroed address. *)
Definition sun_path (socket_path : string) : string :=
  String.substring 0 (sun_path_size - 1) socket_path.

(** Lines 443 to 500: the arguments go to the running i3 as a command.
    The payload is null only for an empty argument list, with which
    [main] does not get here. *)
Definition send_command (o : ipc_answers) (args : list string)
    : list front_effect * Z :=
  match build_payload None args with
  | None => ([SetVerbosity], 1)
  | Some payload =>
      match root_atom_contents o with
      | None => ([SetVerbosity], 1)
      | Some socket_path =>
          if socket_fd o =? -1 then ([SetVerbosity], EXIT_FAILURE)
          else
            let addr := sun_path socket_path in
            if connect_to o addr <? 0
            then ([SetVerbosity; Connect addr], EXIT_FAILURE)
            else
              let sent :=
                [SetVerbosity; Connect addr;
                 Send I3_IPC_MESSAGE_TYPE_RUN_COMMAND
                   (String.length payload) payload] in
              if ipc_send_message o payload =? -1
              then (sent, EXIT_FAILURE)
              else
                let '(ret, reply_type, reply) := ipc_recv_message o in
                if negb (ret =? 0) then
                  (sent, if ret =? -1 then EXIT_FAILURE else 1)
                else if negb (reply_type =? I3_IPC_REPLY_TYPE_COMMAND)
                then (sent, EXIT_FAILURE)
                else (sent ++ [PrintLine reply], 0)
      end
  end.

(** [main] up to line 500: the options, then the two modes that end the
    process, checking the configuration and sending a command; otherwise
    the window manager starts with what the options set.
    [load_configuration_ok] is what [load_configuration] answers. *)
Definition main_front (is_debug_build : bool) (o : ipc_answers)
    (load_configuration_ok : bool) (argv0 : string)
    (rs : list getopt_result) (args : list string)
    : list front_effect * front_result cmdline :=
  match parse_options (root_atom_contents o) rs
          (initial_cmdline is_debug_build argv0) with
  | (e, Exits status) => (InitLogging :: e, Exits status)
  | (e, Went_on st) =>
      if only_check_config st then
        (InitLogging :: e ++ [LoadConfiguration (override_configpath st)],
         Exits (if load_configuration_ok then 0 else 1))
      else
        match args with
        | _ :: _ =>
            let (e', status) := send_command o args in
            (InitLogging :: e ++ e', Exits status)
        | [] => (InitLogging :: e ++ [InitLogging], Went_on st)
        end
  end.

(** [getcwd(buf, size)] in a working directory whose path has [len]
    bytes, or whose path cannot be had ([None]): the path and its NUL must
    fit, and a size of zero is an error of its own. *)
Inductive getcwd_result := Getcwd_ok | Getcwd_ERANGE | Getcwd_failed.

Definition getcwd (dir : option Z) (size : Z) : getcwd_result :=
  match dir with
  | None => Getcwd_failed
  | Some len =>
      if size =? 0 then Getcwd_failed
      else if len <? size then Getcwd_ok
      else Getcwd_ERANGE
  end.

(** Lines 513 to 519 (debug builds): the buffer is doubled while [getcwd]
    fails with ERANGE; [cwd_size] is a [size_t] of 64 bits.  The result is
    the last answer of [getcwd] and the size of the buffer then. *)
Fixpoint getcwd_loop (fuel : nat) (dir : option Z) (cwd_size : Z)
    : option (getcwd_result * Z) :=
  match getcwd dir cwd_size with
  | Getcwd_ERANGE =>
      match fuel with
      | O => None
      | S fuel' => getcwd_loop fuel' dir ((cwd_size * 2) mod 2 ^ 64)
      end
  | r => Some (r, cwd_size)
  end.

Definition main_getcwd (fuel : nat) (dir : option Z)
    : option (getcwd_result * Z) :=
  getcwd_loop fuel dir 1024.

(** ** Reading states and traces *)

(** Everything [xcb_poll_for_event] can still return, in order. *)
Definition queue (w : World) : list xcb_generic_event_t :=
  xcb_buffer (conn w) ++ xcb_wire (conn w).

Definition arrival (a : action) : option xcb_generic_event_t :=
  match a with
  | Arrive e => Some e
  | _ => None
  end.

Definition called (a : action) : option extcall :=
  match a with
  | Call c => Some c
  | _ => None
  end.

(** The events that reached the connection, and the calls made, along a
    trace. *)
Definition arrived (tr : list action) : list xcb_generic_event_t :=
  omap arrival tr.

Definition calls (tr : list action) : list extcall :=
  omap called tr.

(** The call by which [xcb_prepare_cb] deals with an event: an error
    packet is looked up in the list of ignored sequences and logged, any
    other event goes to [handle_event] with the sent-by-client bit
    stripped. *)
Definition drain_call (e : xcb_generic_event_t) : extcall :=
  if response_type e =? 0 then event_is_ignored (sequence e) 0
  else handle_event (Z.land (response_type e) 127) e.

Definition is_drain_call (c : extcall) : bool :=
  match c with
  | handle_event _ _ | event_is_ignored _ _ => true
  | _ => false
  end.

(** The events dealt with along a trace, as the calls that did it. *)
Definition processed (tr : list action) : list extcall :=
  List.filter is_drain_call (calls tr).

(** An event the reconciliation step still hands to [handle_event]. *)
Definition is_map_request (e : xcb_generic_event_t) : bool :=
  negb (response_type e =? 0) &&
  (Z.land (response_type e) 127 =? XCB_MAP_REQUEST).

(** Bookkeeping of a drain: what has been processed, followed by what is
    still queued, is what was queued at the start followed by what has
    arrived since. *)
Definition accounted (q0 : list xcb_generic_event_t) (tr : list action)
    (q : list xcb_generic_event_t) : Prop :=
  processed tr ++ map drain_call q = map drain_call (q0 ++ arrived tr).

(** A trace that ends with a flush and the events that arrived while it
    ran, everything queued at the start or arrived before that flush
    having been processed. *)
Definition flushed (q0 : list xcb_generic_event_t) (tr : list action)
    : Prop :=
  exists done es,
    tr = done ++ Call xcb_flush :: map Arrive es /\
    processed done = map drain_call (q0 ++ arrived done).

(** At every blocking wait of a trace, the last call before sleeping was
    the flush, and all that was queued at the start or arrived before
    that flush has been processed. *)
Definition waits_drained (q0 : list xcb_generic_event_t) (tr : list action)
    : Prop :=
  forall pre post, tr = pre ++ Wait :: post -> flushed q0 pre.

Definition good (q0 : list xcb_generic_event_t) (tr : list action)
    (q : list xcb_generic_event_t) : Prop :=
  accounted q0 tr q /\ waits_drained q0 tr.

(** The bookkeeping holds in [w] for what happened since [w0]. *)
Definition tracks (w0 w : World) : Prop :=
  exists tr, trace w = trace w0 ++ tr /\ good (queue w0) tr (queue w).

(** The invariant of the loop, relative to the state [w0] it started in. *)
Definition loop_inv (w0 w : World) : Prop :=
  prepare_active (main_loop w) = true /\ tracks w0 w.

(** The state in which the loop may go to sleep. *)
Definition loop_ready (w0 w : World) : Prop :=
  prepare_active (main_loop w) = true /\
  pending (main_loop w) = [] /\
  exists tr, trace w = trace w0 ++ tr /\ good (queue w0) tr (queue w) /\
             flushed (queue w0) tr.

(** No call of the oracle makes new events arrive on the X connection
    (libxcb may still read what is there). *)
Definition calm : Prop :=
  forall c x, Forall (fun s => s = XRead) (er_traffic (ext_call c x)).

(** Partial correctness: from a state in [P], a computation that returns
    does so in [Q], and one that stops the process does so in [E]. *)
Definition triple {A} (P : World -> Prop) (m : M A)
    (Q : A -> World -> Prop) (E : stop -> Prop) : Prop :=
  forall w, P w ->
    match m w with
    | Ret a w' => Q a w'
    | Stop s => E s
    | OutOfFuel => True
    end.

(** The descriptors that are still open after [execve]: those without
    the close-on-exec flag. *)
Definition survives_exec (flags : gmap Z Z) (fd : Z) : Prop :=
  exists fl, flags !! fd = Some fl /\ Z.land fl FD_CLOEXEC = 0.

(** A write to a peer that has hung up: SIGPIPE is sent to the writer,
    and if that returns, the write fails (with EPIPE). *)
Definition write_to_closed_peer (fuel : nat) : M Z :=
  deliver fuel SIGPIPE ;; ret (-1).

(** An action that is neither a wait, nor an arrival, nor a call that
    processes an event. *)
Definition neutral (a : action) : bool :=
  match a with
  | Wait | Arrive _ => false
  | Call c => negb (is_drain_call c)
  | Log _ | Raise _ => true
  end.

(** A predicate on states that a computation keeps, however it ends. *)
Definition keeps {A} (P : World -> Prop) (m : M A) : Prop :=
  triple P m (fun _ => P) (fun s => P (stop_world s)).

(** The trace of the second state continues the trace of the first. *)
Definition extends (w w' : World) : Prop :=
  exists tr, trace w' = trace w ++ tr.

(** A computation that always returns, only adds to the trace, and
    leaves the queue of the X connection as it is when no call makes
    events arrive. *)
Definition steady {A} (m : M A) : Prop :=
  forall w, exists a w',
    m w = Ret a w' /\ (calm -> queue w' = queue w) /\ extends w w'.

(** A computation that never ends the process and that, when no call
    makes events arrive and the fuel exceeds the number of queued events,
    returns without lengthening the queue. *)
Definition goes_through (fuel : nat) {A} (m : M A) : Prop :=
  forall w,
    (forall s, m w <> Stop s) /\
    (calm -> (length (queue w) < fuel)%nat ->
     exists a w', m w = Ret a w' /\
                  (length (queue w') <= length (queue w))%nat).

(** The state a call leaves behind. *)
Definition after_call (c : extcall) (w : World) : World :=
  apply_traffic (er_traffic (ext_call c (ext w)))
    (set_ext (er_state (ext_call c (ext w))) (emit (Call c) w)).

(** The event a step of traffic brings, if any. *)
Definition arrival_of (s : xstep) : option xcb_generic_event_t :=
  match s with
  | XArrive e => Some e
  | XRead => None
  end.

(** The events a list of steps brings. *)
Definition arrivals_of (t : list xstep) : list xcb_generic_event_t :=
  omap arrival_of t.

(** The events that arrive while call [c] runs in state [w]. *)
Definition brought (c : extcall) (w : World) : list xcb_generic_event_t :=
  arrivals_of (er_traffic (ext_call c (ext w))).

(** Bookkeeping of the reconciliation drain: the events consumed so far,
    followed by what is still queued, are what was queued at the start
    followed by what has arrived; the calls made are the MapRequests among
    the consumed events, handed to [handle_event] in order. *)
Definition reconciled (q0 : list xcb_generic_event_t) (tr : list action)
    (q : list xcb_generic_event_t) : Prop :=
  exists consumed,
    consumed ++ q = q0 ++ arrived tr /\
    calls tr = map (handle_event XCB_MAP_REQUEST)
                   (List.filter is_map_request consumed).

(** The calls made between two states, in order. *)
Definition calls_since (w w' : World) (cs : list extcall) : Prop :=
  exists tr, trace w' = trace w ++ tr /\ calls tr = cs.

(** Descriptor flags without close-on-exec: [flags & ~FD_CLOEXEC]. *)
Definition cloexec_cleared (fl : Z) : Z := Z.land fl (Z.lnot FD_CLOEXEC).

(** The number of descriptors the supervisor passed, as [sd_listen_fds]
    reports it in state [w]. *)
Definition activation_count (w : World) : Z :=
  er_value (ext_call (sd_listen_fds 0) (ext w)).

(** Whether [tree_restore] succeeds on [path] in state [w]. *)
Definition restore_succeeds (path : string) (w : World) : bool :=
  negb (er_value (ext_call (tree_restore path) (ext w)) =? 0).

(** The colormap id the server hands out in state [w]; the creation of
    a colormap for visual [v] with that id is checked, and the error
    reported is 0 when there is none. *)
Definition generated_colormap (w : World) : Z :=
  er_value (ext_call xcb_generate_id (ext w)).

(** The answer of [xcb_request_check] to that creation. *)
Definition colormap_error (root_screen : xcb_screen_t) (v : xcb_visualtype_t)
    (w : World) : Z :=
  let x1 := er_state (ext_call xcb_generate_id (ext w)) in
  let r2 := ext_call (xcb_create_colormap_checked (generated_colormap w)
                        (scr_root root_screen) (visual_id v)) x1 in
  er_value (ext_call (xcb_request_check (er_value r2)) (er_state r2)).

(** The state after the three calls that set up the colormap for the
    visual [v] of depth 32. *)
Definition after_colormap (root_screen : xcb_screen_t) (v : xcb_visualtype_t)
    (w : World) : World :=
  let w1 :=
    upd_glob (set_root_depth
                (xcb_aux_get_depth_of_visual root_screen (visual_id v)))
      (upd_glob (set_visual (Some v))
         (upd_glob (set_colormap (scr_default_colormap root_screen))
            (upd_glob (set_root_depth (scr_root_depth root_screen)) w))) in
  let w2 := upd_glob (set_colormap (generated_colormap w))
              (after_call xcb_generate_id w1) in
  let c3 := xcb_create_colormap_checked (generated_colormap w)
              (scr_root root_screen) (visual_id v) in
  let w3 := after_call c3 w2 in
  after_call (xcb_request_check (er_value (ext_call c3 (ext w2)))) w3.

(** The watchers of the static array with their indices, from [i] on. *)
Fixpoint numbered (i : nat) (ws : list signal_t) : list (nat * signal_t) :=
  match ws with
  | [] => []
  | s :: ws' => (i, s) :: numbered (S i) ws'
  end.

(** What libev installs for a watched signal. *)
Definition ev_action : disposition :=
  SIG_HANDLER h_ev_sighandler
    {| SA_NODEFER := false; SA_RESETHAND := false; SA_SIGINFO := false |}.

(** Two states that differ at most in the signal dispositions and in the
    signal watchers of the loop. *)
Definition same_but_signals (w w' : World) : Prop :=
  ext w' = ext w /\ conn w' = conn w /\ glob w' = glob w /\
  trace w' = trace w /\
  fdflags (proc w') = fdflags (proc w) /\
  environ (proc w') = environ (proc w) /\
  atexit_handlers (proc w') = atexit_handlers (proc w) /\
  io_watchers (main_loop w') = io_watchers (main_loop w) /\
  prepare_active (main_loop w') = prepare_active (main_loop w) /\
  pending (main_loop w') = pending (main_loop w) /\
  sig_pending (main_loop w') = sig_pending (main_loop w).

(** SIGPIPE is ignored. *)
Definition pipe_safe (w : World) : Prop :=
  sigdisp (proc w) SIGPIPE = SIG_IGN.

(** A computation that keeps SIGPIPE ignored however it ends, and that
    does not end with the process killed by SIGPIPE. *)
Definition pkeeps {A} (m : M A) : Prop :=
  triple pipe_safe m (fun _ => pipe_safe)
    (fun s => pipe_safe (stop_world s) /\ forall v, s <> Killed SIGPIPE v).

(** The cleanup that [exit] runs once [i3_exit] is registered. *)
Definition cleanup_calls (w : World) : list extcall :=
  (if decide (shmlogname (glob w) = "") then []
   else [shm_unlink (shmlogname (glob w))]) ++
  [ipc_shutdown SHUTDOWN_REASON_EXIT (-1);
   unlink (ipc_socket_path (glob w));
   xcb_disconnect] ++
  (if 4 <=? EV_VERSION_MAJOR then [ev_loop_destroy] else []).

(** Two states with the same loop, process state and globals: what a
    computation that only talks to the outside leaves alone. *)
Definition same_inside (w w' : World) : Prop :=
  main_loop w' = main_loop w /\ proc w' = proc w /\ glob w' = glob w.

(** A computation whose start and end states, when it returns, are
    related by [R]. *)
Definition relates (R : World -> World -> Prop) {A} (m : M A) : Prop :=
  forall w,
    match m w with
    | Ret _ w' => R w w'
    | _ => True
    end.

(** A computation that, when it returns, has left the loop, the process
    state and the globals alone. *)
Definition inert {A} (m : M A) : Prop := relates same_inside m.

(** From [w] to [w'] the loop has only gained: io watchers and references
    may have been added and the drain may have been started, while the
    pending callbacks, the signal watchers, the dispositions and the exit
    handlers are the same. *)
Definition grown (w w' : World) : Prop :=
  atexit_handlers (proc w') = atexit_handlers (proc w) /\
  sigdisp (proc w') = sigdisp (proc w) /\
  pending (main_loop w') = pending (main_loop w) /\
  sig_pending (main_loop w') = sig_pending (main_loop w) /\
  signal_watchers (main_loop w') = signal_watchers (main_loop w) /\
  activecnt (main_loop w) <= activecnt (main_loop w') /\
  (prepare_active (main_loop w) = true ->
   prepare_active (main_loop w') = true) /\
  (forall p, p ∈ io_watchers (main_loop w) ->
             p ∈ io_watchers (main_loop w')).

(** A computation that, when it returns, has only made the loop grow. *)
Definition grows {A} (m : M A) : Prop := relates grown m.

(** Two states with the same watchers of descriptors, the same drain
    watcher and the same pending callbacks and signals. *)
Definition watchers_kept (w w' : World) : Prop :=
  io_watchers (main_loop w') = io_watchers (main_loop w) /\
  prepare_active (main_loop w') = prepare_active (main_loop w) /\
  pending (main_loop w') = pending (main_loop w) /\
  sig_pending (main_loop w') = sig_pending (main_loop w).









(** The values of [opt] that have a [case] of their own. *)
Definition handled_values : list Z :=
  [chr "a"; chr "L"; chr "c"; chr "C"; chr "v"; chr "m"; chr "V"; chr "d";
   chr "l"; 0].

(** What an answer of [getopt_long] says about the layout file, if it
    is [-L], [--layout] or [--restart]: the path, and whether the file is
    to be deleted after use. *)
Definition layout_choice (r : getopt_result) : option (string * bool) :=
  if g_opt r =? chr "L" then Some (g_optarg r, false)
  else if (g_opt r =? 0) && String.eqb (long_name (g_index r)) "restart"
  then Some (g_optarg r, true)
  else None.

(** The answers for [-a] and for [--disable-signalhandler]. *)
Definition is_no_autostart (r : getopt_result) : bool :=
  g_opt r =? chr "a".

Definition is_disable_signalhandler (r : getopt_result) : bool :=
  (g_opt r =? 0) &&
  String.eqb (long_name (g_index r)) "disable-signalhandler".

(** The answer for [-C]. *)
Definition is_check_config (r : getopt_result) : bool :=
  g_opt r =? chr "C".

(** The layout file after one more answer. *)
Definition chosen_layout (r : getopt_result) (before : option string * bool)
    : option string * bool :=
  match layout_choice r with
  | Some (path, del) => (Some path, del)
  | None => before
  end.

(** The bytes of a list of arguments, separators not counted. *)
Definition total_length (args : list string) : nat :=
  fold_right (fun s n => (String.length s + n)%nat) 0%nat args.

(** The effects of talking to a running i3, and of validating the
    configuration. *)
Definition talks_to_i3 (e : front_effect) : bool :=
  match e with
  | Connect _ | Send _ _ _ => true
  | _ => false
  end.

Definition loads_configuration (e : front_effect) : bool :=
  match e with
  | LoadConfiguration _ => true
  | _ => false
  end.

(** ** Traces *)

Lemma arrived_app tr1 tr2 : arrived (tr1 ++ tr2) = arrived tr1 ++ arrived tr2.
Proof. unfold arrived. apply omap_app. Qed.

Lemma calls_app tr1 tr2 : calls (tr1 ++ tr2) = calls tr1 ++ calls tr2.
Proof. unfold calls. apply omap_app. Qed.

Lemma processed_app tr1 tr2 :
  processed (tr1 ++ tr2) = processed tr1 ++ processed tr2.
Proof. unfold processed. rewrite calls_app. apply List.filter_app. Qed.

Lemma snoc_split_wait (tr : list action) a pre post :
  a <> Wait ->
  tr ++ [a] = pre ++ Wait :: post ->
  exists post', post = post' ++ [a] /\ tr = pre ++ Wait :: post'.
Proof.
  intros Ha Heq.
  destruct (exists_last (l := Wait :: post)) as [post0 [x Hx]]; [discriminate|].
  rewrite Hx in Heq. rewrite List.app_assoc in Heq.
  apply app_inj_tail in Heq as [Htr <-].
  destruct post0 as [|y post'].
  - simpl in Hx. destruct post; [|destruct post; discriminate].
    injection Hx as Hx. congruence.
  - simpl in Hx. injection Hx as <- ->.
    exists post'. rewrite Htr. split; reflexivity.
Qed.

Lemma waits_drained_snoc q0 tr a :
  a <> Wait -> waits_drained q0 tr -> waits_drained q0 (tr ++ [a]).
Proof.
  intros Ha Hw pre post Heq.
  apply snoc_split_wait in Heq as [post' [_ Heq]]; [|exact Ha].
  exact (Hw _ _ Heq).
Qed.

Lemma good_neutral q0 tr q a :
  neutral a = true -> good q0 tr q -> good q0 (tr ++ [a]) q.
Proof.
  intros Hn [Hacc Hw]. split.
  - unfold accounted in *. rewrite processed_app, arrived_app.
    destruct a as [c| | | |]; simpl in Hn; try discriminate;
      unfold processed, calls, arrived; simpl.
    + destruct (is_drain_call c); [discriminate|]. simpl.
      rewrite !List.app_nil_r. exact Hacc.
    + rewrite !List.app_nil_r. exact Hacc.
    + rewrite !List.app_nil_r. exact Hacc.
  - apply waits_drained_snoc; [|exact Hw].
    destruct a; simpl in Hn; congruence.
Qed.

Lemma good_arrive q0 tr q e :
  good q0 tr q -> good q0 (tr ++ [Arrive e]) (q ++ [e]).
Proof.
  intros [Hacc Hw]. split.
  - unfold accounted in *. rewrite processed_app, arrived_app.
    unfold processed at 2. unfold arrived at 2. simpl.
    rewrite List.app_nil_r, List.map_app, !List.app_assoc, Hacc.
    rewrite !List.map_app. simpl. rewrite <- !List.app_assoc. reflexivity.
  - apply waits_drained_snoc; [discriminate|exact Hw].
Qed.

Lemma good_process q0 tr q e :
  good q0 tr (e :: q) -> good q0 (tr ++ [Call (drain_call e)]) q.
Proof.
  intros [Hacc Hw]. split.
  - unfold accounted in *. rewrite processed_app, arrived_app.
    assert (Hd : is_drain_call (drain_call e) = true).
    { unfold drain_call. destruct (response_type e =? 0); reflexivity. }
    unfold processed at 2. unfold arrived at 2. simpl. rewrite Hd. simpl.
    rewrite List.app_nil_r, <- List.app_assoc. exact Hacc.
  - apply waits_drained_snoc; [discriminate|exact Hw].
Qed.

Lemma good_wait q0 tr q :
  good q0 tr q -> flushed q0 tr -> good q0 (tr ++ [Wait]) q.
Proof.
  intros [Hacc Hw] Hflushed. split.
  - unfold accounted in *. rewrite processed_app, arrived_app.
    unfold processed at 2. unfold arrived at 2. simpl.
    rewrite !List.app_nil_r in *. exact Hacc.
  - intros pre post Heq.
    destruct (exists_last (l := Wait :: post)) as [post0 [x Hx]];
      [discriminate|].
    rewrite Hx, List.app_assoc in Heq.
    apply app_inj_tail in Heq as [Htr <-].
    destruct post0 as [|y post'].
    + rewrite List.app_nil_r in Htr. subst pre. exact Hflushed.
    + simpl in Hx. injection Hx as <- Hpost.
      apply (Hw pre post'). exact Htr.
Qed.

(** ** Rules for triples *)

Lemma triple_ret {A} (P : World -> Prop) (a : A) Q E :
  (forall w, P w -> Q a w) -> triple P (ret a) Q E.
Proof. intros H w Hw. simpl. auto. Qed.

Lemma triple_bind {A B} (P : World -> Prop) (m : M A) (k : A -> M B) Q R E :
  triple P m Q E -> (forall a, triple (Q a) (k a) R E) ->
  triple P (bind m k) R E.
Proof.
  intros Hm Hk w Hw. unfold bind. specialize (Hm w Hw).
  destruct (m w) as [a w'| |]; auto. apply Hk. exact Hm.
Qed.

Lemma triple_conseq {A} (P P' : World -> Prop) (m : M A)
    (Q Q' : A -> World -> Prop) (E E' : stop -> Prop) :
  triple P' m Q' E' ->
  (forall w, P w -> P' w) ->
  (forall a w, Q' a w -> Q a w) ->
  (forall s, E' s -> E s) ->
  triple P m Q E.
Proof.
  intros Hm HP HQ HE w Hw. specialize (Hm w (HP w Hw)).
  destruct (m w); auto.
Qed.

Lemma triple_gets {A} (P : World -> Prop) (f : World -> A) Q E :
  (forall w, P w -> Q (f w) w) -> triple P (gets f) Q E.
Proof. intros H w Hw. simpl. auto. Qed.

Lemma triple_modify (P : World -> Prop) f Q E :
  (forall w, P w -> Q tt (f w)) -> triple P (modify f) Q E.
Proof. intros H w Hw. simpl. auto. Qed.

Lemma keeps_ret {A} (P : World -> Prop) (a : A) : keeps P (ret a).
Proof. apply triple_ret. auto. Qed.

Lemma keeps_bind {A B} (P : World -> Prop) (m : M A) (k : A -> M B) :
  keeps P m -> (forall a, keeps P (k a)) -> keeps P (bind m k).
Proof. intros Hm Hk. eapply triple_bind; [exact Hm|exact Hk]. Qed.

Lemma keeps_gets {A} (P : World -> Prop) (f : World -> A) : keeps P (gets f).
Proof. apply triple_gets. auto. Qed.

Lemma keeps_modify (P : World -> Prop) f :
  (forall w, P w -> P (f w)) -> keeps P (modify f).
Proof. intros H. apply triple_modify. exact H. Qed.

Lemma keeps_out_of_fuel {A} (P : World -> Prop) : keeps P (@out_of_fuel A).
Proof. intros w _. exact I. Qed.

(** ** The invariant under the steps of the model *)

Lemma tracks_refl w : tracks w w.
Proof.
  exists []. split.
  - rewrite List.app_nil_r. reflexivity.
  - split.
    + unfold accounted. simpl. rewrite List.app_nil_r. reflexivity.
    + intros pre post Heq. destruct pre; discriminate.
Qed.

Lemma tracks_frame w0 w w' :
  trace w' = trace w -> conn w' = conn w -> tracks w0 w -> tracks w0 w'.
Proof.
  intros Ht Hc [tr [Htr Hg]]. exists tr. unfold queue in *.
  rewrite Ht, Hc. auto.
Qed.

Lemma tracks_emit w0 w a :
  neutral a = true -> tracks w0 w -> tracks w0 (emit a w).
Proof.
  intros Hn [tr [Htr Hg]]. exists (tr ++ [a]). split.
  - simpl. rewrite Htr, List.app_assoc. reflexivity.
  - apply good_neutral; assumption.
Qed.

Lemma queue_xarrive e w : queue (apply_xstep (XArrive e) w) = queue w ++ [e].
Proof. unfold queue. simpl. rewrite List.app_assoc. reflexivity. Qed.

Lemma queue_xread w : queue (apply_xstep XRead w) = queue w.
Proof. unfold queue. simpl. rewrite List.app_nil_r. reflexivity. Qed.

Lemma tracks_xstep w0 w s : tracks w0 w -> tracks w0 (apply_xstep s w).
Proof.
  intros [tr [Htr Hg]]. destruct s as [e|].
  - exists (tr ++ [Arrive e]). split.
    + simpl. rewrite Htr, List.app_assoc. reflexivity.
    + rewrite queue_xarrive. apply good_arrive. exact Hg.
  - exists tr. split; [exact Htr|]. rewrite queue_xread. exact Hg.
Qed.

Lemma tracks_traffic w0 t : forall w,
  tracks w0 w -> tracks w0 (apply_traffic t w).
Proof.
  unfold apply_traffic. induction t as [|s t IH]; intros w Hw; simpl.
  - exact Hw.
  - apply IH. apply tracks_xstep. exact Hw.
Qed.

Lemma apply_traffic_frame t : forall w,
  main_loop (apply_traffic t w) = main_loop w /\
  proc (apply_traffic t w) = proc w /\
  glob (apply_traffic t w) = glob w /\
  ext (apply_traffic t w) = ext w.
Proof.
  unfold apply_traffic. induction t as [|s t IH]; intros w; simpl; [auto|].
  destruct (IH (apply_xstep s w)) as (H1 & H2 & H3 & H4).
  rewrite H1, H2, H3, H4. destruct s; auto.
Qed.

Lemma loop_inv_frame w0 w w' :
  trace w' = trace w -> conn w' = conn w ->
  prepare_active (main_loop w') = prepare_active (main_loop w) ->
  loop_inv w0 w -> loop_inv w0 w'.
Proof.
  intros Ht Hc Hp [Ha Htr]. split; [congruence|].
  exact (tracks_frame w0 w w' Ht Hc Htr).
Qed.

Lemma loop_inv_emit w0 w a :
  neutral a = true -> loop_inv w0 w -> loop_inv w0 (emit a w).
Proof.
  intros Hn [Ha Htr]. split; [exact Ha|]. apply tracks_emit; assumption.
Qed.

Lemma loop_inv_traffic w0 t w :
  loop_inv w0 w -> loop_inv w0 (apply_traffic t w).
Proof.
  intros [Ha Htr]. split.
  - destruct (apply_traffic_frame t w) as [H _]. rewrite H. exact Ha.
  - apply tracks_traffic. exact Htr.
Qed.

Lemma keeps_call w0 c :
  is_drain_call c = false -> keeps (loop_inv w0) (call c).
Proof.
  intros Hc w Hw. unfold call. simpl.
  apply loop_inv_traffic.
  eapply loop_inv_frame; [| | |apply (loop_inv_emit w0 w (Call c))];
    try reflexivity; [|exact Hw].
  simpl. rewrite Hc. reflexivity.
Qed.

Lemma keeps_log w0 l : keeps (loop_inv w0) (log l).
Proof.
  apply keeps_modify. intros w Hw. apply loop_inv_emit; [reflexivity|exact Hw].
Qed.

Lemma keeps_upd_loop w0 f :
  (forall l, prepare_active (f l) = prepare_active l) ->
  keeps (loop_inv w0) (modify (upd_loop f)).
Proof.
  intros Hf. apply keeps_modify. intros w Hw.
  eapply loop_inv_frame; [| | |exact Hw]; try reflexivity. apply Hf.
Qed.

Lemma keeps_upd_proc w0 f : keeps (loop_inv w0) (modify (upd_proc f)).
Proof.
  apply keeps_modify. intros w Hw.
  eapply loop_inv_frame; [| | |exact Hw]; reflexivity.
Qed.

Lemma keeps_sigaction w0 s d : keeps (loop_inv w0) (sigaction s d).
Proof.
  destruct s; simpl;
    try (apply keeps_bind; [apply keeps_upd_proc|intros; apply keeps_ret]).
  apply keeps_ret.
Qed.

Lemma keeps_i3_exit w0 : keeps (loop_inv w0) i3_exit.
Proof.
  unfold i3_exit.
  apply keeps_bind; [apply keeps_gets|intros name].
  apply keeps_bind.
  { destruct (decide (name = "")); [apply keeps_ret|].
    apply keeps_bind; [apply keeps_log|intros _].
    apply keeps_bind; [apply keeps_call; reflexivity|intros _].
    apply keeps_ret. }
  intros _. apply keeps_bind; [apply keeps_call; reflexivity|intros _].
  apply keeps_bind; [apply keeps_gets|intros path].
  apply keeps_bind; [apply keeps_call; reflexivity|intros _].
  apply keeps_bind; [apply keeps_call; reflexivity|intros _].
  destruct (4 <=? EV_VERSION_MAJOR); [|apply keeps_ret].
  apply keeps_bind; [apply keeps_call; reflexivity|intros _].
  apply keeps_ret.
Qed.

Lemma keeps_run_exit_handlers w0 hs :
  keeps (loop_inv w0) (run_exit_handlers hs).
Proof.
  induction hs as [|h hs IH]; simpl; [apply keeps_ret|].
  apply keeps_bind; [|intros _; exact IH].
  destruct h. apply keeps_i3_exit.
Qed.

Lemma keeps_exit {A} w0 status : keeps (loop_inv w0) (@exit A status).
Proof.
  intros w Hw. unfold exit.
  pose proof (keeps_run_exit_handlers w0 (atexit_handlers (proc w)) w Hw) as H.
  destruct (run_exit_handlers (atexit_handlers (proc w)) w); simpl; auto.
Qed.

Lemma keeps_deliver w0 fuel : forall s, keeps (loop_inv w0) (deliver fuel s).
Proof.
  induction fuel as [|fuel IH]; intros s; simpl; [apply keeps_out_of_fuel|].
  apply keeps_bind; [apply keeps_gets|intros d].
  destruct d as [| |h flags].
  - destruct (default_disposition s); [| |apply keeps_ret];
      intros w Hw; exact Hw.
  - apply keeps_ret.
  - apply keeps_bind.
    { destruct (SA_RESETHAND flags); [|apply keeps_ret].
      apply keeps_bind; [apply keeps_sigaction|intros; apply keeps_ret]. }
    intros _. destruct h.
    + unfold handle_core_signal.
      apply keeps_bind; [apply keeps_gets|intros name].
      apply keeps_bind.
      { destruct (decide (name = "")); [apply keeps_ret|].
        apply keeps_bind; [apply keeps_call; reflexivity|intros _].
        apply keeps_ret. }
      intros _. apply keeps_bind; [|intros _; apply IH].
      apply keeps_modify. intros w Hw.
      apply loop_inv_emit; [reflexivity|exact Hw].
    + apply keeps_upd_loop. reflexivity.
Qed.

Lemma keeps_deliver_all w0 fuel ss :
  keeps (loop_inv w0) (deliver_all fuel ss).
Proof.
  induction ss as [|s ss IH]; simpl; [apply keeps_ret|].
  apply keeps_bind; [apply keeps_deliver|intros _; exact IH].
Qed.

Lemma keeps_ev_feed_event w0 wt : keeps (loop_inv w0) (ev_feed_event wt).
Proof.
  apply keeps_upd_loop. intros l.
  destruct (decide (wt ∈ pending l)); reflexivity.
Qed.

Lemma keeps_feed_all w0 ws : keeps (loop_inv w0) (feed_all ws).
Proof.
  induction ws as [|wt ws IH]; simpl; [apply keeps_ret|].
  apply keeps_bind; [apply keeps_ev_feed_event|intros _; exact IH].
Qed.

(** ** The X connection and the drain *)

Lemma apply_traffic_trace t : forall w,
  trace (apply_traffic t w) = trace w ++ map Arrive (arrivals_of t).
Proof.
  unfold apply_traffic. induction t as [|s t IH]; intros w; simpl.
  - rewrite List.app_nil_r. reflexivity.
  - rewrite IH. destruct s as [e|]; simpl.
    + rewrite <- List.app_assoc. reflexivity.
    + reflexivity.
Qed.

Lemma apply_traffic_queue t : forall w,
  queue (apply_traffic t w) = queue w ++ arrivals_of t.
Proof.
  unfold apply_traffic. induction t as [|s t IH]; intros w; simpl.
  - rewrite List.app_nil_r. reflexivity.
  - rewrite IH. destruct s as [e|].
    + rewrite queue_xarrive. simpl. rewrite <- List.app_assoc. reflexivity.
    + rewrite queue_xread. reflexivity.
Qed.

Lemma after_call_trace c w :
  trace (after_call c w) = trace w ++ Call c :: map Arrive (brought c w).
Proof.
  unfold after_call. rewrite apply_traffic_trace. simpl.
  rewrite <- List.app_assoc. reflexivity.
Qed.

Lemma after_call_queue c w :
  queue (after_call c w) = queue w ++ brought c w.
Proof. unfold after_call. rewrite apply_traffic_queue. reflexivity. Qed.

Lemma calls_arrivals l : calls (map Arrive l) = [].
Proof. induction l; [reflexivity|exact IHl]. Qed.

Lemma arrived_arrivals l : arrived (map Arrive l) = l.
Proof.
  induction l as [|e l IH]; [reflexivity|].
  change (arrived (map Arrive (e :: l))) with (e :: arrived (map Arrive l)).
  rewrite IH. reflexivity.
Qed.

Lemma call_eq c w :
  call c w = Ret (er_value (ext_call c (ext w))) (after_call c w).
Proof. reflexivity. Qed.

Lemma after_call_frame c w :
  main_loop (after_call c w) = main_loop w /\
  proc (after_call c w) = proc w /\
  glob (after_call c w) = glob w.
Proof.
  unfold after_call.
  destruct (apply_traffic_frame (er_traffic (ext_call c (ext w)))
              (set_ext (er_state (ext_call c (ext w))) (emit (Call c) w)))
    as (H1 & H2 & H3 & _).
  rewrite H1, H2, H3. auto.
Qed.

Lemma xcb_poll_for_event_spec w :
  (queue w = [] /\ xcb_poll_for_event w = Ret None w) \/
  (exists e w', xcb_poll_for_event w = Ret (Some e) w' /\
     queue w = e :: queue w' /\ trace w' = trace w /\
     main_loop w' = main_loop w /\ ext w' = ext w /\
     proc w' = proc w /\ glob w' = glob w).
Proof.
  unfold xcb_poll_for_event, queue.
  destruct (xcb_buffer (conn w)) as [|e q] eqn:Hb.
  - destruct (xcb_wire (conn w)) as [|e q] eqn:Hw.
    + left. auto.
    + right. exists e. eexists. split; [reflexivity|]. simpl.
      rewrite List.app_nil_r. auto 10.
  - right. exists e. eexists. split; [reflexivity|]. simpl. auto 10.
Qed.

Lemma tracks_process w0 w w1 e :
  tracks w0 w -> queue w = e :: queue w1 -> trace w1 = trace w ->
  tracks w0 (after_call (drain_call e) w1).
Proof.
  intros [tr [Htr Hg]] Hq Ht. unfold after_call.
  apply tracks_traffic.
  exists (tr ++ [Call (drain_call e)]). split.
  - simpl. rewrite Ht, Htr, List.app_assoc. reflexivity.
  - change (queue (set_ext _ (emit _ w1))) with (queue w1).
    apply good_process. rewrite <- Hq. exact Hg.
Qed.

Lemma drain_call_error e :
  (response_type e =? 0) = true ->
  drain_call e = event_is_ignored (sequence e) 0.
Proof. intros H. unfold drain_call. rewrite H. reflexivity. Qed.

Lemma drain_call_event e :
  (response_type e =? 0) = false ->
  drain_call e = handle_event (Z.land (response_type e) 127) e.
Proof. intros H. unfold drain_call. rewrite H. reflexivity. Qed.

(** The loop of the drain callback cannot stop the process; when it
    returns, the bookkeeping holds, nothing is queued and the loop is as
    it was. *)
Lemma xcb_prepare_cb_loop_spec w0 fuel : forall w,
  tracks w0 w ->
  match xcb_prepare_cb_loop fuel w with
  | Ret _ w' => tracks w0 w' /\ queue w' = [] /\ main_loop w' = main_loop w
  | Stop _ => False
  | OutOfFuel => True
  end.
Proof.
  induction fuel as [|fuel IH]; intros w Hinv; simpl; [exact I|].
  unfold bind at 1.
  destruct (xcb_poll_for_event_spec w)
    as [[Hq Hp]|(e & w1 & Hp & Hq & Ht & Hl & _)]; rewrite Hp.
  - simpl. auto.
  - pose proof (tracks_process w0 w w1 e Hinv Hq Ht) as Hinv2.
    destruct (after_call_frame (drain_call e) w1) as (Hl2 & _).
    destruct (response_type e =? 0) eqn:Hrt.
    + rewrite (drain_call_error e Hrt) in Hinv2, Hl2.
      unfold bind at 1. rewrite call_eq.
      set (w2 := after_call (event_is_ignored (sequence e) 0) w1) in *.
      unfold bind at 1.
      destruct (er_value (ext_call (event_is_ignored (sequence e) 0) (ext w1)) =? 0);
        simpl;
        match goal with
        | |- context [xcb_prepare_cb_loop fuel (emit ?a w2)] =>
            specialize (IH (emit a w2)
              (tracks_emit w0 w2 a eq_refl Hinv2));
            destruct (xcb_prepare_cb_loop fuel (emit a w2)) as [[] w4| |]; auto;
            destruct IH as (H1 & H2 & H3);
            split; [exact H1|split; [exact H2|]];
            rewrite H3; simpl; congruence
        end.
    + rewrite (drain_call_event e Hrt) in Hinv2, Hl2.
      unfold bind at 1. rewrite call_eq.
      set (w2 := after_call (handle_event (Z.land (response_type e) 127) e) w1) in *.
      specialize (IH w2 Hinv2).
      destruct (xcb_prepare_cb_loop fuel w2) as [[] w4| |]; auto.
      destruct IH as (H1 & H2 & H3).
      split; [exact H1|split; [exact H2|congruence]].
Qed.

Lemma tracks_after_call w0 c w :
  is_drain_call c = false -> tracks w0 w -> tracks w0 (after_call c w).
Proof.
  intros Hc Hw. unfold after_call. apply tracks_traffic.
  eapply tracks_frame; [| |apply (tracks_emit w0 w (Call c))];
    try reflexivity; [|exact Hw].
  simpl. rewrite Hc. reflexivity.
Qed.

(** The drain callback: as its loop, then the flush; what is queued when
    it returns is what arrived while the flush ran. *)
Lemma xcb_prepare_cb_spec w0 fuel w :
  tracks w0 w ->
  match xcb_prepare_cb fuel w with
  | Ret _ w' =>
      main_loop w' = main_loop w /\
      exists tr, trace w' = trace w0 ++ tr /\
                 good (queue w0) tr (queue w') /\ flushed (queue w0) tr
  | Stop _ => False
  | OutOfFuel => True
  end.
Proof.
  intros Hinv. unfold xcb_prepare_cb, xcb_flush_out, bind.
  pose proof (xcb_prepare_cb_loop_spec w0 fuel w Hinv) as H.
  destruct (xcb_prepare_cb_loop fuel w) as [[] w1| |]; auto.
  destruct H as (H1 & H2 & H3). rewrite call_eq. cbn [ret].
  destruct (after_call_frame xcb_flush w1) as (Hl & _).
  split; [congruence|].
  destruct (tracks_after_call w0 xcb_flush w1 eq_refl H1) as [tr' [Htr' Hg']].
  destruct H1 as [tr [Htr [Hacc _]]].
  exists tr'. split; [exact Htr'|]. split; [exact Hg'|].
  exists tr, (brought xcb_flush w1). split.
  - rewrite after_call_trace, Htr, <- List.app_assoc in Htr'.
    apply List.app_inv_head in Htr'. symmetry. exact Htr'.
  - unfold accounted in Hacc. rewrite H2 in Hacc. simpl in Hacc.
    rewrite List.app_nil_r in Hacc. exact Hacc.
Qed.

Lemma keeps_invoke w0 fuel wt : keeps (loop_inv w0) (invoke fuel wt).
Proof.
  destruct wt as [|fd cb|i s]; simpl.
  - intros w [Ha Hw]. pose proof (xcb_prepare_cb_spec w0 fuel w Hw) as H.
    destruct (xcb_prepare_cb fuel w) as [[] w1| |];
      [|contradiction|exact I].
    destruct H as (H3 & tr & Htr & Hg & _). split; [congruence|].
    exists tr. auto.
  - destruct cb; [apply keeps_ret|].
    apply keeps_bind; [apply keeps_call; reflexivity|intros; apply keeps_ret].
  - apply keeps_exit.
Qed.

(** When [ev_invoke_pending] returns, nothing is pending. *)
Lemma ev_invoke_pending_spec w0 fuel :
  triple (loop_inv w0) (ev_invoke_pending fuel)
    (fun _ w => loop_inv w0 w /\ pending (main_loop w) = [])
    (fun s => loop_inv w0 (stop_world s)).
Proof.
  induction fuel as [|fuel IH]; simpl; [intros w _; exact I|].
  intros w Hw. unfold bind at 1. simpl.
  destruct (pending (main_loop w)) as [|wt rest] eqn:Hp.
  - simpl. auto.
  - unfold bind at 1. simpl. unfold bind at 1.
    assert (Hw1 : loop_inv w0 (upd_loop (set_pending rest) w)).
    { eapply loop_inv_frame; [| | |exact Hw]; reflexivity. }
    pose proof (keeps_invoke w0 fuel wt _ Hw1) as Hi.
    destruct (invoke fuel wt (upd_loop (set_pending rest) w)) as [[] w2| |];
      auto.
    apply IH. exact Hi.
Qed.

(** From a state with nothing pending, the prepare phase leaves the loop
    ready to sleep. *)
Lemma prepare_phase_spec w0 fuel :
  triple (fun w => loop_inv w0 w /\ pending (main_loop w) = [])
    (prepare_phase fuel)
    (fun _ w => loop_ready w0 w)
    (fun s => loop_inv w0 (stop_world s)).
Proof.
  intros w [Hinv Hp]. unfold prepare_phase, bind at 1. simpl.
  destruct Hinv as [Ha Hrest]. rewrite Ha.
  unfold bind at 1. unfold ev_feed_event, modify.
  set (w1 := upd_loop _ w).
  assert (Hp1 : pending (main_loop w1) = [W_xcb_prepare]).
  { subst w1. simpl. rewrite Hp.
    destruct (decide (W_xcb_prepare ∈ [])) as [Hin|_]; [|simpl; congruence].
    inversion Hin. }
  assert (Hw1 : loop_inv w0 w1).
  { eapply loop_inv_frame; [| | |exact (conj Ha Hrest)]; try reflexivity.
    subst w1. simpl.
    destruct (decide (W_xcb_prepare ∈ pending (main_loop w))); reflexivity. }
  clearbody w1.
  destruct fuel as [|fuel]; simpl; [exact I|].
  unfold bind at 1. simpl. rewrite Hp1.
  unfold bind at 1. simpl. unfold bind at 1.
  assert (Hw2 : loop_inv w0 (upd_loop (set_pending []) w1)).
  { eapply loop_inv_frame; [| | |exact Hw1]; reflexivity. }
  pose proof (xcb_prepare_cb_spec w0 fuel _ (proj2 Hw2)) as H.
  change (invoke fuel W_xcb_prepare) with (xcb_prepare_cb fuel).
  destruct (xcb_prepare_cb fuel (upd_loop (set_pending []) w1))
    as [[] w3| |]; [|contradiction|exact I].
  destruct H as (H3 & H4).
  destruct fuel as [|fuel]; simpl; [exact I|].
  unfold bind. simpl. rewrite H3. simpl.
  split; [rewrite H3; exact (proj1 Hw2)|]. split; [rewrite H3; reflexivity|].
  exact H4.
Qed.

Lemma keeps_wakeup_phase w0 fuel wk : keeps (loop_inv w0) (wakeup_phase fuel wk).
Proof.
  unfold wakeup_phase.
  apply keeps_bind.
  { apply keeps_modify. intros w. apply loop_inv_traffic. }
  intros _. apply keeps_bind; [apply keeps_deliver_all|intros _].
  apply keeps_bind; [apply keeps_gets|intros l].
  apply keeps_bind; [apply keeps_feed_all|intros _].
  apply keeps_bind; [apply keeps_feed_all|intros _].
  apply keeps_upd_loop. reflexivity.
Qed.

Lemma loop_ready_inv w0 w : loop_ready w0 w -> loop_inv w0 w.
Proof.
  intros (Ha & _ & tr & Htr & Hg & _). split; [exact Ha|].
  exists tr. auto.
Qed.

Lemma loop_ready_wait w0 w :
  loop_ready w0 w ->
  loop_inv w0 (emit Wait w) /\ pending (main_loop (emit Wait w)) = [].
Proof.
  intros (Ha & Hp & tr & Htr & Hg & Hf). split; [|exact Hp].
  split; [exact Ha|]. exists (tr ++ [Wait]). split.
  - simpl. rewrite Htr, List.app_assoc. reflexivity.
  - change (queue (emit Wait w)) with (queue w).
    apply good_wait; assumption.
Qed.

Lemma ev_run_loop_unfold fuel wks :
  ev_run_loop fuel wks =
  (prepare_phase fuel ;;
   do cnt <- gets (fun w => activecnt (main_loop w));
   if cnt =? 0 then ev_invoke_pending fuel
   else
     modify (emit Wait) ;;
     match wks with
     | [] => fun w => Stop (Blocked w)
     | wk :: wks' =>
         wakeup_phase fuel wk ;;
         ev_invoke_pending fuel ;;
         do cnt' <- gets (fun w => activecnt (main_loop w));
         if cnt' =? 0 then ret tt else ev_run_loop fuel wks'
     end).
Proof. destruct wks; reflexivity. Qed.

(** The iterations of the loop keep the invariant, however they end. *)
Lemma ev_run_loop_spec w0 fuel : forall wks,
  triple (fun w => loop_inv w0 w /\ pending (main_loop w) = [])
    (ev_run_loop fuel wks)
    (fun _ w => loop_inv w0 w)
    (fun s => loop_inv w0 (stop_world s)).
Proof.
  induction wks as [|wk wks IH]; rewrite ev_run_loop_unfold;
    (eapply triple_bind; [apply prepare_phase_spec|intros ?; cbv beta]);
    (eapply triple_bind with (Q := fun _ w => loop_ready w0 w);
       [apply triple_gets; intros w Hw; exact Hw|intros cnt]);
    simpl; destruct (cnt =? 0).
  - eapply triple_conseq; [apply (ev_invoke_pending_spec w0)| | |];
      simpl; auto using loop_ready_inv. tauto.
  - eapply triple_bind
      with (Q := fun _ w => loop_inv w0 w /\ pending (main_loop w) = []).
    + apply triple_modify. intros w Hw. exact (loop_ready_wait w0 w Hw).
    + intros ? w [Hw _]. exact Hw.
  - eapply triple_conseq; [apply (ev_invoke_pending_spec w0)| | |];
      simpl; auto using loop_ready_inv. tauto.
  - eapply triple_bind
      with (Q := fun _ w => loop_inv w0 w /\ pending (main_loop w) = []).
    { apply triple_modify. intros w Hw. exact (loop_ready_wait w0 w Hw). }
    intros ?; cbv beta. eapply triple_bind with (Q := fun _ w => loop_inv w0 w).
    { eapply triple_conseq; [apply (keeps_wakeup_phase w0)| | |];
        simpl; auto. tauto. }
    intros ?; cbv beta. eapply triple_bind; [apply ev_invoke_pending_spec|intros ?; cbv beta].
    eapply triple_bind
      with (Q := fun _ w => loop_inv w0 w /\ pending (main_loop w) = []);
      [apply triple_gets; intros w Hw; exact Hw|].
    intros cnt'. simpl. destruct (cnt' =? 0); [|exact IH].
    apply triple_ret. tauto.
Qed.

Lemma ev_loop_spec w0 fuel wks :
  triple (loop_inv w0) (ev_loop fuel wks)
    (fun _ w => loop_inv w0 w)
    (fun s => loop_inv w0 (stop_world s)).
Proof.
  unfold ev_loop.
  eapply triple_bind; [apply ev_invoke_pending_spec|intros ?; cbv beta].
  apply ev_run_loop_spec.
Qed.

Lemma loop_inv_refl w : prepare_active (main_loop w) = true -> loop_inv w w.
Proof. intros Ha. split; [exact Ha|apply tracks_refl]. Qed.

(** ** Termination of the drains when no new events arrive *)

Lemma queue_apply_traffic_calm t : forall w,
  Forall (fun s => s = XRead) t -> queue (apply_traffic t w) = queue w.
Proof.
  unfold apply_traffic. induction t as [|s t IH]; intros w Hc; simpl.
  - reflexivity.
  - inversion Hc as [|? ? Hs Ht]; subst. rewrite IH; [|exact Ht].
    apply queue_xread.
Qed.

Lemma queue_after_call_calm c w : calm -> queue (after_call c w) = queue w.
Proof.
  intros Hc. unfold after_call. rewrite queue_apply_traffic_calm; [|apply Hc].
  reflexivity.
Qed.

Lemma xcb_prepare_cb_loop_terminates :
  calm -> forall fuel w, (length (queue w) < fuel)%nat ->
  exists w', xcb_prepare_cb_loop fuel w = Ret tt w'.
Proof.
  intros Hc. induction fuel as [|fuel IH]; intros w Hlen; [lia|].
  simpl. unfold bind at 1.
  destruct (xcb_poll_for_event_spec w)
    as [[Hq Hp]|(e & w1 & Hp & Hq & _)]; rewrite Hp.
  - eexists. reflexivity.
  - rewrite Hq in Hlen. simpl in Hlen.
    destruct (response_type e =? 0).
    + unfold bind at 1. rewrite call_eq. unfold bind at 1.
      destruct (er_value _ =? 0); simpl; apply IH;
        change (queue (emit ?a ?w)) with (queue w);
        rewrite queue_after_call_calm by exact Hc; lia.
    + unfold bind at 1. rewrite call_eq. apply IH.
      rewrite queue_after_call_calm by exact Hc. lia.
Qed.

Lemma discard_events_loop_terminates :
  calm -> forall fuel w, (length (queue w) < fuel)%nat ->
  exists w', discard_events_loop fuel w = Ret tt w'.
Proof.
  intros Hc. induction fuel as [|fuel IH]; intros w Hlen; [lia|].
  simpl. unfold bind at 1.
  destruct (xcb_poll_for_event_spec w)
    as [[Hq Hp]|(e & w1 & Hp & Hq & _)]; rewrite Hp.
  - eexists. reflexivity.
  - rewrite Hq in Hlen. simpl in Hlen.
    destruct (response_type e =? 0); [apply IH; lia|].
    unfold bind at 1.
    destruct (Z.land (response_type e) 127 =? XCB_MAP_REQUEST).
    + unfold bind at 1. rewrite call_eq. simpl. apply IH.
      rewrite queue_after_call_calm by exact Hc. lia.
    + simpl. apply IH. lia.
Qed.

(** ** C1: the drain before every blocking wait *)

(** What one run of the drain callback does, whatever the operating
    system said about the descriptor: it deals with every event in order
    until it finds the queue empty, and then flushes.  What is queued when
    it returns is what arrived while the flush ran. *)
Lemma xcb_prepare_cb_drains fuel w w1 :
  xcb_prepare_cb fuel w = Ret tt w1 ->
  main_loop w1 = main_loop w /\
  exists tr es,
    trace w1 = trace w ++ tr ++ Call xcb_flush :: map Arrive es /\
    processed tr = map drain_call (queue w ++ arrived tr) /\
    queue w1 = es.
Proof.
  intros Hrun. unfold xcb_prepare_cb, xcb_flush_out, bind in Hrun.
  pose proof (xcb_prepare_cb_loop_spec w fuel w (tracks_refl w)) as H.
  destruct (xcb_prepare_cb_loop fuel w) as [[] w2| |]; try discriminate.
  rewrite call_eq in Hrun. cbn [ret] in Hrun. injection Hrun as <-.
  destruct H as ([tr [Htr [Hacc _]]] & Hq & Hl).
  destruct (after_call_frame xcb_flush w2) as (Hl2 & _).
  split; [congruence|].
  exists tr, (brought xcb_flush w2). split; [|split].
  - rewrite after_call_trace, Htr, <- List.app_assoc. reflexivity.
  - unfold accounted in Hacc. rewrite Hq in Hacc. simpl in Hacc.
    rewrite List.app_nil_r in Hacc. exact Hacc.
  - rewrite after_call_queue, Hq. reflexivity.
Qed.

(** However a computation that keeps the invariant ends, its trace
    extends the trace of the state it started in. *)
Lemma final_world_triple {A} (P : World -> Prop) (m : M A) Q E R w w' :
  triple P m Q E -> P w ->
  (forall a v, Q a v -> R v) -> (forall s, E s -> R (stop_world s)) ->
  final_world (m w) = Some w' -> R w'.
Proof.
  intros Hm Hw HQ HE Hf. specialize (Hm w Hw).
  destruct (m w) as [a v|s|]; simpl in Hf; try discriminate;
    injection Hf as <-; eauto.
Qed.

Lemma ev_feed_event_fresh wt w :
  wt ∉ pending (main_loop w) ->
  ev_feed_event wt w =
  Ret tt (upd_loop (set_pending (wt :: pending (main_loop w))) w).
Proof.
  intros Hn. unfold ev_feed_event, modify, upd_loop. simpl.
  destruct (decide (wt ∈ pending (main_loop w))); [contradiction|reflexivity].
Qed.

Lemma brought_calm c w : calm -> brought c w = [].
Proof.
  intros Hc. unfold brought. specialize (Hc c (ext w)).
  induction Hc as [|s t Hs _ IH]; [reflexivity|].
  subst s. exact IH.
Qed.

(** With the drain watcher started and nothing pending, the prepare phase
    of an iteration is one run of the drain callback. *)
Lemma prepare_phase_step f w wc :
  prepare_active (main_loop w) = true ->
  pending (main_loop w) = [] ->
  xcb_prepare_cb (S f) w = Ret tt wc ->
  prepare_phase (S (S f)) w = Ret tt wc.
Proof.
  intros Hact Hpend Hrun.
  assert (Hwb : upd_loop (set_pending [])
                  (upd_loop (set_pending [W_xcb_prepare]) w) = w).
  { destruct w as [x c [io act pend cnt sw sp] p g t].
    cbn in Hpend. subst pend. reflexivity. }
  unfold prepare_phase. unfold bind at 1, gets. rewrite Hact.
  unfold bind at 1.
  rewrite ev_feed_event_fresh by (rewrite Hpend; intros H; inversion H).
  rewrite Hpend.
  cbn [ev_invoke_pending]. unfold bind at 1, gets.
  change (pending (main_loop (upd_loop (set_pending [W_xcb_prepare]) w)))
    with [W_xcb_prepare].
  unfold bind at 1, modify. unfold bind at 1.
  cbn [invoke]. rewrite Hwb, Hrun.
  destruct (xcb_prepare_cb_drains _ _ _ Hrun) as (Hl & _).
  cbn [ev_invoke_pending]. unfold bind at 1, gets.
  rewrite Hl, Hpend. reflexivity.
Qed.

(** C1 (the defect).  Before every blocking wait of the event loop the
    drain callback pulls events from the X connection until it finds
    nothing queued, whether or not the operating system reported the
    descriptor readable, deals with each one in order (an error packet is
    logged, any other event goes to [handle_event]) and then flushes.  The
    flush is the last call before the wait, and the queue is not looked at
    again after it: what is queued when the callback returns is what
    arrived while the flush ran.  So, for the loop as [main] starts it and
    for every sequence of wakeups, at each blocking wait everything that
    was queued or had arrived before the last flush has been dealt with;
    the events libxcb read during that flush have not, and the loop goes
    to sleep with them in the queue.  When no call makes events arrive,
    one run of the callback ends with as many steps as events are queued,
    and leaves nothing queued. *)
Theorem C1_flush_after_the_drain_leaves_events_queued (w : World) :
  prepare_active (main_loop w) = true ->
  (forall fuel w1, xcb_prepare_cb fuel w = Ret tt w1 ->
     exists tr es,
       trace w1 = trace w ++ tr ++ Call xcb_flush :: map Arrive es /\
       processed tr = map drain_call (queue w ++ arrived tr) /\
       queue w1 = es) /\
  (calm ->
   exists w1, xcb_prepare_cb (S (length (queue w))) w = Ret tt w1 /\
              queue w1 = []) /\
  (forall fuel wks w', final_world (ev_loop fuel wks w) = Some w' ->
     exists tr, trace w' = trace w ++ tr /\
       forall pre post, tr = pre ++ Wait :: post ->
         exists done es,
           pre = done ++ Call xcb_flush :: map Arrive es /\
           processed done = map drain_call (queue w ++ arrived done)) /\
  (forall f w1,
     pending (main_loop w) = [] -> activecnt (main_loop w) <> 0 ->
     xcb_prepare_cb (S f) w = Ret tt w1 ->
     exists tr es w',
       ev_loop (S (S f)) [] w = Stop (Blocked w') /\
       trace w' =
         trace w ++ tr ++ Call xcb_flush :: map Arrive es ++ [Wait] /\
       processed tr = map drain_call (queue w ++ arrived tr) /\
       queue w' = es).
Proof.
  intros Ha. split; [|split; [|split]].
  - intros fuel w1 Hrun.
    destruct (xcb_prepare_cb_drains fuel w w1 Hrun) as (_ & Htr).
    exact Htr.
  - intros Hc.
    destruct (xcb_prepare_cb_loop_terminates Hc (S (length (queue w))) w)
      as [w1 Hw1]; [lia|].
    assert (Hrun : xcb_prepare_cb (S (length (queue w))) w =
                   Ret tt (after_call xcb_flush w1)).
    { unfold xcb_prepare_cb, xcb_flush_out, bind. rewrite Hw1, call_eq.
      reflexivity. }
    eexists. split; [exact Hrun|].
    pose proof (xcb_prepare_cb_loop_spec w (S (length (queue w))) w
                  (tracks_refl w)) as Hs.
    rewrite Hw1 in Hs. destruct Hs as (_ & Hq1 & _).
    rewrite after_call_queue, Hq1, (brought_calm _ _ Hc). reflexivity.
  - intros fuel wks w' Hf.
    assert (Hinv : loop_inv w w').
    { eapply (final_world_triple _ _ _ _ (loop_inv w));
        [apply (ev_loop_spec w fuel wks)|apply loop_inv_refl; exact Ha
        | | |exact Hf]; auto. }
    destruct Hinv as [_ [tr [Htr [_ Hw]]]]. exists tr. split; [exact Htr|].
    exact Hw.
  - intros f w1 Hpend Hcnt Hrun.
    destruct (xcb_prepare_cb_drains _ _ _ Hrun)
      as (Hl & tr & es & Htr & Hp & Hq).
    exists tr, es, (emit Wait w1). split; [|split; [|split]].
    + unfold ev_loop. unfold bind at 1.
      cbn [ev_invoke_pending]. unfold bind at 1, gets. rewrite Hpend.
      cbn [ret]. rewrite ev_run_loop_unfold. unfold bind at 1.
      rewrite (prepare_phase_step f w w1 Ha Hpend Hrun).
      unfold bind at 1, gets. rewrite Hl.
      destruct (activecnt (main_loop w) =? 0) eqn:Hz;
        [apply Z.eqb_eq in Hz; contradiction|].
      reflexivity.
    + cbn. rewrite Htr. rewrite <- !List.app_assoc. reflexivity.
    + exact Hp.
    + exact Hq.
Qed.

(** ** C2: the toggle of the drain watcher *)




(** ** C3: windows that exist already *)

Lemma discard_events_loop_spec base q0 fuel : forall v tr0 v2,
  trace v = base ++ tr0 -> reconciled q0 tr0 (queue v) ->
  discard_events_loop fuel v = Ret tt v2 ->
  queue v2 = [] /\
  main_loop v2 = main_loop v /\ proc v2 = proc v /\ glob v2 = glob v /\
  exists tr, trace v2 = base ++ tr /\ reconciled q0 tr [].
Proof.
  induction fuel as [|fuel IH]; intros v tr0 v2 Htr Hrec Hr; [discriminate|].
  simpl in Hr. unfold bind at 1 in Hr.
  destruct (xcb_poll_for_event_spec v)
    as [[Hq Hp]|(e & v1 & Hp & Hq & Ht & Hl & _ & Hpr & Hgl)];
    rewrite Hp in Hr.
  - injection Hr as <-. rewrite Hq in Hrec.
    split; [exact Hq|]. do 3 (split; [reflexivity|]). eauto.
  - destruct Hrec as [consumed [Hcons Hcalls]]. rewrite Hq in Hcons.
    assert (Hcons' : (consumed ++ [e]) ++ queue v1 = q0 ++ arrived tr0).
    { rewrite <- List.app_assoc. exact Hcons. }
    destruct (response_type e =? 0) eqn:Hrt.
    + destruct (IH v1 tr0 v2) as (R1 & R2 & R3 & R4 & R5);
        [congruence| |exact Hr|].
      * exists (consumed ++ [e]). split; [exact Hcons'|].
        assert (Himr : is_map_request e = false)
          by (unfold is_map_request; rewrite Hrt; reflexivity).
        rewrite List.filter_app. cbn [List.filter]. rewrite Himr.
        rewrite List.app_nil_r. exact Hcalls.
      * split; [exact R1|split; [congruence|split; [congruence|split; [congruence|exact R5]]]].
    + unfold bind at 1 in Hr.
      destruct (Z.land (response_type e) 127 =? XCB_MAP_REQUEST) eqn:Hty.
      * unfold bind at 1 in Hr. rewrite call_eq in Hr. simpl in Hr.
        apply Z.eqb_eq in Hty as Hty'. rewrite Hty' in Hr.
        set (c := handle_event XCB_MAP_REQUEST e) in *.
        destruct (after_call_frame c v1) as (F1 & F2 & F3).
        destruct (IH (after_call c v1)
                    (tr0 ++ Call c :: map Arrive (brought c v1)) v2)
          as (R1 & R2 & R3 & R4 & R5); [| |exact Hr|].
        { rewrite after_call_trace, Ht, Htr, <- List.app_assoc. reflexivity. }
        { exists (consumed ++ [e]). split.
          - rewrite after_call_queue, arrived_app.
            change (arrived (Call c :: ?l)) with (arrived l).
            rewrite arrived_arrivals.
            rewrite (List.app_assoc (consumed ++ [e])), Hcons'.
            rewrite <- List.app_assoc. reflexivity.
          - rewrite calls_app.
            change (calls (Call c :: ?l)) with (c :: calls l).
            assert (Himr : is_map_request e = true)
              by (unfold is_map_request; rewrite Hrt, Hty; reflexivity).
            rewrite calls_arrivals, Hcalls, List.filter_app, List.map_app.
            cbn [List.filter]. rewrite Himr. reflexivity. }
        split; [exact R1|split; [congruence|split; [congruence|split; [congruence|exact R5]]]].
      * simpl in Hr.
        destruct (IH v1 tr0 v2) as (R1 & R2 & R3 & R4 & R5);
          [congruence| |exact Hr|].
        { exists (consumed ++ [e]). split; [exact Hcons'|].
          assert (Himr : is_map_request e = false)
            by (unfold is_map_request; rewrite Hrt, Hty; reflexivity).
          rewrite List.filter_app. cbn [List.filter]. rewrite Himr.
          rewrite List.app_nil_r. exact Hcalls. }
        split; [exact R1|split; [congruence|split; [congruence|split; [congruence|exact R5]]]].
Qed.

Lemma discard_events_loop_never_stops fuel : forall v s,
  discard_events_loop fuel v <> Stop s.
Proof.
  induction fuel as [|fuel IH]; intros v s; [discriminate|].
  simpl. unfold bind at 1.
  destruct (xcb_poll_for_event_spec v) as [[_ Hp]|(e & v1 & Hp & _)];
    rewrite Hp; [discriminate|].
  destruct (response_type e =? 0); [apply IH|].
  unfold bind at 1.
  destruct (Z.land (response_type e) 127 =? XCB_MAP_REQUEST).
  - unfold bind at 1. rewrite call_eq. simpl. apply IH.
  - simpl. apply IH.
Qed.

Lemma main_manage_existing_eq fuel root w :
  main_manage_existing fuel root w =
  match discard_events_loop fuel
          (apply_xstep XRead
             (after_call xcb_aux_sync (after_call xcb_grab_server w))) with
  | Ret _ w3 =>
      Ret tt (after_call xcb_ungrab_server
                (after_call (manage_existing_windows root) w3))
  | Stop s => Stop s
  | OutOfFuel => OutOfFuel
  end.
Proof.
  unfold main_manage_existing, xcb_aux_sync_roundtrip, bind, modify.
  rewrite !call_eq.
  destruct (discard_events_loop fuel _) as [[] w3| |]; reflexivity.
Qed.

(** C3. Reconciliation of the windows that exist already does, in this
    order: grab the server, synchronise with a round trip, drain all
    pending events, of which only the MapRequests go to [handle_event]
    (in order, the others and the error packets are dropped), call
    [manage_existing_windows] on the root with nothing left queued, and
    ungrab the server.  The step never ends the process, and it returns
    when no call makes new events arrive. *)
Theorem C3_existing_window_reconciliation (fuel : nat) (root : Z) (w : World) :
  (forall w', main_manage_existing fuel root w = Ret tt w' ->
     exists before after,
       trace w' =
         trace w ++ before ++ Call (manage_existing_windows root) :: after /\
       calls before =
         xcb_grab_server :: xcb_aux_sync ::
           map (handle_event XCB_MAP_REQUEST)
               (List.filter is_map_request (queue w ++ arrived before)) /\
       calls after = [xcb_ungrab_server] /\
       queue w' = arrived after) /\
  (forall s, main_manage_existing fuel root w <> Stop s) /\
  (calm -> (length (queue w) < fuel)%nat ->
   exists w', main_manage_existing fuel root w = Ret tt w').
Proof.
  rewrite main_manage_existing_eq.
  set (w1 := after_call xcb_grab_server w).
  set (w2 := apply_xstep XRead (after_call xcb_aux_sync w1)).
  assert (Hq2 : queue w2 =
            queue w ++ brought xcb_grab_server w ++ brought xcb_aux_sync w1).
  { subst w2. rewrite queue_xread, after_call_queue. subst w1.
    rewrite after_call_queue, <- List.app_assoc. reflexivity. }
  assert (Ht2 : trace w2 =
            trace w ++ Call xcb_grab_server ::
              map Arrive (brought xcb_grab_server w) ++
              Call xcb_aux_sync :: map Arrive (brought xcb_aux_sync w1)).
  { subst w2. change (trace (apply_xstep XRead ?u)) with (trace u).
    rewrite after_call_trace. subst w1. rewrite after_call_trace.
    rewrite <- List.app_assoc. reflexivity. }
  split; [|split].
  - intros w' Hrun.
    destruct (discard_events_loop fuel w2) as [[] w3| |] eqn:Hd;
      try discriminate.
    injection Hrun as <-.
    destruct (discard_events_loop_spec (trace w2) (queue w2) fuel w2 [] w3)
      as (Hq3 & _ & _ & _ & trd & Ht3 & consumed & Hcons & Hcalls).
    { rewrite List.app_nil_r. reflexivity. }
    { exists []. split; [|reflexivity].
      change (arrived []) with (@nil xcb_generic_event_t).
      rewrite List.app_nil_r. reflexivity. }
    { exact Hd. }
    rewrite List.app_nil_r in Hcons. subst consumed.
    set (w4 := after_call (manage_existing_windows root) w3).
    exists (Call xcb_grab_server ::
              map Arrive (brought xcb_grab_server w) ++
              Call xcb_aux_sync :: map Arrive (brought xcb_aux_sync w1) ++ trd).
    exists (map Arrive (brought (manage_existing_windows root) w3) ++
            Call xcb_ungrab_server :: map Arrive (brought xcb_ungrab_server w4)).
    split; [|split; [|split]].
    + rewrite after_call_trace. subst w4. rewrite after_call_trace, Ht3, Ht2.
      repeat (rewrite <- List.app_assoc; simpl). reflexivity.
    + change (calls (Call ?c :: ?l)) with (c :: calls l).
      rewrite calls_app, calls_arrivals. simpl.
      change (calls (Call ?c :: ?l)) with (c :: calls l).
      rewrite calls_app, calls_arrivals. simpl. rewrite Hcalls.
      do 3 f_equal.
      change (arrived (Call ?c :: ?l)) with (arrived l).
      rewrite arrived_app, arrived_arrivals.
      change (arrived (Call ?c :: ?l)) with (arrived l).
      rewrite arrived_app, arrived_arrivals, Hq2.
      rewrite <- !List.app_assoc. reflexivity.
    + rewrite calls_app, calls_arrivals. simpl.
      change (calls (Call ?c :: ?l)) with (c :: calls l).
      rewrite calls_arrivals. reflexivity.
    + rewrite after_call_queue. subst w4. rewrite after_call_queue, Hq3.
      rewrite arrived_app, arrived_arrivals.
      change (arrived (Call ?c :: ?l)) with (arrived l).
      rewrite arrived_arrivals. reflexivity.
  - intros s Hs.
    destruct (discard_events_loop fuel w2) as [[] w3| |] eqn:Hd;
      try discriminate.
    exact (discard_events_loop_never_stops fuel w2 _ Hd).
  - intros Hc Hlen.
    destruct (discard_events_loop_terminates Hc fuel w2) as [w3 Hw3].
    + subst w2. rewrite queue_xread. subst w1.
      rewrite !queue_after_call_calm by exact Hc. exact Hlen.
    + rewrite Hw3. eexists. reflexivity.
Qed.

(** ** C4: descriptors passed by socket activation *)

Lemma cloexec_cleared_bit fl : Z.land (cloexec_cleared fl) FD_CLOEXEC = 0.
Proof.
  unfold cloexec_cleared. rewrite <- Z.land_assoc.
  change (Z.land (Z.lnot FD_CLOEXEC) FD_CLOEXEC) with 0.
  apply Z.land_0_r.
Qed.

Lemma listen_on_activation_fd_spec fd w :
  exists w2,
    listen_on_activation_fd fd w = Ret tt w2 /\
    io_watchers (main_loop w2) =
      (fd, cb_ipc_new_client) :: io_watchers (main_loop w) /\
    (forall d fl, fdflags (proc w) !! d = Some fl -> 0 <= fl ->
       fdflags (proc w2) !! d =
       Some (if decide (d = fd) then cloexec_cleared fl else fl)) /\
    (forall d, fdflags (proc w) !! d = None ->
       fdflags (proc w2) !! d = None).
Proof.
  unfold listen_on_activation_fd, bind, log, modify, fcntl_F_GETFD, gets,
    fcntl_F_SETFD, ev_io_start, ev_ref, ret.
  cbn [proc emit].
  destruct (fdflags (proc w) !! fd) as [flags|] eqn:Hfd.
  - destruct (flags <? 0) eqn:Hneg.
    + eexists. split; [reflexivity|]. cbn. split; [reflexivity|].
      split; [|auto]. intros d fl Hd Hpos.
      destruct (decide (d = fd)) as [->|]; [|exact Hd].
      rewrite Hfd in Hd. injection Hd as ->. lia.
    + change (proc (emit (Log (LogAlsoListening fd)) w)) with (proc w).
      rewrite Hfd. cbn.
      eexists. split; [reflexivity|]. cbn. split; [reflexivity|].
      split.
      * intros d fl Hd _. destruct (decide (d = fd)) as [->|Hne].
        -- rewrite lookup_insert_eq. rewrite Hfd in Hd.
           injection Hd as ->. reflexivity.
        -- rewrite lookup_insert_ne by congruence. exact Hd.
      * intros d Hd. rewrite lookup_insert_ne; [exact Hd|].
        intros ->. congruence.
  - cbn. eexists. split; [reflexivity|]. cbn. split; [reflexivity|].
    split; [|auto]. intros d fl Hd _.
    destruct (decide (d = fd)) as [->|]; [congruence|exact Hd].
Qed.

(** The loop over the descriptors: it always returns; each descriptor of
    the range gets a watcher, no other watcher is added and none is
    removed, and the flags of an open descriptor of the range lose
    close-on-exec while all other flags stay. *)
Lemma listen_on_activation_fds_spec n : forall fd w,
  exists w',
    listen_on_activation_fds n fd w = Ret tt w' /\
    (forall d, fd <= d < fd + Z.of_nat n ->
       (d, cb_ipc_new_client) ∈ io_watchers (main_loop w')) /\
    (forall p, p ∈ io_watchers (main_loop w) ->
       p ∈ io_watchers (main_loop w')) /\
    (forall p, p ∈ io_watchers (main_loop w') ->
       p ∈ io_watchers (main_loop w) \/
       (snd p = cb_ipc_new_client /\ fd <= fst p < fd + Z.of_nat n)) /\
    (forall d fl, fdflags (proc w) !! d = Some fl -> 0 <= fl ->
       fdflags (proc w') !! d =
       Some (if decide (fd <= d < fd + Z.of_nat n)
             then cloexec_cleared fl else fl)) /\
    (forall d, fdflags (proc w) !! d = None -> fdflags (proc w') !! d = None).
Proof.
  induction n as [|n IH]; intros fd w.
  - exists w. split; [reflexivity|]. split; [intros d Hd; simpl in Hd; lia|].
    split; [auto|]. split; [auto|]. split; [|auto].
    intros d fl Hfl _. rewrite Hfl.
    destruct (decide (fd <= d < fd + Z.of_nat 0)); [simpl in *; lia|reflexivity].
  - cbn [listen_on_activation_fds]. unfold bind at 1.
    destruct (listen_on_activation_fd_spec fd w) as (w2 & Heq & Hio & Hfl & Hnone).
    rewrite Heq.
    destruct (IH (fd + 1) w2)
      as (w' & Hrun & Hin & Hmono & Hout & Hfl' & Hnone').
    exists w'. split; [exact Hrun|]. split; [|split; [|split; [|split]]].
    + intros d Hd. destruct (decide (d = fd)) as [->|Hne].
      * apply Hmono. rewrite Hio. apply list_elem_of_here.
      * apply Hin. lia.
    + intros p Hp. apply Hmono. rewrite Hio. apply list_elem_of_further.
      exact Hp.
    + intros p Hp. destruct (Hout p Hp) as [H|[H1 H2]].
      * rewrite Hio in H. apply elem_of_cons in H as [->|H]; [|auto].
        right. simpl. split; [reflexivity|lia].
      * right. split; [exact H1|lia].
    + intros d fl Hd Hpos. specialize (Hfl d fl Hd Hpos).
      destruct (decide (d = fd)) as [->|Hne].
      * assert (Hc : 0 <= cloexec_cleared fl).
        { unfold cloexec_cleared. apply Z.land_nonneg. left. exact Hpos. }
        rewrite (Hfl' fd _ Hfl Hc).
        destruct (decide (fd + 1 <= fd < fd + 1 + Z.of_nat n)); [lia|].
        destruct (decide (fd <= fd < fd + Z.of_nat (S n))); [reflexivity|lia].
      * rewrite (Hfl' d _ Hfl Hpos).
        destruct (decide (fd + 1 <= d < fd + 1 + Z.of_nat n));
          destruct (decide (fd <= d < fd + Z.of_nat (S n)));
          try reflexivity; lia.
    + intros d Hd. apply Hnone'. apply Hnone. exact Hd.
Qed.

(** C4. The step always returns.  For every descriptor from
    SD_LISTEN_FDS_START up to, not including, SD_LISTEN_FDS_START plus the
    count, a watcher with the IPC accept callback is started, and when the
    descriptor is open its close-on-exec flag is cleared, the other flags
    kept, so that it is still open after an exec.  With a count of zero
    (or an error) no watcher is started and no flag is touched. *)
Theorem C4_socket_activation_descriptors (w : World) :
  exists w',
    main_socket_activation w = Ret tt w' /\
    (activation_count w <= 0 ->
       io_watchers (main_loop w') = io_watchers (main_loop w) /\
       fdflags (proc w') = fdflags (proc w)) /\
    (forall fd,
       SD_LISTEN_FDS_START <= fd < SD_LISTEN_FDS_START + activation_count w ->
       (fd, cb_ipc_new_client) ∈ io_watchers (main_loop w') /\
       forall fl, fdflags (proc w) !! fd = Some fl -> 0 <= fl ->
         fdflags (proc w') !! fd = Some (cloexec_cleared fl) /\
         survives_exec (fdflags (proc w')) fd).
Proof.
  unfold main_socket_activation, activation_count. unfold bind at 1.
  rewrite call_eq. unfold bind at 1, modify.
  set (n := er_value (ext_call (sd_listen_fds 0) (ext w))).
  set (w1 := upd_glob (set_listen_fds n) (after_call (sd_listen_fds 0) w)).
  destruct (after_call_frame (sd_listen_fds 0) w) as (Hl & Hp & _).
  assert (Hl1 : main_loop w1 = main_loop w) by exact Hl.
  assert (Hp1 : proc w1 = proc w) by exact Hp.
  destruct (n <? 0) eqn:Hneg; [|destruct (n =? 0) eqn:Hzero].
  - eexists. split; [reflexivity|]. simpl. rewrite Hl, Hp.
    split; [auto|]. intros fd Hfd. apply Z.ltb_lt in Hneg. lia.
  - eexists. split; [reflexivity|]. simpl. rewrite Hl, Hp.
    split; [auto|]. intros fd Hfd. apply Z.eqb_eq in Hzero. lia.
  - apply Z.ltb_ge in Hneg. apply Z.eqb_neq in Hzero.
    destruct (listen_on_activation_fds_spec (Z.to_nat n) SD_LISTEN_FDS_START w1)
      as (w' & Hrun & Hin & _ & _ & Hfl & _).
    exists w'. split; [exact Hrun|]. split; [intros; lia|].
    intros fd Hfd. rewrite Z2Nat.id in Hin, Hfl by lia.
    split; [apply Hin; exact Hfd|].
    intros fl Hopen Hpos. rewrite <- Hp1 in Hopen.
    pose proof (Hfl fd fl Hopen Hpos) as H.
    destruct (decide (SD_LISTEN_FDS_START <= fd < SD_LISTEN_FDS_START + n));
      [|lia].
    split; [exact H|]. exists (cloexec_cleared fl).
    split; [exact H|apply cloexec_cleared_bit].
Qed.

(** ** C5: restoring the layout *)

Lemma calls_since_refl w : calls_since w w [].
Proof. exists []. rewrite List.app_nil_r. auto. Qed.

Lemma calls_since_trans w1 w2 w3 cs1 cs2 :
  calls_since w1 w2 cs1 -> calls_since w2 w3 cs2 ->
  calls_since w1 w3 (cs1 ++ cs2).
Proof.
  intros [t1 [H1 C1]] [t2 [H2 C2]]. exists (t1 ++ t2). split.
  - rewrite H2, H1, List.app_assoc. reflexivity.
  - rewrite calls_app, C1, C2. reflexivity.
Qed.

Lemma calls_since_call c w : calls_since w (after_call c w) [c].
Proof.
  exists (Call c :: map Arrive (brought c w)). split.
  - apply after_call_trace.
  - change (calls (Call c :: ?l)) with (c :: calls l).
    rewrite calls_arrivals. reflexivity.
Qed.

Lemma calls_since_log l w : calls_since w (emit (Log l) w) [].
Proof. exists [Log l]. auto. Qed.

Lemma extends_refl w : extends w w.
Proof. exists []. rewrite List.app_nil_r. reflexivity. Qed.

Lemma extends_trans w1 w2 w3 : extends w1 w2 -> extends w2 w3 -> extends w1 w3.
Proof.
  intros [t1 H1] [t2 H2]. exists (t1 ++ t2).
  rewrite H2, H1, List.app_assoc. reflexivity.
Qed.

Lemma extends_after_call c w : extends w (after_call c w).
Proof. eexists. apply after_call_trace. Qed.

Lemma steady_ret {A} (a : A) : steady (ret a).
Proof. intros w. exists a, w. auto using extends_refl. Qed.

Lemma steady_bind {A B} (m : M A) (k : A -> M B) :
  steady m -> (forall a, steady (k a)) -> steady (bind m k).
Proof.
  intros Hm Hk w. destruct (Hm w) as (a & w1 & H1 & Q1 & E1).
  destruct (Hk a w1) as (b & w2 & H2 & Q2 & E2).
  exists b, w2. unfold bind. rewrite H1. split; [exact H2|]. split.
  - intros Hc. rewrite Q2, Q1; auto.
  - exact (extends_trans _ _ _ E1 E2).
Qed.

Lemma steady_gets {A} (f : World -> A) : steady (gets f).
Proof. intros w. exists (f w), w. auto using extends_refl. Qed.

Lemma steady_modify f :
  (forall w, conn (f w) = conn w) -> (forall w, trace (f w) = trace w) ->
  steady (modify f).
Proof.
  intros Hf Ht w. exists tt, (f w). split; [reflexivity|]. split.
  - intros _. unfold queue. rewrite Hf. reflexivity.
  - exists []. rewrite Ht, List.app_nil_r. reflexivity.
Qed.

Lemma steady_call c : steady (call c).
Proof.
  intros w. eexists _, _. split; [apply call_eq|]. split.
  - intros Hc. apply queue_after_call_calm. exact Hc.
  - apply extends_after_call.
Qed.

Lemma steady_log l : steady (log l).
Proof.
  intros w. eexists _, _. split; [reflexivity|]. split; [reflexivity|].
  exists [Log l]. reflexivity.
Qed.

Ltac steady_step :=
  first
    [ apply steady_ret
    | apply steady_call
    | apply steady_log
    | apply steady_gets
    | apply steady_modify; reflexivity
    | apply steady_bind; [|intros ?] ].

Lemma steady_ev_io_start fd cb : steady (ev_io_start fd cb).
Proof. unfold ev_io_start, ev_ref. repeat steady_step. Qed.

Lemma steady_sigaction s d : steady (sigaction s d).
Proof. destruct s; simpl; repeat steady_step. Qed.

Lemma steady_main_restore_tree lp del : steady (main_restore_tree lp del).
Proof.
  unfold main_restore_tree. apply steady_bind.
  - destruct lp as [path|]; [|apply steady_ret].
    apply steady_bind; [apply steady_call|intros restored].
    apply steady_bind; [|intros _; apply steady_ret].
    destruct del; repeat steady_step.
  - intros []; repeat steady_step.
Qed.

Lemma steady_fcntl_F_SETFD fd flags : steady (fcntl_F_SETFD fd flags).
Proof.
  intros w. unfold fcntl_F_SETFD.
  destruct (fdflags (proc w) !! fd); eexists _, _;
    (split; [reflexivity|]); (split; [reflexivity|]);
    exists []; cbn; rewrite List.app_nil_r; reflexivity.
Qed.

Lemma steady_listen_on_activation_fd fd : steady (listen_on_activation_fd fd).
Proof.
  unfold listen_on_activation_fd, fcntl_F_GETFD.
  apply steady_bind; [apply steady_log|intros _].
  apply steady_bind; [apply steady_gets|intros flags].
  apply steady_bind.
  - destruct (flags <? 0); [apply steady_ret|].
    apply steady_bind; [apply steady_fcntl_F_SETFD|intros; apply steady_ret].
  - intros failed. apply steady_bind; [|intros _; apply steady_ev_io_start].
    destruct failed; [apply steady_log|apply steady_ret].
Qed.

Lemma steady_listen_on_activation_fds n : forall fd,
  steady (listen_on_activation_fds n fd).
Proof.
  induction n as [|n IH]; intros fd; simpl; [apply steady_ret|].
  apply steady_bind; [apply steady_listen_on_activation_fd|intros _; apply IH].
Qed.

Lemma steady_main_socket_activation : steady main_socket_activation.
Proof.
  unfold main_socket_activation.
  apply steady_bind; [apply steady_call|intros n].
  apply steady_bind; [apply steady_modify; reflexivity|intros _].
  destruct (n <? 0); [apply steady_log|].
  destruct (n =? 0); [apply steady_log|].
  apply steady_listen_on_activation_fds.
Qed.

Lemma steady_main_restart_fd : steady main_restart_fd.
Proof.
  unfold main_restart_fd, parse_restart_fd, getenv.
  apply steady_bind.
  - apply steady_bind; [apply steady_gets|intros [s|]]; [|apply steady_ret].
    destruct (parse_long s 10); repeat steady_step.
  - intros fd. destruct (fd =? -1); repeat steady_step.
Qed.

Lemma steady_main_start_xcb_watchers fd : steady (main_start_xcb_watchers fd).
Proof.
  unfold main_start_xcb_watchers, ev_prepare_start, xcb_flush_out.
  apply steady_bind; [apply steady_ev_io_start|intros _].
  apply steady_bind; [|intros _; repeat steady_step].
  apply steady_bind; [apply steady_gets|intros []]; [apply steady_ret|].
  unfold ev_ref. repeat steady_step.
Qed.

Lemma steady_start_signal_watchers ws : forall i,
  steady (start_signal_watchers i ws).
Proof.
  induction ws as [|s ws IH]; intros i; simpl; [apply steady_ret|].
  apply steady_bind; [|intros _].
  - unfold ev_signal_start, ev_ref.
    apply steady_bind; [apply steady_gets|intros l].
    apply steady_bind; [|intros _; repeat steady_step].
    destruct (decide (s ∈ map snd l)); [apply steady_ret|].
    apply steady_bind; [apply steady_sigaction|intros _; apply steady_ret].
  - apply steady_bind; [|intros _; apply IH].
    unfold ev_unref. repeat steady_step.
Qed.

Lemma steady_sigaction_any_failed ss d : steady (sigaction_any_failed ss d).
Proof.
  induction ss as [|s ss IH]; simpl; [apply steady_ret|].
  apply steady_bind; [apply steady_sigaction|intros rc].
  destruct (rc =? -1); [apply steady_ret|exact IH].
Qed.

Lemma steady_main_setup_signals dis : steady (main_setup_signals dis).
Proof.
  unfold main_setup_signals, setup_term_handlers, signal.
  apply steady_bind; [|intros _].
  - destruct dis; cbn [negb]; [|repeat steady_step].
    apply steady_bind; [apply steady_sigaction_any_failed|intros []];
      repeat steady_step.
  - apply steady_bind; [apply steady_start_signal_watchers|intros _].
    apply steady_bind; [apply steady_sigaction|intros _; apply steady_ret].
Qed.

Lemma steady_i3_exit : steady i3_exit.
Proof.
  unfold i3_exit.
  apply steady_bind; [apply steady_gets|intros name].
  apply steady_bind; [destruct (decide (name = "")); repeat steady_step|].
  intros _. apply steady_bind; [apply steady_call|intros _].
  apply steady_bind; [apply steady_gets|intros path].
  apply steady_bind; [apply steady_call|intros _].
  apply steady_bind; [apply steady_call|intros _].
  destruct (4 <=? EV_VERSION_MAJOR); repeat steady_step.
Qed.

Lemma steady_run_exit_handlers hs : steady (run_exit_handlers hs).
Proof.
  induction hs as [|[] hs IH]; simpl; [apply steady_ret|].
  apply steady_bind; [apply steady_i3_exit|intros _; exact IH].
Qed.

(** [exit] ends the process with the status it is given, after the exit
    handlers have run. *)
Lemma exit_spec {A} status w :
  exists w', @exit A status w = Stop (Exited status w') /\ extends w w'.
Proof.
  unfold exit.
  destruct (steady_run_exit_handlers (atexit_handlers (proc w)) w)
    as ([] & w' & H & _ & He).
  rewrite H. exists w'. auto.
Qed.

Lemma goes_through_steady fuel {A} (m : M A) :
  steady m -> goes_through fuel m.
Proof.
  intros Hm w. destruct (Hm w) as (a & w' & H & Q & _). split.
  - intros s. rewrite H. discriminate.
  - intros Hc _. exists a, w'. split; [exact H|]. rewrite Q; auto.
Qed.

Lemma goes_through_bind fuel {A B} (m : M A) (k : A -> M B) :
  goes_through fuel m -> (forall a, goes_through fuel (k a)) ->
  goes_through fuel (bind m k).
Proof.
  intros Hm Hk w. destruct (Hm w) as [Hs Hr]. split.
  - intros s. unfold bind. destruct (m w) as [a w1|s1|] eqn:Hmw.
    + apply (Hk a w1).
    + exfalso. exact (Hs s1 eq_refl).
    + discriminate.
  - intros Hc Hlen. destruct (Hr Hc Hlen) as (a & w1 & H1 & L1).
    destruct (Hk a w1) as [_ Hr2].
    destruct (Hr2 Hc) as (b & w2 & H2 & L2); [lia|].
    exists b, w2. unfold bind. rewrite H1. split; [exact H2|lia].
Qed.

Lemma goes_through_main_manage_existing fuel root :
  goes_through fuel (main_manage_existing fuel root).
Proof.
  intros w. split.
  - rewrite main_manage_existing_eq. intros s Hs.
    destruct (discard_events_loop fuel _) as [[] w3| |] eqn:Hd;
      try discriminate.
    exact (discard_events_loop_never_stops fuel _ _ Hd).
  - intros Hc Hlen. rewrite main_manage_existing_eq.
    set (w2 := apply_xstep XRead
                 (after_call xcb_aux_sync (after_call xcb_grab_server w))).
    destruct (discard_events_loop_terminates Hc fuel w2) as [w3 Hw3].
    { subst w2. rewrite queue_xread, !queue_after_call_calm by exact Hc.
      exact Hlen. }
    rewrite Hw3. eexists _, _. split; [reflexivity|].
    rewrite !queue_after_call_calm by exact Hc.
    destruct (discard_events_loop_spec (trace w2) (queue w2) fuel w2 [] w3)
      as (Hq3 & _).
    + rewrite List.app_nil_r. reflexivity.
    + exists []. split; [|reflexivity].
      change (arrived []) with (@nil xcb_generic_event_t).
      rewrite List.app_nil_r. reflexivity.
    + exact Hw3.
    + rewrite Hq3. simpl. lia.
Qed.

(** The bring-up never ends the process, and it returns when no call
    makes new events arrive and the fuel exceeds the queued events. *)
Lemma goes_through_main_bring_up fuel opt root_screen xcb_fd :
  goes_through fuel (main_bring_up fuel opt root_screen xcb_fd).
Proof.
  unfold main_bring_up.
  apply goes_through_bind;
    [apply goes_through_steady, steady_main_restore_tree|intros _].
  apply goes_through_bind; [apply goes_through_steady, steady_call|intros _].
  apply goes_through_bind; [apply goes_through_steady, steady_gets|intros path].
  apply goes_through_bind; [apply goes_through_steady, steady_call|intros sock].
  apply goes_through_bind.
  { apply goes_through_steady.
    destruct (sock =? -1); [apply steady_log|apply steady_ev_io_start]. }
  intros _.
  apply goes_through_bind;
    [apply goes_through_steady, steady_main_socket_activation|intros _].
  apply goes_through_bind;
    [apply goes_through_steady, steady_main_restart_fd|intros _].
  apply goes_through_bind; [apply goes_through_steady, steady_call|intros _].
  apply goes_through_bind;
    [apply goes_through_steady, steady_main_start_xcb_watchers|intros _].
  apply goes_through_bind;
    [apply goes_through_main_manage_existing|intros _].
  apply goes_through_steady.
  apply steady_bind; [destruct (autostart opt); repeat steady_step|].
  intros _.
  apply steady_bind; [apply steady_main_setup_signals|intros _].
  apply steady_bind; [destruct (autostart opt); repeat steady_step|].
  intros _. apply steady_bind; [apply steady_call|intros _].
  unfold atexit. apply steady_modify; reflexivity.
Qed.

(** C5. With a layout path, the manager calls [tree_restore] on it; when
    the path is marked for deletion it then unlinks the file and removes
    the containing directory, whatever [tree_restore] answered and
    ignoring the outcome of both calls; when the restoration failed it
    then builds the default tree with [tree_init].  The step always
    returns, and nothing from there to the start of the event loop ends
    the process: the bring-up returns, so that the loop is entered. *)
Theorem C5_layout_restoration (path : string) (delete_layout_path : bool)
    (w : World) :
  (exists w',
     main_restore_tree (Some path) delete_layout_path w = Ret tt w' /\
     calls_since w w'
       (tree_restore path ::
        (if delete_layout_path
         then [unlink path; rmdir (dirname path)] else []) ++
        (if restore_succeeds path w then [] else [tree_init]))) /\
  (forall fuel opt root_screen xcb_fd s,
     main_bring_up fuel opt root_screen xcb_fd w <> Stop s) /\
  (calm -> forall fuel opt root_screen xcb_fd,
     (length (queue w) < fuel)%nat ->
     exists w', main_bring_up fuel opt root_screen xcb_fd w = Ret tt w').
Proof.
  split; [|split].
  - unfold main_restore_tree, restore_succeeds, bind. rewrite call_eq.
    set (restored := er_value (ext_call (tree_restore path) (ext w))).
    set (w1 := after_call (tree_restore path) w).
    pose proof (calls_since_call (tree_restore path) w) as H1. fold w1 in H1.
    destruct delete_layout_path.
    + rewrite !call_eq. cbn [ret].
      set (w2 := after_call (unlink path) w1).
      set (w3 := after_call (rmdir (dirname path)) w2).
      pose proof (calls_since_call (unlink path) w1) as H2. fold w2 in H2.
      pose proof (calls_since_call (rmdir (dirname path)) w2) as H3.
      fold w3 in H3.
      pose proof (calls_since_trans _ _ _ _ _ H1
                    (calls_since_trans _ _ _ _ _ H2 H3)) as H123.
      destruct (restored =? 0); cbn [negb].
      * rewrite call_eq. eexists. split; [reflexivity|].
        exact (calls_since_trans _ _ _ _ _ H123 (calls_since_call tree_init w3)).
      * eexists. split; [reflexivity|].
        exact (calls_since_trans _ _ _ _ _ H123 (calls_since_refl w3)).
    + cbn [ret]. destruct (restored =? 0); cbn [negb].
      * rewrite call_eq. eexists. split; [reflexivity|].
        exact (calls_since_trans _ _ _ _ _ H1 (calls_since_call tree_init w1)).
      * eexists. split; [reflexivity|].
        exact (calls_since_trans _ _ _ _ _ H1 (calls_since_refl w1)).
  - intros fuel opt root_screen xcb_fd s.
    apply (goes_through_main_bring_up fuel opt root_screen xcb_fd w).
  - intros Hc fuel opt root_screen xcb_fd Hlen.
    destruct (goes_through_main_bring_up fuel opt root_screen xcb_fd w)
      as [_ Hr].
    destruct (Hr Hc Hlen) as ([] & w' & Hw' & _). exists w'. exact Hw'.
Qed.

(** ** C6: the descriptor inherited from a restart *)

(** C6. When _I3_RESTART_FD is not set, or [parse_long] rejects its value
    (which is then logged), nothing is called and the step returns: no
    client is registered and no confirmation is sent.  When the value
    parses to a number other than -1 (as an [int]), the descriptor is
    handed to [ipc_new_client_on_fd] and the restart is confirmed at once
    to the client that call returned; the step returns then too.  A value
    that parses to -1 is skipped like an absent one. *)
Theorem C6_restart_descriptor (w : World) :
  (environ (proc w) !! "_I3_RESTART_FD" = None ->
   main_restart_fd w = Ret tt w) /\
  (forall s, environ (proc w) !! "_I3_RESTART_FD" = Some s ->
     parse_long s 10 = None ->
     main_restart_fd w = Ret tt (emit (Log (LogMalformedRestartFd s)) w)) /\
  (forall s v, environ (proc w) !! "_I3_RESTART_FD" = Some s ->
     parse_long s 10 = Some v -> int_of_long v <> -1 ->
     exists w',
       main_restart_fd w = Ret tt w' /\
       calls_since w w'
         [ipc_new_client_on_fd (int_of_long v);
          ipc_confirm_restart
            (er_value (ext_call (ipc_new_client_on_fd (int_of_long v))
                         (ext w)))]) /\
  (forall s v, environ (proc w) !! "_I3_RESTART_FD" = Some s ->
     parse_long s 10 = Some v -> int_of_long v = -1 ->
     main_restart_fd w = Ret tt w).
Proof.
  unfold main_restart_fd, parse_restart_fd, getenv, bind, gets.
  split; [|split; [|split]]; [| | |intros s v -> -> ->; reflexivity].
  - intros ->. reflexivity.
  - intros s -> ->. reflexivity.
  - intros s v -> -> Hv. cbn [ret].
    apply Z.eqb_neq in Hv. rewrite Hv. rewrite !call_eq.
    eexists. split; [reflexivity|].
    exact (calls_since_trans _ _ _ _ _
             (calls_since_call _ w) (calls_since_call _ _)).
Qed.

(** ** C7: depth, visual and colormap *)

Lemma ext_after_call c w : ext (after_call c w) = er_state (ext_call c (ext w)).
Proof.
  unfold after_call.
  destruct (apply_traffic_frame (er_traffic (ext_call c (ext w)))
              (set_ext (er_state (ext_call c (ext w))) (emit (Call c) w)))
    as (_ & _ & _ & H).
  rewrite H. reflexivity.
Qed.

Lemma glob_after_call c w : glob (after_call c w) = glob w.
Proof. apply after_call_frame. Qed.

Lemma main_setup_visual_found root_screen v w :
  xcb_aux_find_visual_by_attrs root_screen (-1) 32 = Some v ->
  main_setup_visual root_screen w =
  if colormap_error root_screen v w =? 0
  then Ret tt (after_colormap root_screen v w)
  else exit EXIT_FAILURE
         (emit (Log (LogColormapError (colormap_error root_screen v w)))
            (after_colormap root_screen v w)).
Proof.
  intros Hsome.
  unfold main_setup_visual, colormap_error, after_colormap, generated_colormap.
  unfold bind, modify, gets, log. cbn [glob upd_glob visual_type set_visual].
  rewrite Hsome. rewrite !call_eq. cbn [ext upd_glob].
  rewrite !ext_after_call. cbn [ext upd_glob]. rewrite !ext_after_call.
  cbn [ext upd_glob].
  destruct (er_value _ =? 0); reflexivity.
Qed.

Lemma find_visual_of_class_any vs v :
  find_visual_of_class (-1) vs = Some v -> In v vs.
Proof. destruct vs as [|v0 vs]; simpl; [discriminate|]. intros [= ->]. auto. Qed.

(** A visual found for depth 32 is listed under a depth of 32 bits. *)
Lemma find_visual_in_depths_32 ds v :
  find_visual_in_depths (-1) 32 ds = Some v ->
  exists d, In d ds /\ depth d = 32 /\ In v (visuals d).
Proof.
  induction ds as [|d ds IH]; simpl; [discriminate|].
  destruct (depth d =? 32) eqn:Hd; simpl.
  - destruct (find_visual_of_class (-1) (visuals d)) as [v0|] eqn:Hf.
    + intros [= ->]. exists d. apply Z.eqb_eq in Hd.
      apply find_visual_of_class_any in Hf. auto.
    + intros H. destruct (IH H) as (d' & H1 & H2). eauto.
  - intros H. destruct (IH H) as (d' & H1 & H2). eauto.
Qed.

(** C7 (as amended).  When the server lists no visual of depth 32, the
    root window's depth, visual and colormap are used and the step
    returns: this path cannot end the process.  When it lists one, that
    visual, its depth and a fresh colormap are taken; the step returns
    if the server creates the colormap, and if the server reports an
    error the error is logged and the process exits with EXIT_FAILURE:
    there is no fall-back from a failed colormap. *)
Theorem C7_colour_configuration (root_screen : xcb_screen_t) (w : World) :
  (xcb_aux_find_visual_by_attrs root_screen (-1) 32 = None ->
   exists w',
     main_setup_visual root_screen w = Ret tt w' /\
     root_depth (glob w') = scr_root_depth root_screen /\
     colormap (glob w') = scr_default_colormap root_screen /\
     visual_type (glob w') = Some (scr_root_visual root_screen) /\
     trace w' = trace w) /\
  (forall v, xcb_aux_find_visual_by_attrs root_screen (-1) 32 = Some v ->
     (exists d, In d (allowed_depths root_screen) /\ depth d = 32 /\
                In v (visuals d)) /\
     (colormap_error root_screen v w = 0 ->
      exists w',
        main_setup_visual root_screen w = Ret tt w' /\
        visual_type (glob w') = Some v /\
        root_depth (glob w') =
          xcb_aux_get_depth_of_visual root_screen (visual_id v) /\
        colormap (glob w') = generated_colormap w) /\
     (colormap_error root_screen v w <> 0 ->
      exists w',
        main_setup_visual root_screen w = Stop (Exited EXIT_FAILURE w') /\
        exists tr, trace w' = trace w ++ tr /\
          In (Log (LogColormapError (colormap_error root_screen v w))) tr)).
Proof.
  split.
  - intros Hnone. unfold main_setup_visual, bind, modify, gets. cbn.
    rewrite Hnone. cbn. eexists. split; [reflexivity|]. cbn. auto.
  - intros v Hsome. split; [apply find_visual_in_depths_32; exact Hsome|].
    rewrite (main_setup_visual_found root_screen v w Hsome). split.
    + intros ->. cbn [Z.eqb]. eexists. split; [reflexivity|].
      unfold after_colormap. rewrite !glob_after_call. cbn.
      rewrite !glob_after_call. cbn. auto.
    + intros Herr. apply Z.eqb_neq in Herr as Hb. rewrite Hb.
      set (err := colormap_error root_screen v w) in *.
      destruct (@exit_spec unit EXIT_FAILURE
                  (emit (Log (LogColormapError err))
                     (after_colormap root_screen v w)))
        as (w' & Hexit & [tr Htr]).
      exists w'. split; [exact Hexit|].
      assert (Hbefore : extends w (after_colormap root_screen v w)).
      { unfold after_colormap, extends.
        rewrite !after_call_trace. cbn [trace upd_glob].
        rewrite after_call_trace. cbn [trace upd_glob].
        rewrite <- !List.app_assoc. eexists. reflexivity. }
      destruct Hbefore as [tr0 Htr0].
      exists (tr0 ++ [Log (LogColormapError err)] ++ tr). split.
      * rewrite Htr. cbn [trace emit]. rewrite Htr0.
        rewrite <- !List.app_assoc. reflexivity.
      * apply List.in_or_app. right. left. reflexivity.
Qed.

(** ** Signals: C8, C9 and C10 *)

Lemma same_but_signals_refl w : same_but_signals w w.
Proof. unfold same_but_signals. auto 12. Qed.

Lemma same_but_signals_trans w1 w2 w3 :
  same_but_signals w1 w2 -> same_but_signals w2 w3 -> same_but_signals w1 w3.
Proof. unfold same_but_signals. intuition congruence. Qed.

Lemma sigaction_spec s d w :
  exists rc w',
    sigaction s d w = Ret rc w' /\ same_but_signals w w' /\
    main_loop w' = main_loop w /\
    (s <> SIGKILL -> rc = 0) /\
    (forall s', sigdisp (proc w') s' =
       if decide (s' = s /\ s <> SIGKILL) then d else sigdisp (proc w) s').
Proof.
  destruct s; cbn [sigaction]; unfold bind, modify, ret;
    eexists _, _; (split; [reflexivity|]);
    (split; [apply same_but_signals_refl || (unfold same_but_signals; cbn; auto 12)|]);
    (split; [reflexivity|]); (split; [intros; congruence || reflexivity|]);
    intros s'; cbn; unfold disp_update;
    repeat (destruct (decide _)); try reflexivity;
    try (exfalso; tauto); try (exfalso; intuition congruence).
Qed.

Lemma ev_signal_start_spec i s w :
  exists w',
    ev_signal_start i s w = Ret tt w' /\ same_but_signals w w' /\
    signal_watchers (main_loop w') = (i, s) :: signal_watchers (main_loop w) /\
    activecnt (main_loop w') = activecnt (main_loop w) + 1 /\
    (forall s', sigdisp (proc w') s' =
       if decide (s' = s /\ s <> SIGKILL /\
                  s ∉ map snd (signal_watchers (main_loop w)))
       then ev_action else sigdisp (proc w) s').
Proof.
  unfold ev_signal_start, bind at 1, gets. unfold bind at 1.
  destruct (decide (s ∈ map snd (signal_watchers (main_loop w)))) as [Hin|Hin].
  - unfold ret, bind, modify, ev_ref. eexists. split; [reflexivity|].
    split; [unfold same_but_signals; cbn; auto 12|]. cbn.
    split; [reflexivity|]. split; [reflexivity|]. intros s'.
    destruct (decide _) as [(_ & _ & H)|]; [contradiction|reflexivity].
  - unfold bind at 1.
    destruct (sigaction_spec s ev_action w) as (rc & w1 & H1 & S1 & L1 & _ & D1).
    fold ev_action. rewrite H1. unfold ret, bind, modify, ev_ref.
    eexists. split; [reflexivity|]. cbn. rewrite L1.
    split; [|split; [reflexivity|split; [reflexivity|]]].
    + unfold same_but_signals in *. cbn. rewrite L1. intuition.
    + intros s'. rewrite D1.
      destruct (decide (s' = s /\ s <> SIGKILL));
        destruct (decide (s' = s /\ s <> SIGKILL /\
                          s ∉ map snd (signal_watchers (main_loop w))));
        try reflexivity; exfalso; tauto.
Qed.

Lemma start_signal_watchers_spec ws : forall i w,
  exists w',
    start_signal_watchers i ws w = Ret tt w' /\ same_but_signals w w' /\
    signal_watchers (main_loop w') =
      rev (numbered i ws) ++ signal_watchers (main_loop w) /\
    activecnt (main_loop w') = activecnt (main_loop w) /\
    (forall s, sigdisp (proc w') s =
       if decide (s ∈ ws /\ s <> SIGKILL /\
                  s ∉ map snd (signal_watchers (main_loop w)))
       then ev_action else sigdisp (proc w) s).
Proof.
  induction ws as [|s0 ws IH]; intros i w.
  - exists w. split; [reflexivity|]. split; [apply same_but_signals_refl|].
    split; [reflexivity|]. split; [reflexivity|]. intros s.
    destruct (decide _) as [[H _]|]; [inversion H|reflexivity].
  - cbn [start_signal_watchers]. unfold bind at 1.
    destruct (ev_signal_start_spec i s0 w) as (w1 & H1 & S1 & W1 & A1 & D1).
    rewrite H1. unfold bind at 1, ev_unref, modify.
    set (w2 := upd_loop _ w1).
    assert (S2 : same_but_signals w w2).
    { unfold same_but_signals in *. subst w2. cbn. intuition. }
    assert (W2 : signal_watchers (main_loop w2) =
                 (i, s0) :: signal_watchers (main_loop w)) by exact W1.
    assert (A2 : activecnt (main_loop w2) = activecnt (main_loop w)).
    { subst w2. cbn. lia. }
    assert (D2 : forall s', sigdisp (proc w2) s' =
       if decide (s' = s0 /\ s0 <> SIGKILL /\
                  s0 ∉ map snd (signal_watchers (main_loop w)))
       then ev_action else sigdisp (proc w) s') by exact D1.
    clearbody w2.
    destruct (IH (S i) w2) as (w' & H' & S' & W' & A' & D').
    exists w'. split; [exact H'|].
    split; [exact (same_but_signals_trans _ _ _ S2 S')|].
    split; [|split; [congruence|]].
    + rewrite W', W2. cbn [numbered rev]. rewrite <- List.app_assoc.
      reflexivity.
    + intros s. rewrite D', D2, W2. cbn [map snd].
      repeat (destruct (decide _)); try reflexivity; exfalso;
        rewrite ?elem_of_cons, ?not_elem_of_cons in *;
        intuition congruence.
Qed.

Lemma sigaction_any_failed_spec d ss : forall w,
  SIGKILL ∉ ss ->
  exists w',
    sigaction_any_failed ss d w = Ret false w' /\ same_but_signals w w' /\
    main_loop w' = main_loop w /\
    (forall s, sigdisp (proc w') s =
       if decide (s ∈ ss) then d else sigdisp (proc w) s).
Proof.
  induction ss as [|s0 ss IH]; intros w Hk.
  - exists w. split; [reflexivity|]. split; [apply same_but_signals_refl|].
    split; [reflexivity|]. intros s.
    destruct (decide _) as [H|]; [inversion H|reflexivity].
  - apply not_elem_of_cons in Hk as [Hk0 Hk].
    cbn [sigaction_any_failed]. unfold bind at 1.
    destruct (sigaction_spec s0 d w) as (rc & w1 & H1 & S1 & L1 & R1 & D1).
    rewrite H1. rewrite (R1 (not_eq_sym Hk0)). cbn [Z.eqb].
    destruct (IH w1 Hk) as (w' & H' & S' & L' & D').
    exists w'. split; [exact H'|].
    split; [exact (same_but_signals_trans _ _ _ S1 S')|].
    split; [congruence|]. intros s. rewrite D', D1.
    repeat (destruct (decide _)); try reflexivity; exfalso;
      rewrite ?elem_of_cons, ?not_elem_of_cons in *;
      intuition congruence.
Qed.

Lemma pkeeps_ret {A} (a : A) : pkeeps (ret a).
Proof. apply triple_ret. auto. Qed.

Lemma pkeeps_bind {A B} (m : M A) (k : A -> M B) :
  pkeeps m -> (forall a, pkeeps (k a)) -> pkeeps (bind m k).
Proof. intros Hm Hk. eapply triple_bind; [exact Hm|exact Hk]. Qed.

Lemma pkeeps_gets {A} (f : World -> A) : pkeeps (gets f).
Proof. apply triple_gets. auto. Qed.

Lemma pkeeps_modify f :
  (forall w, proc (f w) = proc w) -> pkeeps (modify f).
Proof.
  intros Hf. apply triple_modify. intros w Hw. unfold pipe_safe.
  rewrite Hf. exact Hw.
Qed.

Lemma pkeeps_call c : pkeeps (call c).
Proof.
  intros w Hw. rewrite call_eq. unfold pipe_safe.
  destruct (after_call_frame c w) as (_ & Hp & _). rewrite Hp. exact Hw.
Qed.

Lemma pkeeps_out_of_fuel {A} : pkeeps (@out_of_fuel A).
Proof. intros w _. exact I. Qed.

Lemma pkeeps_sigaction s d : s <> SIGPIPE -> pkeeps (sigaction s d).
Proof.
  intros Hs w Hw.
  destruct (sigaction_spec s d w) as (rc & w' & H & _ & _ & _ & D).
  rewrite H. unfold pipe_safe. rewrite D.
  destruct (decide _) as [[He _]|]; [congruence|exact Hw].
Qed.

Ltac pkeeps_step :=
  first
    [ apply pkeeps_ret
    | apply pkeeps_call
    | apply pkeeps_gets
    | apply pkeeps_out_of_fuel
    | apply pkeeps_modify; reflexivity
    | apply pkeeps_bind; [|intros ?] ].

Lemma pkeeps_i3_exit : pkeeps i3_exit.
Proof.
  unfold i3_exit, log.
  apply pkeeps_bind; [apply pkeeps_gets|intros name].
  apply pkeeps_bind; [destruct (decide (name = "")); repeat pkeeps_step|].
  intros _. repeat pkeeps_step.
  destruct (4 <=? EV_VERSION_MAJOR); repeat pkeeps_step.
Qed.

Lemma pkeeps_run_exit_handlers hs : pkeeps (run_exit_handlers hs).
Proof.
  induction hs as [|[] hs IH]; simpl; [apply pkeeps_ret|].
  apply pkeeps_bind; [apply pkeeps_i3_exit|intros _; exact IH].
Qed.

Lemma pkeeps_exit {A} status : pkeeps (@exit A status).
Proof.
  intros w Hw. unfold exit.
  pose proof (pkeeps_run_exit_handlers (atexit_handlers (proc w)) w Hw) as H.
  destruct (run_exit_handlers (atexit_handlers (proc w)) w) as [[] w'|s|];
    simpl; [|exact H|exact I].
  split; [exact H|discriminate].
Qed.

Lemma pkeeps_deliver fuel : forall s, pkeeps (deliver fuel s).
Proof.
  induction fuel as [|fuel IH]; intros s; simpl; [apply pkeeps_out_of_fuel|].
  intros w Hw. unfold bind at 1, gets.
  destruct (sigdisp (proc w) s) as [| |h flags] eqn:Hd.
  - destruct (default_disposition s); simpl; auto.
    + split; [exact Hw|]. intros v [= -> _].
      unfold pipe_safe in Hw. congruence.
    + split; [exact Hw|]. intros v [= -> _].
      unfold pipe_safe in Hw. congruence.
  - exact Hw.
  - assert (Hs : s <> SIGPIPE).
    { intros ->. unfold pipe_safe in Hw. congruence. }
    revert w Hw Hd.
    change (forall w, pipe_safe w -> sigdisp (proc w) s = SIG_HANDLER h flags ->
      match
        ((if SA_RESETHAND flags then sigaction s SIG_DFL ;; ret tt else ret tt) ;;
         match h with
         | h_handle_core_signal =>
             handle_core_signal
               (fun sig => modify (emit (Raise sig)) ;; deliver fuel sig) s
         | h_ev_sighandler =>
             modify (upd_loop (fun l =>
               set_sig_pending (sig_pending l ++ [s]) l))
         end) w
      with
      | Ret _ w' => pipe_safe w'
      | Stop s0 => pipe_safe (stop_world s0) /\ forall v, s0 <> Killed SIGPIPE v
      | OutOfFuel => True
      end).
    intros w Hw _. revert w Hw.
    change (pkeeps
      ((if SA_RESETHAND flags then sigaction s SIG_DFL ;; ret tt else ret tt) ;;
       match h with
       | h_handle_core_signal =>
           handle_core_signal
             (fun sig => modify (emit (Raise sig)) ;; deliver fuel sig) s
       | h_ev_sighandler =>
           modify (upd_loop (fun l =>
             set_sig_pending (sig_pending l ++ [s]) l))
       end)).
    apply pkeeps_bind.
    { destruct (SA_RESETHAND flags); [|apply pkeeps_ret].
      apply pkeeps_bind; [apply pkeeps_sigaction; exact Hs|].
      intros; apply pkeeps_ret. }
    intros _. destruct h; [|apply pkeeps_modify; reflexivity].
    unfold handle_core_signal.
    apply pkeeps_bind; [apply pkeeps_gets|intros name].
    apply pkeeps_bind; [destruct (decide (name = "")); repeat pkeeps_step|].
    intros _. apply pkeeps_bind; [apply pkeeps_modify; reflexivity|].
    intros _. apply IH.
Qed.

Lemma pkeeps_deliver_all fuel ss : pkeeps (deliver_all fuel ss).
Proof.
  induction ss as [|s ss IH]; simpl; [apply pkeeps_ret|].
  apply pkeeps_bind; [apply pkeeps_deliver|intros _; exact IH].
Qed.

Lemma pkeeps_feed_all ws : pkeeps (feed_all ws).
Proof.
  induction ws as [|wt ws IH]; simpl; [apply pkeeps_ret|].
  apply pkeeps_bind; [|intros _; exact IH].
  unfold ev_feed_event. apply pkeeps_modify. reflexivity.
Qed.

Lemma pkeeps_xcb_poll_for_event : pkeeps xcb_poll_for_event.
Proof.
  intros w Hw.
  destruct (xcb_poll_for_event_spec w)
    as [[_ Hp]|(e & w1 & Hp & _ & _ & _ & _ & Hpr & _)]; rewrite Hp.
  - exact Hw.
  - unfold pipe_safe. rewrite Hpr. exact Hw.
Qed.

Lemma pkeeps_xcb_prepare_cb fuel : pkeeps (xcb_prepare_cb fuel).
Proof.
  unfold xcb_prepare_cb. apply pkeeps_bind.
  - induction fuel as [|fuel IH]; simpl; [apply pkeeps_out_of_fuel|].
    apply pkeeps_bind; [apply pkeeps_xcb_poll_for_event|intros [e|]];
      [|apply pkeeps_ret].
    destruct (response_type e =? 0).
    + apply pkeeps_bind; [apply pkeeps_call|intros ign].
      apply pkeeps_bind; [|intros _; exact IH].
      unfold log. destruct (ign =? 0); apply pkeeps_modify; reflexivity.
    + apply pkeeps_bind; [apply pkeeps_call|intros _; exact IH].
  - intros _. unfold xcb_flush_out.
    apply pkeeps_bind; [apply pkeeps_call|intros _; apply pkeeps_ret].
Qed.

Lemma pkeeps_invoke fuel wt : pkeeps (invoke fuel wt).
Proof.
  destruct wt as [|fd cb|i s]; simpl.
  - apply pkeeps_xcb_prepare_cb.
  - destruct cb; unfold xcb_got_event; repeat pkeeps_step.
  - apply pkeeps_exit.
Qed.

Lemma pkeeps_ev_invoke_pending fuel : pkeeps (ev_invoke_pending fuel).
Proof.
  induction fuel as [|fuel IH]; simpl; [apply pkeeps_out_of_fuel|].
  apply pkeeps_bind; [apply pkeeps_gets|intros [|wt rest]];
    [apply pkeeps_ret|].
  apply pkeeps_bind; [apply pkeeps_modify; reflexivity|intros _].
  apply pkeeps_bind; [apply pkeeps_invoke|intros _; exact IH].
Qed.

Lemma pkeeps_ev_loop fuel wks : pkeeps (ev_loop fuel wks).
Proof.
  unfold ev_loop.
  apply pkeeps_bind; [apply pkeeps_ev_invoke_pending|intros _].
  induction wks as [|wk wks IH]; rewrite ev_run_loop_unfold.
  - apply pkeeps_bind.
    { unfold prepare_phase. apply pkeeps_bind; [apply pkeeps_gets|intros []];
        [|apply pkeeps_ret].
      apply pkeeps_bind; [|intros _; apply pkeeps_ev_invoke_pending].
      unfold ev_feed_event. apply pkeeps_modify. reflexivity. }
    intros _. apply pkeeps_bind; [apply pkeeps_gets|intros cnt].
    destruct (cnt =? 0); [apply pkeeps_ev_invoke_pending|].
    apply pkeeps_bind; [apply pkeeps_modify; reflexivity|intros _].
    intros w Hw. split; [exact Hw|discriminate].
  - apply pkeeps_bind.
    { unfold prepare_phase. apply pkeeps_bind; [apply pkeeps_gets|intros []];
        [|apply pkeeps_ret].
      apply pkeeps_bind; [|intros _; apply pkeeps_ev_invoke_pending].
      unfold ev_feed_event. apply pkeeps_modify. reflexivity. }
    intros _. apply pkeeps_bind; [apply pkeeps_gets|intros cnt].
    destruct (cnt =? 0); [apply pkeeps_ev_invoke_pending|].
    apply pkeeps_bind; [apply pkeeps_modify; reflexivity|intros _].
    apply pkeeps_bind.
    { unfold wakeup_phase. apply pkeeps_bind.
      - intros w Hw. unfold modify, pipe_safe.
        destruct (apply_traffic_frame (map XArrive (wk_arrivals wk)) w)
          as (_ & Hp & _). rewrite Hp. exact Hw.
      - intros _. apply pkeeps_bind; [apply pkeeps_deliver_all|intros _].
        apply pkeeps_bind; [apply pkeeps_gets|intros l].
        apply pkeeps_bind; [apply pkeeps_feed_all|intros _].
        apply pkeeps_bind; [apply pkeeps_feed_all|intros _].
        apply pkeeps_modify. reflexivity. }
    intros _. apply pkeeps_bind; [apply pkeeps_ev_invoke_pending|intros _].
    apply pkeeps_bind; [apply pkeeps_gets|intros cnt'].
    destruct (cnt' =? 0); [apply pkeeps_ret|exact IH].
Qed.

Lemma main_setup_signals_spec dis w :
  exists w',
    main_setup_signals dis w = Ret tt w' /\
    glob w' = glob w /\
    signal_watchers (main_loop w') =
      rev (numbered 0 term_signal_watchers) ++ signal_watchers (main_loop w) /\
    activecnt (main_loop w') = activecnt (main_loop w) /\
    atexit_handlers (proc w') = atexit_handlers (proc w) /\
    (dis = true -> trace w' = trace w /\ ext w' = ext w /\ conn w' = conn w) /\
    sigdisp (proc w') SIGPIPE = SIG_IGN /\
    (forall s, s <> SIGPIPE -> s ∉ term_signal_watchers ->
       sigdisp (proc w') s =
       if dis && bool_decide (s ∈ core_signals)
       then core_action else sigdisp (proc w) s) /\
    (forall s, s ∈ term_signal_watchers ->
       s ∉ map snd (signal_watchers (main_loop w)) ->
       sigdisp (proc w') s = ev_action).
Proof.
  assert (Hgen : forall w0, exists w',
    (setup_term_handlers ;; signal SIGPIPE SIG_IGN) w0 = Ret tt w' /\
    same_but_signals w0 w' /\
    signal_watchers (main_loop w') =
      rev (numbered 0 term_signal_watchers) ++ signal_watchers (main_loop w0) /\
    activecnt (main_loop w') = activecnt (main_loop w0) /\
    sigdisp (proc w') SIGPIPE = SIG_IGN /\
    (forall s, s <> SIGPIPE -> s ∉ term_signal_watchers ->
       sigdisp (proc w') s = sigdisp (proc w0) s) /\
    (forall s, s ∈ term_signal_watchers ->
       s ∉ map snd (signal_watchers (main_loop w0)) ->
       sigdisp (proc w') s = ev_action)).
  { intros w0. unfold setup_term_handlers, signal, bind.
    destruct (start_signal_watchers_spec term_signal_watchers 0%nat w0)
      as (w2 & H2 & S2 & W2 & A2 & D2).
    rewrite H2.
    destruct (sigaction_spec SIGPIPE SIG_IGN w2)
      as (rc & w3 & H3 & S3 & L3 & _ & D3).
    rewrite H3. exists w3. split; [reflexivity|].
    split; [exact (same_but_signals_trans _ _ _ S2 S3)|].
    split; [congruence|]. split; [congruence|]. split; [|split].
    - rewrite D3. destruct (decide _) as [|Hn]; [reflexivity|].
      exfalso. apply Hn. split; [reflexivity|discriminate].
    - intros s Hs Ht. rewrite D3.
      destruct (decide _) as [[He _]|]; [contradiction|].
      rewrite D2. destruct (decide _) as [[Hin _]|]; [contradiction|reflexivity].
    - intros s Hs Hw. rewrite D3.
      destruct (decide _) as [[-> _]|].
      + exfalso. revert Hs. unfold term_signal_watchers.
        rewrite !elem_of_cons. intros H.
        repeat (destruct H as [H|H]; [discriminate|]). inversion H.
      + rewrite D2. destruct (decide _) as [|Hn]; [reflexivity|].
        exfalso. apply Hn. split; [exact Hs|]. split; [|exact Hw].
        intros ->. revert Hs. unfold term_signal_watchers.
        rewrite !elem_of_cons. intros H.
        repeat (destruct H as [H|H]; [discriminate|]). inversion H. }
  unfold main_setup_signals. unfold bind at 1. destruct dis; cbn [negb].
  - unfold bind at 1.
    destruct (sigaction_any_failed_spec core_action core_signals w)
      as (w1 & H1 & S1 & L1 & D1).
    { unfold core_signals. rewrite !not_elem_of_cons.
      repeat split; try discriminate. apply not_elem_of_nil. }
    rewrite H1. cbn [ret].
    destruct (Hgen w1) as (w' & H' & S' & W' & A' & P' & D' & E').
    exists w'. split; [exact H'|].
    unfold same_but_signals in S1, S'.
    split; [intuition congruence|]. split; [congruence|].
    split; [congruence|]. split; [intuition congruence|].
    split; [intros _; intuition congruence|]. split; [exact P'|]. split.
    + intros s Hs Ht. rewrite (D' s Hs Ht), D1. cbn [andb].
      destruct (decide (s ∈ core_signals)) as [Hin|Hin].
      * rewrite bool_decide_eq_true_2 by exact Hin. reflexivity.
      * rewrite bool_decide_eq_false_2 by exact Hin. reflexivity.
    + intros s Hs Hw. apply E'; [exact Hs|]. rewrite L1. exact Hw.
  - unfold bind at 1. rewrite call_eq. cbn [ret].
    destruct (after_call_frame setup_signal_handler w) as (F1 & F2 & F3).
    destruct (Hgen (after_call setup_signal_handler w))
      as (w' & H' & S' & W' & A' & P' & D' & E').
    exists w'. split; [exact H'|].
    unfold same_but_signals in S'.
    split; [intuition congruence|]. split; [congruence|].
    split; [congruence|]. split; [intuition congruence|].
    split; [discriminate|]. split; [exact P'|]. split.
    + intros s Hs Ht. rewrite (D' s Hs Ht), F2. reflexivity.
    + intros s Hs Hw. apply E'; [exact Hs|]. rewrite F1. exact Hw.
Qed.

Lemma deliver_ignored s w fuel :
  sigdisp (proc w) s = SIG_IGN -> deliver (S fuel) s w = Ret tt w.
Proof. intros H. simpl. unfold bind, gets. rewrite H. reflexivity. Qed.

Lemma deliver_default s w fuel :
  sigdisp (proc w) s = SIG_DFL -> default_disposition s <> Ign ->
  deliver (S fuel) s w = Stop (Killed s w).
Proof.
  intros H Hd. simpl. unfold bind, gets. rewrite H.
  destruct (default_disposition s); [reflexivity|reflexivity|contradiction].
Qed.

Lemma deliver_unfold fuel s :
  deliver (S fuel) s =
  (do d <- gets (fun w => sigdisp (proc w) s);
   match d with
   | SIG_IGN => ret tt
   | SIG_DFL =>
       match default_disposition s with
       | Ign => ret tt
       | Term | Core => fun w => Stop (Killed s w)
       end
   | SIG_HANDLER h flags =>
       (if SA_RESETHAND flags
        then sigaction s SIG_DFL ;; ret tt
        else ret tt) ;;
       match h with
       | h_ev_sighandler =>
           modify (upd_loop (fun l =>
             set_sig_pending (sig_pending l ++ [s]) l))
       | h_handle_core_signal =>
           handle_core_signal
             (fun sig => modify (emit (Raise sig)) ;; deliver fuel sig) s
       end
   end).
Proof. reflexivity. Qed.

(** What the kernel and [handle_core_signal] do with a signal that has
    the handler of main.c: the disposition is reset, the SHM log is
    unlinked if there is one, the signal is raised again and its default
    action, now in force, ends the process. *)
Lemma deliver_core sig w fuel :
  sigdisp (proc w) sig = core_action -> sig <> SIGKILL ->
  default_disposition sig <> Ign ->
  exists w2,
    deliver (S (S fuel)) sig w = Stop (Killed sig w2) /\
    sigdisp (proc w2) sig = SIG_DFL /\
    trace w2 =
      trace w ++
      (if decide (shmlogname (glob w) = "") then []
       else Call (shm_unlink (shmlogname (glob w))) ::
            map Arrive (brought (shm_unlink (shmlogname (glob w))) w)) ++
      [Raise sig].
Proof.
  intros Hd Hk Hdef. rewrite deliver_unfold. unfold bind at 1, gets.
  rewrite Hd.
  unfold core_action at 1. cbn [SA_RESETHAND]. unfold bind at 1.
  unfold bind at 1.
  destruct (sigaction_spec sig SIG_DFL w) as (rc & w1 & H1 & S1 & L1 & _ & D1).
  rewrite H1. cbn [ret]. unfold handle_core_signal, bind at 1, gets.
  assert (Hdfl : sigdisp (proc w1) sig = SIG_DFL).
  { rewrite D1. destruct (decide _) as [|Hn]; [reflexivity|]. tauto. }
  unfold same_but_signals in S1.
  destruct S1 as (Sx & Sc & Sg & St & _).
  rewrite Sg.
  destruct (decide (shmlogname (glob w) = "")) as [He|He].
  - unfold bind at 1. cbn [ret]. unfold bind at 1, modify.
    rewrite deliver_default; [|exact Hdfl|exact Hdef].
    eexists. split; [reflexivity|]. split; [exact Hdfl|].
    cbn. rewrite St. reflexivity.
  - unfold bind at 1. unfold bind at 1. rewrite call_eq. cbn [ret].
    unfold bind at 1, modify.
    set (c := shm_unlink (shmlogname (glob w))).
    destruct (after_call_frame c w1) as (_ & Fp & _).
    rewrite deliver_default; [|cbn; rewrite Fp; exact Hdfl|exact Hdef].
    eexists. split; [reflexivity|]. split; [cbn; rewrite Fp; exact Hdfl|].
    cbn. rewrite after_call_trace, St. unfold brought. rewrite Sx.
    rewrite <- List.app_assoc. reflexivity.
Qed.

Lemma i3_exit_spec w :
  exists w', i3_exit w = Ret tt w' /\ calls_since w w' (cleanup_calls w).
Proof.
  unfold i3_exit, cleanup_calls, bind at 1, gets. unfold bind at 1.
  assert (Hrest : forall v, glob v = glob w -> exists w',
    (call (ipc_shutdown SHUTDOWN_REASON_EXIT (-1)) ;;
     do path <- gets (fun w => ipc_socket_path (glob w));
     call (unlink path) ;;
     call xcb_disconnect ;;
     (if 4 <=? EV_VERSION_MAJOR then call ev_loop_destroy ;; ret tt
      else ret tt)) v = Ret tt w' /\
    calls_since v w'
      ([ipc_shutdown SHUTDOWN_REASON_EXIT (-1);
        unlink (ipc_socket_path (glob w)); xcb_disconnect] ++
       (if 4 <=? EV_VERSION_MAJOR then [ev_loop_destroy] else []))).
  { intros v Hg. unfold bind, gets. rewrite !call_eq.
    rewrite glob_after_call, Hg.
    set (v1 := after_call (ipc_shutdown SHUTDOWN_REASON_EXIT (-1)) v).
    set (v2 := after_call (unlink (ipc_socket_path (glob w))) v1).
    set (v3 := after_call xcb_disconnect v2).
    assert (H3 : calls_since v v3
              [ipc_shutdown SHUTDOWN_REASON_EXIT (-1);
               unlink (ipc_socket_path (glob w)); xcb_disconnect]).
    { apply (calls_since_trans v v1 v3 [_] [_; _]);
        [apply calls_since_call|].
      apply (calls_since_trans v1 v2 v3 [_] [_]); apply calls_since_call. }
    destruct (4 <=? EV_VERSION_MAJOR).
    - rewrite call_eq. eexists. split; [reflexivity|].
      apply (calls_since_trans v v3 _ _ [_]); [exact H3|].
      apply calls_since_call.
    - eexists. split; [reflexivity|].
      apply (calls_since_trans v v3 _ _ []); [exact H3|].
      apply calls_since_refl. }
  destruct (decide (shmlogname (glob w) = "")) as [He|He].
  - cbn [ret]. destruct (Hrest w eq_refl) as (w' & H & Hc).
    exists w'. split; [exact H|exact Hc].
  - unfold bind at 1, log, modify. unfold bind at 1. rewrite call_eq.
    cbn [ret].
    set (c := shm_unlink (shmlogname (glob w))).
    set (u := after_call c (emit (Log (LogClosingShm (shmlogname (glob w)))) w)).
    destruct (Hrest u) as (w' & H & Hc).
    { subst u. rewrite glob_after_call. reflexivity. }
    exists w'. split; [exact H|].
    apply (calls_since_trans w u w' [c]); [|exact Hc].
    apply (calls_since_trans w
             (emit (Log (LogClosingShm (shmlogname (glob w)))) w) u [] [c]);
      [apply calls_since_log|apply calls_since_call].
Qed.

(** A terminating signal that reaches its watcher ends the process with
    status 128 plus the signal number, after the cleanup of [i3_exit]. *)
Lemma handle_term_signal_spec s w :
  atexit_handlers (proc w) = [atexit_i3_exit] ->
  exists w',
    handle_term_signal s w = Stop (Exited (128 + signum s) w') /\
    calls_since w w' (cleanup_calls w).
Proof.
  intros Ha. unfold handle_term_signal, exit. rewrite Ha. simpl.
  unfold bind. destruct (i3_exit_spec w) as (w' & H & Hc). rewrite H.
  exists w'. auto.
Qed.

Lemma triple_top {A} (P : World -> Prop) (m : M A) :
  triple P m (fun _ _ => True) (fun _ => True).
Proof. intros w _. destruct (m w); exact I. Qed.

Lemma triple_of_pkeeps {A} (m : M A) :
  pkeeps m -> triple pipe_safe m (fun _ => pipe_safe) (fun _ => True).
Proof.
  intros H. eapply triple_conseq; [exact H| | |]; simpl; auto.
Qed.

(** At the end of the bring-up, that is when the loop is entered, SIGPIPE
    is ignored. *)
Lemma main_bring_up_pipe_safe fuel opt root_screen xcb_fd :
  triple (fun _ => True) (main_bring_up fuel opt root_screen xcb_fd)
    (fun _ => pipe_safe) (fun _ => True).
Proof.
  unfold main_bring_up.
  do 11 (eapply triple_bind with (Q := fun _ _ => True);
         [apply triple_top|intros ?]).
  eapply triple_bind with (Q := fun _ => pipe_safe).
  { intros w _.
    destruct (main_setup_signals_spec (disable_signalhandler opt) w)
      as (w' & H & _ & _ & _ & _ & _ & Hp & _).
    rewrite H. exact Hp. }
  intros _. apply triple_of_pkeeps.
  apply pkeeps_bind; [destruct (autostart opt); repeat pkeeps_step|intros _].
  apply pkeeps_bind; [apply pkeeps_call|intros _].
  unfold atexit. intros w Hw. exact Hw.
Qed.

(** C8 (the defect).  [setup_term_handlers] starts six watchers: one each
    for SIGHUP, SIGINT, SIGALRM and SIGTERM, two for SIGUSR1 and none for
    SIGUSR2.  The reference count of the loop is as before.  The
    disposition of SIGUSR2 is not touched, so that with the default
    disposition its delivery kills the process at once: no exit handler
    runs. *)
Theorem C8_term_handlers_SIGUSR1_twice_SIGUSR2_never (w : World) :
  signal_watchers (main_loop w) = [] ->
  exists w',
    setup_term_handlers w = Ret tt w' /\
    signal_watchers (main_loop w') =
      [(5, SIGUSR1); (4, SIGUSR1); (3, SIGTERM); (2, SIGALRM);
       (1, SIGINT); (0, SIGHUP)]%nat /\
    length (filter (fun p => snd p = SIGUSR1)
              (signal_watchers (main_loop w'))) = 2%nat /\
    length (filter (fun p => snd p = SIGUSR2)
              (signal_watchers (main_loop w'))) = 0%nat /\
    activecnt (main_loop w') = activecnt (main_loop w) /\
    sigdisp (proc w') SIGUSR2 = sigdisp (proc w) SIGUSR2 /\
    trace w' = trace w /\
    (sigdisp (proc w) SIGUSR2 = SIG_DFL ->
     forall fuel, deliver (S fuel) SIGUSR2 w' = Stop (Killed SIGUSR2 w')).
Proof.
  intros Hw. unfold setup_term_handlers.
  destruct (start_signal_watchers_spec term_signal_watchers 0%nat w)
    as (w' & H & S & W & A & D).
  exists w'. split; [exact H|]. rewrite W, Hw. cbn [term_signal_watchers].
  split; [reflexivity|]. split; [reflexivity|]. split; [reflexivity|].
  split; [exact A|].
  assert (HD : sigdisp (proc w') SIGUSR2 = sigdisp (proc w) SIGUSR2).
  { rewrite D. destruct (decide _) as [[Hin _]|]; [|reflexivity].
    exfalso. revert Hin. unfold term_signal_watchers.
    rewrite !elem_of_cons. intros Hin.
    repeat (destruct Hin as [Hin|Hin]; [discriminate|]). inversion Hin. }
  split; [exact HD|]. split; [apply S|].
  intros Hdfl fuel. apply deliver_default; [congruence|discriminate].
Qed.

(** What does work in [setup_term_handlers]: each of SIGHUP, SIGINT,
    SIGALRM, SIGTERM and SIGUSR1 gets libev's handler, its delivery is
    only noted for the loop, and the callback of its watcher ends the
    process through [exit], which runs the cleanup of [i3_exit]. *)
Lemma term_signal_is_handled_in_the_loop (s : signal_t) (w : World) :
  signal_watchers (main_loop w) = [] ->
  s ∈ term_signal_watchers ->
  exists w',
    setup_term_handlers w = Ret tt w' /\
    sigdisp (proc w') s = ev_action /\
    (forall fuel,
       deliver (S fuel) s w' =
       Ret tt (upd_loop (fun l => set_sig_pending (sig_pending l ++ [s]) l) w')) /\
    (exists i, (i, s) ∈ signal_watchers (main_loop w')) /\
    (forall fuel i v, atexit_handlers (proc v) = [atexit_i3_exit] ->
       exists v',
         invoke fuel (W_signal i s) v = Stop (Exited (128 + signum s) v') /\
         calls_since v v' (cleanup_calls v)).
Proof.
  intros Hw Hs. unfold setup_term_handlers.
  destruct (start_signal_watchers_spec term_signal_watchers 0%nat w)
    as (w' & H & S & W & A & D).
  exists w'. split; [exact H|].
  assert (Hk : s <> SIGKILL).
  { intros ->. revert Hs. unfold term_signal_watchers.
    rewrite !elem_of_cons. intros Hin.
    repeat (destruct Hin as [Hin|Hin]; [discriminate|]). inversion Hin. }
  assert (HD : sigdisp (proc w') s = ev_action).
  { rewrite D. destruct (decide _) as [|Hn]; [reflexivity|].
    exfalso. apply Hn. split; [exact Hs|]. split; [exact Hk|].
    rewrite Hw. apply not_elem_of_nil. }
  split; [exact HD|]. split; [|split].
  - intros fuel. rewrite deliver_unfold. unfold bind, gets. rewrite HD.
    reflexivity.
  - rewrite W, Hw. revert Hs. unfold term_signal_watchers.
    rewrite !elem_of_cons. cbn.
    intros Hin.
    repeat (destruct Hin as [->|Hin];
            [eexists; rewrite !elem_of_cons; eauto 10|]).
    inversion Hin.
  - intros fuel i v Ha. cbn [invoke]. apply handle_term_signal_spec. exact Ha.
Qed.

(** The term watchers and the ignoring of SIGPIPE leave every
    disposition as it was or set it to libev's handler or to [SIG_IGN]. *)
Lemma term_and_pipe_dispositions w0 :
  exists w',
    (setup_term_handlers ;; signal SIGPIPE SIG_IGN) w0 = Ret tt w' /\
    trace w' = trace w0 /\
    forall s, sigdisp (proc w') s = sigdisp (proc w0) s \/
              sigdisp (proc w') s = SIG_IGN \/
              sigdisp (proc w') s = ev_action.
Proof.
  unfold setup_term_handlers, signal, bind.
  destruct (start_signal_watchers_spec term_signal_watchers 0%nat w0)
    as (w2 & H2 & S2 & _ & _ & D2).
  rewrite H2.
  destruct (sigaction_spec SIGPIPE SIG_IGN w2)
    as (rc & w3 & H3 & S3 & _ & _ & D3).
  rewrite H3. exists w3. split; [reflexivity|].
  split; [unfold same_but_signals in S2, S3; intuition congruence|].
  intros s. rewrite D3. destruct (decide _); [auto|].
  rewrite D2. destruct (decide _); auto.
Qed.

(** C9 (as amended).  Only with the crash handler of sighandler.c
    disabled does [main] install [handle_core_signal]: it does so for
    SIGQUIT, SIGILL, SIGABRT, SIGFPE and SIGSEGV, with SA_NODEFER,
    SA_RESETHAND and SA_SIGINFO.  When one of them is delivered, the
    handler unlinks the SHM log if there is one and raises the signal
    again, and nothing else; the disposition has been reset to the
    default, which is to dump core, so the process is killed by that very
    signal.  With the crash handler enabled, [main] calls
    [setup_signal_handler] and gives [handle_core_signal] to no signal:
    a signal that has it afterwards had it before. *)
Theorem C9_core_signal_handler (disable_signalhandler : bool) (w : World) :
  exists w1,
    main_setup_signals disable_signalhandler w = Ret tt w1 /\
    (disable_signalhandler = true ->
     forall sig, In sig [SIGQUIT; SIGILL; SIGABRT; SIGFPE; SIGSEGV] ->
       sigdisp (proc w1) sig =
         SIG_HANDLER h_handle_core_signal
           {| SA_NODEFER := true; SA_RESETHAND := true;
              SA_SIGINFO := true |} /\
       default_disposition sig = Core /\
       forall fuel, exists w2,
         deliver (S (S fuel)) sig w1 = Stop (Killed sig w2) /\
         sigdisp (proc w2) sig = SIG_DFL /\
         trace w2 =
           trace w1 ++
           (if decide (shmlogname (glob w1) = "") then []
            else Call (shm_unlink (shmlogname (glob w1))) ::
                 map Arrive
                   (brought (shm_unlink (shmlogname (glob w1))) w1)) ++
           [Raise sig]) /\
    (disable_signalhandler = false ->
     calls_since w w1 [setup_signal_handler] /\
     forall sig flags,
       sigdisp (proc w1) sig = SIG_HANDLER h_handle_core_signal flags ->
       sigdisp (proc w) sig = SIG_HANDLER h_handle_core_signal flags).
Proof.
  destruct (main_setup_signals_spec disable_signalhandler w)
    as (w1 & H & _ & _ & _ & _ & _ & _ & D & _).
  exists w1. split; [exact H|]. split.
  - intros -> sig Hin.
    assert (Hfacts : sig <> SIGPIPE /\ (sig ∉ term_signal_watchers) /\
                     (sig ∈ core_signals) /\ sig <> SIGKILL /\
                     default_disposition sig = Core).
    { simpl in Hin. unfold term_signal_watchers, core_signals.
      repeat (destruct Hin as [<-|Hin];
              [rewrite !not_elem_of_cons, !elem_of_cons;
               repeat split; try discriminate;
               auto 10 using not_elem_of_nil|]).
      contradiction. }
    destruct Hfacts as (H1 & H2 & H3 & H4 & H5).
    assert (HD : sigdisp (proc w1) sig = core_action).
    { rewrite (D sig H1 H2). cbn [andb].
      rewrite bool_decide_eq_true_2 by exact H3. reflexivity. }
    split; [exact HD|]. split; [exact H5|].
    intros fuel. apply deliver_core; [exact HD|exact H4|].
    rewrite H5. discriminate.
  - intros ->. revert H. unfold main_setup_signals. unfold bind at 1.
    cbn [negb]. unfold bind at 1. rewrite call_eq. cbn [ret].
    destruct (term_and_pipe_dispositions (after_call setup_signal_handler w))
      as (w' & H' & T' & D').
    rewrite H'. intros [= <-]. split.
    + destruct (calls_since_call setup_signal_handler w) as (tr & Htr & Hc).
      exists tr. split; [congruence|exact Hc].
    + intros sig flags Hsig.
      destruct (after_call_frame setup_signal_handler w) as (_ & Fp & _).
      rewrite <- Fp.
      destruct (D' sig) as [Heq|[Heq|Heq]];
        [congruence| |]; rewrite Heq in Hsig; discriminate.
Qed.

(** C10.  The signal set-up of [main] ends with SIGPIPE ignored, whatever
    the command line says, and so does the whole bring-up: the loop is
    entered with SIGPIPE ignored.  In such a state a write to a peer that
    has hung up just fails; and however the loop runs and ends, SIGPIPE
    stays ignored and never is what kills the process. *)
Theorem C10_SIGPIPE_is_ignored (w : World) :
  (forall disable_signalhandler, exists w1,
     main_setup_signals disable_signalhandler w = Ret tt w1 /\
     sigdisp (proc w1) SIGPIPE = SIG_IGN) /\
  (forall fuel opt root_screen xcb_fd w',
     main_bring_up fuel opt root_screen xcb_fd w = Ret tt w' ->
     sigdisp (proc w') SIGPIPE = SIG_IGN) /\
  (sigdisp (proc w) SIGPIPE = SIG_IGN ->
   (forall fuel, write_to_closed_peer (S fuel) w = Ret (-1) w) /\
   (forall fuel wks v, ev_loop fuel wks w <> Stop (Killed SIGPIPE v)) /\
   (forall fuel wks w', final_world (ev_loop fuel wks w) = Some w' ->
      sigdisp (proc w') SIGPIPE = SIG_IGN)).
Proof.
  split; [|split].
  - intros dis.
    destruct (main_setup_signals_spec dis w)
      as (w1 & H & _ & _ & _ & _ & _ & Hp & _).
    exists w1. auto.
  - intros fuel opt root_screen xcb_fd w' Hrun.
    pose proof (main_bring_up_pipe_safe fuel opt root_screen xcb_fd w I) as H.
    rewrite Hrun in H. exact H.
  - intros Hp. split; [|split].
    + intros fuel. unfold write_to_closed_peer, bind.
      rewrite deliver_ignored by exact Hp. reflexivity.
    + intros fuel wks v Hrun.
      pose proof (pkeeps_ev_loop fuel wks w Hp) as H. rewrite Hrun in H.
      destruct H as [_ H]. exact (H v eq_refl).
    + intros fuel wks w' Hf.
      pose proof (pkeeps_ev_loop fuel wks w Hp) as H.
      destruct (ev_loop fuel wks w) as [[] v|s|]; simpl in Hf;
        try discriminate; injection Hf as <-; [exact H|exact (proj1 H)].
Qed.

(** ** Further properties: the exit handler *)

Lemma same_inside_refl w : same_inside w w.
Proof. repeat split. Qed.

Lemma same_inside_trans w1 w2 w3 :
  same_inside w1 w2 -> same_inside w2 w3 -> same_inside w1 w3.
Proof.
  intros (Hl & Hp & Hg) (Hl' & Hp' & Hg').
  repeat split; congruence.
Qed.

Lemma same_inside_after_call c w : same_inside w (after_call c w).
Proof. exact (after_call_frame c w). Qed.

Lemma same_inside_emit a w : same_inside w (emit a w).
Proof. repeat split. Qed.

(** X1.  [i3_exit] always returns.  It removes the SHM log exactly when
    one is named, then shuts the IPC down, unlinks the IPC socket path,
    disconnects from X and, with libev 4 or later, destroys the loop: these
    calls, in this order, and no other. *)
Theorem i3_exit_cleanup_sequence (w : World) :
  exists w',
    i3_exit w = Ret tt w' /\
    calls_since w w'
      ((if decide (shmlogname (glob w) = "") then []
        else [shm_unlink (shmlogname (glob w))]) ++
       [ipc_shutdown SHUTDOWN_REASON_EXIT (-1);
        unlink (ipc_socket_path (glob w));
        xcb_disconnect] ++
       (if 4 <=? EV_VERSION_MAJOR then [ev_loop_destroy] else [])).
Proof.
  destruct (i3_exit_spec w) as (w' & Hrun & Hcalls).
  exists w'. split; [exact Hrun|exact Hcalls].
Qed.

(** ** Further properties: the toggle *)

Lemma filter_not_prepare_idem (p : list watcher) :
  filter (fun x => x ≠ W_xcb_prepare) (filter (fun x => x ≠ W_xcb_prepare) p) =
  filter (fun x => x ≠ W_xcb_prepare) p.
Proof.
  induction p as [|x p IH]; [reflexivity|].
  rewrite filter_cons. destruct (decide (x ≠ W_xcb_prepare)) as [Hx|Hx].
  - rewrite filter_cons. destruct (decide (x ≠ W_xcb_prepare)); [|contradiction].
    rewrite IH. reflexivity.
  - exact IH.
Qed.

Lemma prepare_not_in_filter (p : list watcher) :
  W_xcb_prepare ∉ filter (fun x => x ≠ W_xcb_prepare) p.
Proof. intros H. apply list_elem_of_filter in H. destruct H as [H _]. congruence. Qed.

Lemma filter_cons_prepare (p : list watcher) :
  filter (fun x => x ≠ W_xcb_prepare) (W_xcb_prepare :: p) =
  filter (fun x => x ≠ W_xcb_prepare) p.
Proof.
  rewrite filter_cons. destruct (decide (W_xcb_prepare ≠ W_xcb_prepare)); [congruence|reflexivity].
Qed.

(** X2.  The toggle composes as a switch should.  Enabling twice is
    enabling once, and disabling twice is disabling once.  Disabling and
    enabling again leaves the drain started and pending on top, and
    enabling and disabling again leaves it stopped and not pending; in
    both cases the reference count of the loop ends where a single call
    would have left it, so that a modal handler that brackets its work
    with the two calls cannot leak or lose a reference. *)
Theorem main_set_x11_cb_composes (w : World) :
  (main_set_x11_cb true ;; main_set_x11_cb true) w = main_set_x11_cb true w /\
  (main_set_x11_cb false ;; main_set_x11_cb false) w =
    main_set_x11_cb false w /\
  (exists w',
     (main_set_x11_cb false ;; main_set_x11_cb true) w = Ret tt w' /\
     prepare_active (main_loop w') = true /\
     pending (main_loop w') =
       W_xcb_prepare ::
       filter (fun p => p ≠ W_xcb_prepare) (pending (main_loop w)) /\
     activecnt (main_loop w') =
       activecnt (main_loop w) +
       (if prepare_active (main_loop w) then 0 else 1)) /\
  (exists w',
     (main_set_x11_cb true ;; main_set_x11_cb false) w = Ret tt w' /\
     prepare_active (main_loop w') = false /\
     pending (main_loop w') =
       filter (fun p => p ≠ W_xcb_prepare) (pending (main_loop w)) /\
     activecnt (main_loop w') =
       activecnt (main_loop w) -
       (if prepare_active (main_loop w) then 1 else 0)).
Proof.
  destruct w as [x c [io act pend cnt sw sp] p g t].
  assert (Hfresh : forall q : list watcher,
            W_xcb_prepare ∉ filter (fun x => x ≠ W_xcb_prepare) q)
    by exact prepare_not_in_filter.
  unfold main_set_x11_cb, ev_prepare_start, ev_prepare_stop, clear_pending,
    ev_feed_event, ev_ref, ev_unref, bind, gets, modify, ret, upd_loop.
  split; [|split; [|split]].
  - destruct act; simpl; destruct (decide (W_xcb_prepare ∈ pend)); simpl;
      repeat (destruct (decide _); simpl); try reflexivity;
      exfalso; set_solver.
  - destruct act; simpl; rewrite ?filter_not_prepare_idem; reflexivity.
  - destruct act; simpl;
      (destruct (decide _) as [Hin|_]; [exfalso; exact (Hfresh _ Hin)|]);
      eexists; (split; [reflexivity|]); simpl; repeat split; lia.
  - destruct act; simpl; destruct (decide (W_xcb_prepare ∈ pend)); simpl;
      eexists; (split; [reflexivity|]); simpl;
      rewrite ?filter_cons_prepare; repeat split; lia.
Qed.

(** ** Further properties: what the drain hands to the handlers *)

Lemma In_calls c tr : In (Call c) tr -> In c (calls tr).
Proof.
  induction tr as [|a tr IH]; [intros []|].
  intros [->|Hin].
  - left. reflexivity.
  - unfold calls in *. cbn [omap list_omap]. destruct (called a); [right|]; auto.
Qed.

Lemma land_127_bounds z : 0 <= Z.land z 127 < 128.
Proof.
  change 127 with (Z.ones 7). rewrite Z.land_ones by lia.
  apply Z.mod_pos_bound. reflexivity.
Qed.

Lemma drained_call_origin c tr q :
  In (Call c) tr -> is_drain_call c = true ->
  processed tr = map drain_call q ->
  exists e, In e q /\ drain_call e = c.
Proof.
  intros Hin Hd Hp.
  assert (Hc : In c (processed tr)).
  { unfold processed. apply List.filter_In. split; [apply In_calls; exact Hin|exact Hd]. }
  rewrite Hp in Hc. apply List.in_map_iff in Hc.
  destruct Hc as (e & He & Hq). exists e. split; assumption.
Qed.

(** X3.  What one run of the drain hands on.  [handle_event] is called
    only for events that are not error packets, with the event as it was
    read and its response type without the sent-by-client bit, so a number
    from 0 to 127.  [event_is_ignored] is asked only about error packets,
    by their sequence number and with response type 0.  Both only ever
    concern events that were queued or arrived during the run. *)
Theorem xcb_prepare_cb_dispatch_arguments (fuel : nat) (w w1 : World) :
  xcb_prepare_cb fuel w = Ret tt w1 ->
  exists tr,
    trace w1 = trace w ++ tr /\
    (forall type event, In (Call (handle_event type event)) tr ->
       response_type event <> 0 /\
       type = Z.land (response_type event) 127 /\
       0 <= type < 128 /\
       In event (queue w ++ arrived tr)) /\
    (forall seq rtype, In (Call (event_is_ignored seq rtype)) tr ->
       rtype = 0 /\
       exists event,
         In event (queue w ++ arrived tr) /\
         response_type event = 0 /\ sequence event = seq).
Proof.
  intros Hrun.
  destruct (xcb_prepare_cb_drains fuel w w1 Hrun)
    as (_ & tr & es & Htr & Hp & _).
  exists (tr ++ Call xcb_flush :: map Arrive es).
  assert (Harr : forall e, In e (queue w ++ arrived tr) ->
            In e (queue w ++
                  arrived (tr ++ Call xcb_flush :: map Arrive es))).
  { intros e He. rewrite arrived_app, List.app_assoc.
    apply List.in_or_app. left. exact He. }
  assert (Hold : forall c, is_drain_call c = true ->
            In (Call c) (tr ++ Call xcb_flush :: map Arrive es) ->
            In (Call c) tr).
  { intros c Hd Hin. apply List.in_app_or in Hin.
    destruct Hin as [Hin|[Heq|Hin]]; [exact Hin| |].
    - injection Heq as <-. discriminate Hd.
    - apply List.in_map_iff in Hin. destruct Hin as (e & He & _).
      discriminate He. }
  split; [exact Htr|]. split.
  - intros type event Hin. apply Hold in Hin; [|reflexivity].
    destruct (drained_call_origin _ _ _ Hin eq_refl Hp) as (e & He & Hd).
    unfold drain_call in Hd.
    destruct (response_type e =? 0) eqn:Hrt; [discriminate Hd|].
    injection Hd as <- <-.
    apply Z.eqb_neq in Hrt.
    split; [exact Hrt|]. split; [reflexivity|].
    split; [apply land_127_bounds | apply Harr; exact He].
  - intros seq rtype Hin. apply Hold in Hin; [|reflexivity].
    destruct (drained_call_origin _ _ _ Hin eq_refl Hp) as (e & He & Hd).
    unfold drain_call in Hd.
    destruct (response_type e =? 0) eqn:Hrt; [|discriminate Hd].
    injection Hd as <- <-.
    apply Z.eqb_eq in Hrt.
    split; [reflexivity|]. exists e.
    split; [apply Harr; exact He|]. split; [exact Hrt|reflexivity].
Qed.

(** ** Further properties: socket activation *)

Lemma listen_on_activation_fd_accounting fd w :
  exists w2 tr,
    listen_on_activation_fd fd w = Ret tt w2 /\
    activecnt (main_loop w2) = activecnt (main_loop w) + 1 /\
    length (io_watchers (main_loop w2)) =
      S (length (io_watchers (main_loop w))) /\
    trace w2 = trace w ++ tr /\ calls tr = [] /\
    (fdflags (proc w) !! fd = None -> In (Log (LogCloexecError fd)) tr).
Proof.
  unfold listen_on_activation_fd, bind, log, modify, fcntl_F_GETFD, gets,
    fcntl_F_SETFD, ev_io_start, ev_ref, ret.
  cbn [proc emit].
  destruct (fdflags (proc w) !! fd) as [flags|] eqn:Hfd.
  - destruct (flags <? 0) eqn:Hneg.
    + eexists. exists [Log (LogAlsoListening fd); Log (LogCloexecError fd)].
      split; [reflexivity|]. cbn. rewrite <- List.app_assoc.
      repeat split; try reflexivity. discriminate.
    + change (proc (emit (Log (LogAlsoListening fd)) w)) with (proc w).
      rewrite Hfd. cbn.
      eexists. exists [Log (LogAlsoListening fd)].
      split; [reflexivity|]. cbn.
      repeat split; try reflexivity. discriminate.
  - cbn. eexists. exists [Log (LogAlsoListening fd); Log (LogCloexecError fd)].
    split; [reflexivity|]. cbn. rewrite <- List.app_assoc.
    repeat split; try reflexivity. intros _. right. left. reflexivity.
Qed.

Lemma listen_on_activation_fds_accounting n : forall fd w,
  exists w' tr,
    listen_on_activation_fds n fd w = Ret tt w' /\
    activecnt (main_loop w') = activecnt (main_loop w) + Z.of_nat n /\
    length (io_watchers (main_loop w')) =
      (length (io_watchers (main_loop w)) + n)%nat /\
    trace w' = trace w ++ tr /\ calls tr = [] /\
    (forall d, fd <= d < fd + Z.of_nat n ->
       fdflags (proc w) !! d = None -> In (Log (LogCloexecError d)) tr).
Proof.
  induction n as [|n IH]; intros fd w.
  - exists w, []. split; [reflexivity|]. rewrite List.app_nil_r.
    repeat split; try reflexivity; lia.
  - cbn [listen_on_activation_fds]. unfold bind at 1.
    destruct (listen_on_activation_fd_accounting fd w)
      as (w2 & tr2 & Heq & Hcnt & Hlen & Htr & Hcalls & Hlog).
    destruct (listen_on_activation_fd_spec fd w)
      as (w2' & Heq' & _ & _ & Hnone).
    rewrite Heq in Heq'. injection Heq' as <-.
    rewrite Heq.
    destruct (IH (fd + 1) w2)
      as (w' & tr & Hrun & Hcnt' & Hlen' & Htr' & Hcalls' & Hlog').
    exists w', (tr2 ++ tr). split; [exact Hrun|].
    split; [lia|]. split; [lia|].
    split; [rewrite Htr', Htr, List.app_assoc; reflexivity|].
    split; [rewrite calls_app, Hcalls, Hcalls'; reflexivity|].
    intros d Hd Hclosed. apply List.in_or_app.
    destruct (decide (d = fd)) as [->|Hne].
    + left. apply Hlog. exact Hclosed.
    + right. apply Hlog'; [lia|]. apply Hnone. exact Hclosed.
Qed.

(** X4.  Socket activation, counted.  [sd_listen_fds] is called once, with
    argument 0 (the supervisor's environment variables are left in
    place), and its answer is kept in [listen_fds].  Each descriptor of a
    positive count starts one watcher that holds one reference on the
    loop.  A descriptor of the range that is not open costs an error line
    and nothing else: its watcher is started all the same and no descriptor
    is created for it. *)
Theorem main_socket_activation_accounting (w : World) :
  exists w' tr,
    main_socket_activation w = Ret tt w' /\
    trace w' = trace w ++ tr /\
    calls tr = [sd_listen_fds 0] /\
    listen_fds (glob w') = activation_count w /\
    activecnt (main_loop w') =
      activecnt (main_loop w) + Z.max 0 (activation_count w) /\
    length (io_watchers (main_loop w')) =
      (length (io_watchers (main_loop w)) +
       Z.to_nat (activation_count w))%nat /\
    (forall fd,
       SD_LISTEN_FDS_START <= fd < SD_LISTEN_FDS_START + activation_count w ->
       fdflags (proc w) !! fd = None ->
       In (Log (LogCloexecError fd)) tr /\
       fdflags (proc w') !! fd = None /\
       (fd, cb_ipc_new_client) ∈ io_watchers (main_loop w')).
Proof.
  unfold main_socket_activation, activation_count. unfold bind at 1.
  rewrite call_eq. unfold bind at 1, modify.
  set (n := er_value (ext_call (sd_listen_fds 0) (ext w))).
  set (w1 := upd_glob (set_listen_fds n) (after_call (sd_listen_fds 0) w)).
  destruct (after_call_frame (sd_listen_fds 0) w) as (Hl & Hp & _).
  assert (Hl1 : main_loop w1 = main_loop w) by exact Hl.
  assert (Hp1 : proc w1 = proc w) by exact Hp.
  assert (Ht1 : trace w1 =
            trace w ++ Call (sd_listen_fds 0) ::
              map Arrive (brought (sd_listen_fds 0) w))
    by apply after_call_trace.
  assert (Hc1 : forall l, calls (Call (sd_listen_fds 0) ::
              map Arrive l) = [sd_listen_fds 0]).
  { intros l. unfold calls. cbn. f_equal.
    induction l as [|e l IHl]; [reflexivity|exact IHl]. }
  assert (Hg1 : listen_fds (glob w1) = n) by reflexivity.
  destruct (n <? 0) eqn:Hneg; [|destruct (n =? 0) eqn:Hzero].
  - apply Z.ltb_lt in Hneg.
    eexists. exists (Call (sd_listen_fds 0) ::
              map Arrive (brought (sd_listen_fds 0) w) ++
              [Log LogSdListenFdsError]).
    split; [reflexivity|].
    split; [cbn [trace emit]; rewrite Ht1, <- List.app_assoc; reflexivity|].
    split.
    { change (Call (sd_listen_fds 0) ::
              map Arrive (brought (sd_listen_fds 0) w) ++
              [Log LogSdListenFdsError])
        with ((Call (sd_listen_fds 0) ::
              map Arrive (brought (sd_listen_fds 0) w)) ++
              [Log LogSdListenFdsError]).
      rewrite calls_app, Hc1. reflexivity. }
    split; [exact Hg1|]. cbn [main_loop emit]. rewrite Hl1.
    split; [lia|]. split; [lia|].
    intros fd Hfd. lia.
  - apply Z.eqb_eq in Hzero.
    eexists. exists (Call (sd_listen_fds 0) ::
              map Arrive (brought (sd_listen_fds 0) w) ++
              [Log LogNoSocketsPassed]).
    split; [reflexivity|].
    split; [cbn [trace emit]; rewrite Ht1, <- List.app_assoc; reflexivity|].
    split.
    { change (Call (sd_listen_fds 0) ::
              map Arrive (brought (sd_listen_fds 0) w) ++
              [Log LogNoSocketsPassed])
        with ((Call (sd_listen_fds 0) ::
              map Arrive (brought (sd_listen_fds 0) w)) ++
              [Log LogNoSocketsPassed]).
      rewrite calls_app, Hc1. reflexivity. }
    split; [exact Hg1|]. cbn [main_loop emit]. rewrite Hl1, Hzero.
    split; [lia|]. split; [simpl; lia|].
    intros fd Hfd. lia.
  - apply Z.ltb_ge in Hneg. apply Z.eqb_neq in Hzero.
    destruct (listen_on_activation_fds_accounting (Z.to_nat n)
                SD_LISTEN_FDS_START w1)
      as (w' & tr & Hrun & Hcnt & Hlen & Htr & Hcalls & Hlog).
    destruct (listen_on_activation_fds_spec (Z.to_nat n)
                SD_LISTEN_FDS_START w1)
      as (w'' & Hrun' & Hin & _ & _ & _ & Hnone).
    rewrite Hrun in Hrun'. injection Hrun' as <-.
    exists w', ((Call (sd_listen_fds 0) ::
              map Arrive (brought (sd_listen_fds 0) w)) ++ tr).
    split; [exact Hrun|].
    split; [rewrite Htr, Ht1, <- List.app_assoc; reflexivity|].
    split; [rewrite calls_app, Hc1, Hcalls; reflexivity|].
    assert (Hg : glob w' = glob w1).
    { clear - Hrun. revert Hrun. generalize SD_LISTEN_FDS_START as fd.
      generalize w1 as v. induction (Z.to_nat n) as [|k IHk]; intros v fd.
      - intros [= <-]. reflexivity.
      - cbn [listen_on_activation_fds]. unfold bind at 1.
        destruct (listen_on_activation_fd fd v) as [[] v2| |] eqn:Hfd;
          try discriminate.
        intros Hrest. rewrite (IHk _ _ Hrest).
        revert Hfd.
        unfold listen_on_activation_fd, bind, log, modify, fcntl_F_GETFD,
          gets, fcntl_F_SETFD, ev_io_start, ev_ref, ret.
        cbn [proc emit].
        destruct (fdflags (proc v) !! fd) as [flags|];
          [destruct (flags <? 0)|]; cbn;
          try (destruct (fdflags (proc v) !! fd)); cbn;
          intros [= <-]; reflexivity. }
    split; [rewrite Hg; exact Hg1|].
    rewrite Hl1 in Hcnt, Hlen. rewrite Z2Nat.id in Hcnt, Hlog, Hin by lia.
    split; [lia|]. split; [exact Hlen|].
    intros fd Hfd Hclosed. rewrite <- Hp1 in Hclosed.
    split; [apply List.in_or_app; right; apply Hlog; assumption|].
    split; [apply Hnone; exact Hclosed | apply Hin; exact Hfd].
Qed.

(** ** Further properties: what the bring-up leaves in the loop *)

Lemma relates_bind (R : World -> World -> Prop) {A B} (m : M A)
    (k : A -> M B) :
  (forall w1 w2 w3, R w1 w2 -> R w2 w3 -> R w1 w3) ->
  relates R m -> (forall a, relates R (k a)) -> relates R (bind m k).
Proof.
  intros Htrans Hm Hk w. unfold bind. specialize (Hm w).
  destruct (m w) as [a w1| |]; [|exact I|exact I].
  specialize (Hk a w1). destruct (k a w1); [|exact I|exact I].
  eapply Htrans; eassumption.
Qed.

Lemma relates_weaken (R R' : World -> World -> Prop) {A} (m : M A) :
  (forall w w', R w w' -> R' w w') -> relates R m -> relates R' m.
Proof.
  intros Hsub Hm w. specialize (Hm w). destruct (m w); [|exact I|exact I].
  apply Hsub. exact Hm.
Qed.

Lemma relates_run (R : World -> World -> Prop) {A} (m : M A) w a w' :
  relates R m -> m w = Ret a w' -> R w w'.
Proof. intros Hm Hrun. specialize (Hm w). rewrite Hrun in Hm. exact Hm. Qed.

Lemma bind_ret_inv {A B} (m : M A) (k : A -> M B) w b w' :
  bind m k w = Ret b w' ->
  exists a w1, m w = Ret a w1 /\ k a w1 = Ret b w'.
Proof.
  unfold bind. destruct (m w) as [a w1| |]; try discriminate.
  intros H. exists a, w1. split; [reflexivity|exact H].
Qed.

Lemma inert_ret {A} (a : A) : inert (ret a).
Proof. intros w. apply same_inside_refl. Qed.

Lemma inert_bind {A B} (m : M A) (k : A -> M B) :
  inert m -> (forall a, inert (k a)) -> inert (bind m k).
Proof. apply relates_bind. exact same_inside_trans. Qed.

Lemma inert_gets {A} (f : World -> A) : inert (gets f).
Proof. intros w. apply same_inside_refl. Qed.

Lemma inert_call c : inert (call c).
Proof. intros w. rewrite call_eq. apply same_inside_after_call. Qed.

Lemma inert_log l : inert (log l).
Proof. intros w. apply same_inside_emit. Qed.

Lemma inert_xcb_poll_for_event : inert xcb_poll_for_event.
Proof.
  intros w. unfold xcb_poll_for_event.
  destruct (xcb_buffer (conn w)); [destruct (xcb_wire (conn w))|];
    repeat split.
Qed.

Lemma inert_out_of_fuel {A} : inert (@out_of_fuel A).
Proof. intros w. exact I. Qed.

Ltac inert_step :=
  repeat first
    [ apply inert_bind; [|intros ?]
    | apply inert_ret | apply inert_gets | apply inert_call
    | apply inert_log | apply inert_xcb_poll_for_event
    | apply inert_out_of_fuel
    | match goal with
      | |- inert (if ?b then _ else _) => destruct b
      | |- inert (match ?o with Some _ => _ | None => _ end) => destruct o
      end ].

Lemma inert_xcb_prepare_cb fuel : inert (xcb_prepare_cb fuel).
Proof.
  unfold xcb_prepare_cb, xcb_flush_out.
  apply inert_bind; [|intros ?; inert_step].
  induction fuel as [|fuel IH]; cbn [xcb_prepare_cb_loop]; inert_step;
    exact IH.
Qed.

Lemma inert_discard_events_loop fuel : inert (discard_events_loop fuel).
Proof.
  induction fuel as [|fuel IH]; cbn [discard_events_loop]; inert_step;
    exact IH.
Qed.

Lemma inert_main_manage_existing fuel root :
  inert (main_manage_existing fuel root).
Proof.
  unfold main_manage_existing, xcb_aux_sync_roundtrip. inert_step.
  - intros w. repeat split.
  - apply inert_discard_events_loop.
Qed.

Lemma inert_main_restore_tree path del : inert (main_restore_tree path del).
Proof. unfold main_restore_tree. inert_step. Qed.

Lemma inert_main_restart_fd : inert main_restart_fd.
Proof. unfold main_restart_fd, parse_restart_fd, getenv. inert_step. Qed.

Lemma grown_refl w : grown w w.
Proof. unfold grown. repeat split; auto. lia. Qed.

Lemma grown_trans w1 w2 w3 : grown w1 w2 -> grown w2 w3 -> grown w1 w3.
Proof.
  intros (Ha & Hd & Hp & Hs & Hw & Hc & Hpr & Hio)
         (Ha' & Hd' & Hp' & Hs' & Hw' & Hc' & Hpr' & Hio').
  unfold grown. repeat split; try congruence; auto. lia.
Qed.

Lemma grown_same_inside w w' : same_inside w w' -> grown w w'.
Proof.
  intros (Hl & Hp & _). unfold grown. rewrite Hl, Hp.
  repeat split; auto. lia.
Qed.

Lemma grows_inert {A} (m : M A) : inert m -> grows m.
Proof. apply relates_weaken. exact grown_same_inside. Qed.

Lemma grows_bind {A B} (m : M A) (k : A -> M B) :
  grows m -> (forall a, grows (k a)) -> grows (bind m k).
Proof. apply relates_bind. exact grown_trans. Qed.

Lemma grows_ev_io_start fd cb : grows (ev_io_start fd cb).
Proof.
  intros w. unfold ev_io_start, ev_ref, bind, modify. cbn.
  unfold grown. cbn. repeat split; auto; [lia|].
  intros p Hp. apply list_elem_of_further. exact Hp.
Qed.

Lemma grows_ev_prepare_start : grows ev_prepare_start.
Proof.
  intros w. unfold ev_prepare_start, ev_ref, bind, gets, modify.
  destruct (prepare_active (main_loop w)) eqn:Hact; cbn.
  - apply grown_refl.
  - unfold grown. cbn. repeat split; auto. lia.
Qed.

Lemma grows_fcntl_F_SETFD fd flags : grows (fcntl_F_SETFD fd flags).
Proof.
  intros w. unfold fcntl_F_SETFD.
  destruct (fdflags (proc w) !! fd); [|apply grown_refl].
  unfold grown. cbn. repeat split; auto. lia.
Qed.

Lemma grows_modify_glob f : grows (modify (upd_glob f)).
Proof. intros w. unfold modify. unfold grown. cbn. repeat split; auto. lia. Qed.

Ltac grows_step :=
  repeat first
    [ apply grows_ev_io_start | apply grows_ev_prepare_start
    | apply grows_fcntl_F_SETFD | apply grows_modify_glob
    | apply grows_inert; inert_step; fail
    | apply grows_bind; [|intros ?]
    | match goal with
      | |- grows (if ?b then _ else _) => destruct b
      end ].

Lemma grows_listen_on_activation_fds n : forall fd,
  grows (listen_on_activation_fds n fd).
Proof.
  induction n as [|n IH]; intros fd; cbn [listen_on_activation_fds].
  - apply grows_inert, inert_ret.
  - unfold listen_on_activation_fd, fcntl_F_GETFD. grows_step. apply IH.
Qed.

Lemma grows_main_socket_activation : grows main_socket_activation.
Proof.
  unfold main_socket_activation. grows_step.
  apply grows_listen_on_activation_fds.
Qed.

Lemma grows_main_start_xcb_watchers xcb_fd :
  grows (main_start_xcb_watchers xcb_fd).
Proof. unfold main_start_xcb_watchers, xcb_flush_out. grows_step. Qed.

Lemma watchers_kept_refl w : watchers_kept w w.
Proof. repeat split. Qed.

Lemma watchers_kept_trans w1 w2 w3 :
  watchers_kept w1 w2 -> watchers_kept w2 w3 -> watchers_kept w1 w3.
Proof.
  intros (H1 & H2 & H3 & H4) (H1' & H2' & H3' & H4').
  repeat split; congruence.
Qed.

Lemma watchers_kept_same_inside w w' :
  same_inside w w' -> watchers_kept w w'.
Proof. intros (Hl & _ & _). unfold watchers_kept. rewrite Hl. repeat split. Qed.

Lemma watchers_kept_same_but_signals w w' :
  same_but_signals w w' -> watchers_kept w w'.
Proof.
  intros (_ & _ & _ & _ & _ & _ & _ & Hio & Hpr & Hp & Hs).
  repeat split; assumption.
Qed.

Lemma relates_watchers_kept_inert {A} (m : M A) :
  inert m -> relates watchers_kept m.
Proof. apply relates_weaken. exact watchers_kept_same_inside. Qed.

Lemma relates_watchers_kept_sigaction s d :
  relates watchers_kept (sigaction s d).
Proof.
  intros w. destruct (sigaction_spec s d w) as (rc & w' & Hrun & Hsame & _).
  rewrite Hrun. apply watchers_kept_same_but_signals. exact Hsame.
Qed.

Lemma relates_watchers_kept_start_signal_watchers i ws :
  relates watchers_kept (start_signal_watchers i ws).
Proof.
  intros w. destruct (start_signal_watchers_spec ws i w)
    as (w' & Hrun & Hsame & _).
  rewrite Hrun. apply watchers_kept_same_but_signals. exact Hsame.
Qed.

Lemma relates_watchers_kept_sigaction_any_failed ss d :
  relates watchers_kept (sigaction_any_failed ss d).
Proof.
  induction ss as [|s ss IH]; cbn [sigaction_any_failed].
  - intros w. apply watchers_kept_refl.
  - apply relates_bind; [exact watchers_kept_trans| |].
    + apply relates_watchers_kept_sigaction.
    + intros rc. destruct (rc =? -1); [|exact IH].
      intros w. apply watchers_kept_refl.
Qed.

Lemma relates_watchers_kept_main_setup_signals dis :
  relates watchers_kept (main_setup_signals dis).
Proof.
  unfold main_setup_signals.
  apply relates_bind; [exact watchers_kept_trans| |intros ?].
  - destruct (negb dis).
    + apply relates_watchers_kept_inert. inert_step.
    + apply relates_bind; [exact watchers_kept_trans| |intros failed].
      * apply relates_watchers_kept_sigaction_any_failed.
      * apply relates_watchers_kept_inert. inert_step.
  - apply relates_bind; [exact watchers_kept_trans| |intros ?].
    + apply relates_watchers_kept_start_signal_watchers.
    + unfold signal.
      apply relates_bind; [exact watchers_kept_trans| |intros ?].
      * apply relates_watchers_kept_sigaction.
      * apply relates_watchers_kept_inert, inert_ret.
Qed.

Lemma not_watched_nil (s : signal_t) : s ∉ map snd (@nil (nat * signal_t)).
Proof. intros H. inversion H. Qed.

Lemma grows_run {A} (m : M A) w a w' :
  grows m -> m w = Ret a w' -> grown w w'.
Proof. apply relates_run. Qed.

Lemma inert_run {A} (m : M A) w a w' :
  inert m -> m w = Ret a w' -> same_inside w w'.
Proof. apply relates_run. Qed.

Lemma main_bring_up_loop_state (fuel : nat) (opt : options)
    (root_screen : xcb_screen_t) (xcb_fd : Z) (w w' : World) :
  main_bring_up fuel opt root_screen xcb_fd w = Ret tt w' ->
  prepare_active (main_loop w') = true /\
  (xcb_fd, cb_xcb_got_event) ∈ io_watchers (main_loop w') /\
  (forall p, p ∈ io_watchers (main_loop w) ->
             p ∈ io_watchers (main_loop w')) /\
  activecnt (main_loop w) < activecnt (main_loop w') /\
  pending (main_loop w') = pending (main_loop w) /\
  sig_pending (main_loop w') = sig_pending (main_loop w) /\
  atexit_handlers (proc w') = atexit_i3_exit :: atexit_handlers (proc w) /\
  signal_watchers (main_loop w') =
    rev (numbered 0 term_signal_watchers) ++ signal_watchers (main_loop w) /\
  (forall s, s ∈ term_signal_watchers ->
     s ∉ map snd (signal_watchers (main_loop w)) ->
     sigdisp (proc w') s = ev_action).
Proof.
  intros Hrun. unfold main_bring_up in Hrun.
  (* lines 742 to 875 *)
  apply bind_ret_inv in Hrun as (? & w1 & H1 & Hrun).
  apply bind_ret_inv in Hrun as (? & w2 & H2 & Hrun).
  apply bind_ret_inv in Hrun as (path & w3 & H3 & Hrun).
  apply bind_ret_inv in Hrun as (ipc_socket & w4 & H4 & Hrun).
  apply bind_ret_inv in Hrun as (? & w5 & H5 & Hrun).
  apply bind_ret_inv in Hrun as (? & w6 & H6 & Hrun).
  apply bind_ret_inv in Hrun as (? & w7 & H7 & Hrun).
  apply bind_ret_inv in Hrun as (? & w8 & H8 & Hrun).
  assert (G8 : grown w w8).
  { apply (grown_trans w w1);
      [exact (grows_run _ _ _ _ (grows_inert _ (inert_main_restore_tree _ _)) H1)|].
    apply (grown_trans w1 w2);
      [exact (grows_run _ _ _ _ (grows_inert _ (inert_call _)) H2)|].
    apply (grown_trans w2 w3);
      [exact (grows_run _ _ _ _ (grows_inert _ (inert_gets _)) H3)|].
    apply (grown_trans w3 w4);
      [exact (grows_run _ _ _ _ (grows_inert _ (inert_call _)) H4)|].
    apply (grown_trans w4 w5).
    { refine (grows_run _ _ _ _ _ H5).
      destruct (ipc_socket =? -1);
        [apply grows_inert, inert_log | apply grows_ev_io_start]. }
    apply (grown_trans w5 w6);
      [exact (grows_run _ _ _ _ grows_main_socket_activation H6)|].
    apply (grown_trans w6 w7);
      [exact (grows_run _ _ _ _ (grows_inert _ inert_main_restart_fd) H7)|].
    exact (grows_run _ _ _ _ (grows_inert _ (inert_call _)) H8). }
  (* lines 881 to 890 *)
  apply bind_ret_inv in Hrun as (? & w9 & H9 & Hrun).
  assert (G9 : grown w8 w9 /\ prepare_active (main_loop w9) = true /\
               (xcb_fd, cb_xcb_got_event) ∈ io_watchers (main_loop w9) /\
               activecnt (main_loop w8) < activecnt (main_loop w9)).
  { split;
      [exact (grows_run _ _ _ _ (grows_main_start_xcb_watchers _) H9)|].
    unfold main_start_xcb_watchers in H9.
    apply bind_ret_inv in H9 as (? & wa & Ha & H9).
    apply bind_ret_inv in H9 as (? & wb & Hb & H9).
    assert (Hin : same_inside wb w9).
    { refine (inert_run _ _ _ _ _ H9). unfold xcb_flush_out. inert_step. }
    destruct Hin as (Hl & _). rewrite Hl.
    revert Ha Hb.
    unfold ev_io_start, ev_prepare_start, ev_ref, bind, gets, modify, ret.
    cbn. intros Ha. injection Ha as _ <-. cbn.
    destruct (prepare_active (main_loop w8)) eqn:Hact; cbn;
      intros Hb; injection Hb as _ <-; cbn; (split; [auto|]);
      (split; [apply list_elem_of_here | lia]). }
  destruct G9 as (G9 & Hact9 & Hio9 & Hcnt9).
  (* lines 905 to 950 *)
  apply bind_ret_inv in Hrun as (? & w10 & H10 & Hrun).
  apply bind_ret_inv in Hrun as (? & w11 & H11 & Hrun).
  assert (G11 : same_inside w9 w11).
  { apply (same_inside_trans w9 w10);
      [exact (inert_run _ _ _ _ (inert_main_manage_existing _ _) H10)|].
    refine (inert_run _ _ _ _ _ H11).
    destruct (autostart opt); inert_step. }
  (* lines 956 to 977 *)
  apply bind_ret_inv in Hrun as (? & w12 & H12 & Hrun).
  pose proof (relates_run watchers_kept _ _ _ _
                (relates_watchers_kept_main_setup_signals _) H12)
    as (K1 & K2 & K3 & K4).
  destruct (main_setup_signals_spec (disable_signalhandler opt) w11)
    as (w12' & H12' & _ & Hsw & Hcnt12 & Hax12 & _ & _ & _ & Hdisp).
  match type of H12 with _ = Ret ?u _ => destruct u end.
  rewrite H12 in H12'. injection H12' as <-.
  (* lines 979 to 1020 *)
  apply bind_ret_inv in Hrun as (? & w13 & H13 & Hrun).
  apply bind_ret_inv in Hrun as (? & w14 & H14 & Hrun).
  assert (G14 : same_inside w12 w14).
  { apply (same_inside_trans w12 w13);
      [|exact (inert_run _ _ _ _ (inert_call _) H14)].
    refine (inert_run _ _ _ _ _ H13).
    destruct (autostart opt); inert_step. }
  unfold atexit, modify in Hrun. injection Hrun as <-.
  cbn [main_loop proc upd_proc atexit_handlers set_atexit_handlers sigdisp].
  destruct G14 as (L14 & P14 & _). destruct G11 as (L11 & P11 & _).
  destruct G8 as (Ha8 & Hd8 & Hp8 & Hs8 & Hw8 & Hc8 & Hpr8 & Hio8).
  destruct G9 as (Ha9 & Hd9 & Hp9 & Hs9 & Hw9 & Hc9 & Hpr9 & Hio9').
  rewrite L14, P14. rewrite L11 in K1, K2, K3, K4, Hsw, Hcnt12, Hdisp.
  rewrite P11 in Hax12.
  split; [congruence|].
  split; [rewrite K1; exact Hio9|].
  split; [intros p Hp; rewrite K1; auto|].
  split; [lia|].
  split; [congruence|]. split; [congruence|].
  split; [congruence|].
  split; [rewrite Hsw; congruence|].
  intros s Hs Hfresh. apply Hdisp; [exact Hs|]. congruence.
Qed.

(** X5.  What the bring-up leaves behind when it returns, that is, the
    state in which the event loop is entered.  The drain watcher is
    started and the X socket has its io watcher; watchers that were there
    are still there, and the loop holds at least one more reference, so it
    will block rather than return.  Nothing has been made pending.
    [i3_exit] is the exit handler registered last, hence run first.  The
    six signal watchers are started and, for the signals that were not
    watched before, libev's handler is the disposition. *)
Theorem main_bring_up_prepares_the_loop (fuel : nat) (opt : options)
    (root_screen : xcb_screen_t) (xcb_fd : Z) (w w' : World) :
  main_bring_up fuel opt root_screen xcb_fd w = Ret tt w' ->
  prepare_active (main_loop w') = true /\
  (xcb_fd, cb_xcb_got_event) ∈ io_watchers (main_loop w') /\
  (forall p, p ∈ io_watchers (main_loop w) ->
             p ∈ io_watchers (main_loop w')) /\
  activecnt (main_loop w) < activecnt (main_loop w') /\
  pending (main_loop w') = pending (main_loop w) /\
  sig_pending (main_loop w') = sig_pending (main_loop w) /\
  atexit_handlers (proc w') = atexit_i3_exit :: atexit_handlers (proc w) /\
  signal_watchers (main_loop w') =
    rev (numbered 0 term_signal_watchers) ++ signal_watchers (main_loop w) /\
  (forall s, s ∈ term_signal_watchers ->
     s ∉ map snd (signal_watchers (main_loop w)) ->
     sigdisp (proc w') s = ev_action).
Proof.
  intros Hrun.
  destruct (main_bring_up_loop_state fuel opt root_screen xcb_fd w w' Hrun)
    as (Hactive & Hsocket & Hkept & Hrefs & Hrest).
  split; [exact Hactive|]. split; [exact Hsocket|].
  split; [exact Hkept|]. split; [exact Hrefs|]. exact Hrest.
Qed.

(** X16.  Nothing that reached the connection during the bring-up is
    lost.  When the bring-up has returned and the loop runs from there,
    then at every blocking wait of the loop, the first included, all the
    events that were still queued when the loop was entered (those that
    arrived after the reconciliation drain, say while the existing windows
    were managed or the autostart commands started) and all that arrived
    before the last flush have been dispatched in order; between that
    flush and the wait there is nothing but the arrivals of the flush
    itself. *)
Theorem events_queued_at_loop_entry_are_dispatched (fuel : nat)
    (opt : options) (root_screen : xcb_screen_t) (xcb_fd : Z)
    (w w1 : World) :
  main_bring_up fuel opt root_screen xcb_fd w = Ret tt w1 ->
  forall fuel' wks w2,
    final_world (ev_loop fuel' wks w1) = Some w2 ->
    exists tr,
      trace w2 = trace w1 ++ tr /\
      forall pre post, tr = pre ++ Wait :: post ->
        exists done es,
          pre = done ++ Call xcb_flush :: map Arrive es /\
          processed done = map drain_call (queue w1 ++ arrived done).
Proof.
  intros Hrun fuel' wks w2 Hfinal.
  destruct (main_bring_up_loop_state fuel opt root_screen xcb_fd w w1 Hrun)
    as (Hactive & _).
  assert (Hinv : loop_inv w1 w2).
  { eapply (final_world_triple _ _ _ _ (loop_inv w1));
      [apply (ev_loop_spec w1 fuel' wks)|apply loop_inv_refl; exact Hactive
      | | |exact Hfinal]; auto. }
  destruct Hinv as [_ [tr [Htr [_ Hwaits]]]].
  exists tr. split; [exact Htr|exact Hwaits].
Qed.

(** ** Further properties: a terminating signal while the loop sleeps *)

Lemma prepare_phase_runs fuel w :
  calm -> (length (queue w) + 1 < fuel)%nat ->
  prepare_active (main_loop w) = true ->
  pending (main_loop w) = [] ->
  exists w1 tr,
    prepare_phase fuel w = Ret tt w1 /\
    same_inside w w1 /\
    trace w1 = trace w ++ tr /\
    processed tr = map drain_call (queue w ++ arrived tr) /\
    last tr = Some (Call xcb_flush).
Proof.
  intros Hcalm Hfuel Hact Hpend.
  destruct fuel as [|[|f]]; [lia|lia|].
  destruct (xcb_prepare_cb_loop_terminates Hcalm (S f) w) as [wl Hwl];
    [lia|].
  assert (Hwc : xcb_prepare_cb (S f) w = Ret tt (after_call xcb_flush wl)).
  { unfold xcb_prepare_cb, xcb_flush_out, bind. rewrite Hwl, call_eq.
    reflexivity. }
  destruct (xcb_prepare_cb_drains _ _ _ Hwc)
    as (_ & tr & es & Htr & Hp & Hq).
  assert (Hes : es = []).
  { pose proof (xcb_prepare_cb_loop_spec w (S f) w (tracks_refl w)) as Hs.
    rewrite Hwl in Hs. destruct Hs as (_ & Hq1 & _).
    rewrite after_call_queue, Hq1, (brought_calm _ _ Hcalm) in Hq.
    symmetry. exact Hq. }
  rewrite Hes in Htr, Hq. clear Hes.
  exists (after_call xcb_flush wl), (tr ++ [Call xcb_flush]).
  split; [exact (prepare_phase_step f w _ Hact Hpend Hwc)|].
  split; [exact (inert_run _ _ _ _ (inert_xcb_prepare_cb _) Hwc)|].
  split; [exact Htr|].
  split.
  - rewrite processed_app, arrived_app. cbn. rewrite !List.app_nil_r.
    exact Hp.
  - apply last_snoc.
Qed.

Lemma signal_events_term s (l : ev_loop_t) :
  s ∈ term_signal_watchers ->
  signal_watchers l = rev (numbered 0 term_signal_watchers) ->
  sig_pending l = [s] ->
  exists i rest,
    signal_events l = W_signal i s :: rest /\
    forall wt, wt ∈ rest -> exists j, wt = W_signal j s.
Proof.
  intros Hs Hw Hp. unfold signal_events. rewrite Hw, Hp.
  unfold term_signal_watchers in Hs.
  repeat (apply elem_of_cons in Hs as [->|Hs]);
    try (inversion Hs; fail);
    cbn; eexists; eexists; (split; [reflexivity|]);
    intros wt Hwt;
    repeat (apply elem_of_cons in Hwt as [->|Hwt]);
    try (inversion Hwt; fail); eexists; reflexivity.
Qed.

Lemma feed_all_signals s ws : forall w,
  (forall wt, wt ∈ ws -> exists j, wt = W_signal j s) ->
  exists w',
    feed_all ws w = Ret tt w' /\
    proc w' = proc w /\ glob w' = glob w /\ trace w' = trace w /\
    ext w' = ext w /\ conn w' = conn w /\
    (forall wt, wt ∈ pending (main_loop w) ->
                wt ∈ pending (main_loop w')) /\
    (forall wt, wt ∈ pending (main_loop w') ->
                wt ∈ pending (main_loop w) \/ wt ∈ ws).
Proof.
  induction ws as [|wt ws IH]; intros w Hall.
  - exists w. split; [reflexivity|]. repeat split; auto.
  - cbn [feed_all]. unfold bind at 1, ev_feed_event, modify.
    set (w1 := upd_loop _ w).
    destruct (IH w1) as (w' & Hrun & Hp & Hg & Ht & He & Hc & Hmono & Hback).
    { intros x Hx. apply Hall. apply list_elem_of_further. exact Hx. }
    exists w'. split; [exact Hrun|].
    assert (Hpend1 : forall x, x ∈ pending (main_loop w1) <->
                       x ∈ pending (main_loop w) \/ x = wt).
    { intros x. subst w1. cbn.
      destruct (decide (wt ∈ pending (main_loop w))) as [Hin|Hnot]; cbn.
      - split; [auto|]. intros [H| ->]; assumption.
      - rewrite elem_of_cons. tauto. }
    repeat split; try assumption.
    + intros x Hx. apply Hmono. apply Hpend1. left. exact Hx.
    + intros x Hx. destruct (Hback x Hx) as [H|H].
      * apply Hpend1 in H as [H| ->]; [left; exact H|].
        right. apply list_elem_of_here.
      * right. apply list_elem_of_further. exact H.
Qed.

Lemma wakeup_phase_term_signal f s arrivals w :
  s ∈ term_signal_watchers ->
  signal_watchers (main_loop w) = rev (numbered 0 term_signal_watchers) ->
  sigdisp (proc w) s = ev_action ->
  pending (main_loop w) = [] ->
  sig_pending (main_loop w) = [] ->
  exists w2 j rest,
    wakeup_phase (S f)
      {| wk_arrivals := arrivals; wk_readable := []; wk_signals := [s] |} w =
      Ret tt w2 /\
    pending (main_loop w2) = W_signal j s :: rest /\
    proc w2 = proc w /\ glob w2 = glob w /\
    trace w2 = trace w ++ map Arrive arrivals.
Proof.
  intros Hs Hsw Hdisp Hpend Hsp.
  unfold wakeup_phase. cbn [wk_arrivals wk_readable wk_signals].
  unfold bind at 1, modify.
  set (w1 := apply_traffic (map XArrive arrivals) w).
  destruct (apply_traffic_frame (map XArrive arrivals) w)
    as (Hl1 & Hp1 & Hg1 & _).
  fold w1 in Hl1, Hp1, Hg1.
  assert (Ht1 : trace w1 = trace w ++ map Arrive arrivals).
  { subst w1. rewrite apply_traffic_trace. f_equal. f_equal.
    unfold arrivals_of. clear. induction arrivals as [|e l IH];
      [reflexivity|]. cbn. f_equal. exact IH. }
  unfold bind at 1. cbn [deliver_all]. unfold bind at 1.
  rewrite deliver_unfold. unfold bind at 1, gets.
  rewrite Hp1, Hdisp. unfold ev_action.
  cbn [SA_RESETHAND]. unfold bind at 1, ret, modify.
  set (w1' := upd_loop _ w1). unfold bind at 1, gets.
  cbn [io_events flat_map feed_all]. unfold bind at 1, ret.
  destruct (signal_events_term s (main_loop w1') Hs)
    as (i & rest & Hev & Hrest).
  { subst w1'. cbn. rewrite Hl1. exact Hsw. }
  { subst w1'. cbn. rewrite Hl1, Hsp. reflexivity. }
  rewrite Hev. unfold bind at 1.
  destruct (feed_all_signals s (W_signal i s :: rest) w1')
    as (w2 & Hrun & Hp2 & Hg2 & Ht2 & _ & _ & Hmono & Hback).
  { intros wt Hwt. apply elem_of_cons in Hwt as [->|Hwt];
      [eexists; reflexivity | apply Hrest; exact Hwt]. }
  rewrite Hrun. unfold modify.
  assert (Hall : forall wt, wt ∈ pending (main_loop w2) ->
            exists j, wt = W_signal j s).
  { intros wt Hwt. destruct (Hback wt Hwt) as [H|H].
    - subst w1'. cbn in H. rewrite Hl1, Hpend in H. inversion H.
    - apply elem_of_cons in H as [->|H];
        [eexists; reflexivity | apply Hrest; exact H]. }
  assert (Hne : pending (main_loop w2) <> []).
  { intros Hnil. revert Hrun. cbn [feed_all]. unfold bind at 1.
    unfold ev_feed_event, modify.
    set (v := upd_loop _ w1').
    assert (Hv : W_signal i s ∈ pending (main_loop v)).
    { subst v w1'. cbn. rewrite Hl1, Hpend.
      destruct (decide (W_signal i s ∈ [])) as [H|_]; [inversion H|].
      cbn. apply list_elem_of_here. }
    intros Hrest'.
    destruct (feed_all_signals s rest v Hrest)
      as (v' & Hrun' & _ & _ & _ & _ & _ & Hmono' & _).
    rewrite Hrun' in Hrest'. injection Hrest' as <-.
    apply Hmono' in Hv. rewrite Hnil in Hv. inversion Hv. }
  destruct (pending (main_loop w2)) as [|wt pend2] eqn:Hpend2;
    [contradiction|].
  destruct (Hall wt) as [j ->]; [apply list_elem_of_here|].
  eexists. exists j, pend2. split; [reflexivity|].
  cbn. rewrite Hpend2, Hp2, Hg2, Ht2. subst w1'. cbn.
  rewrite Hp1, Hg1, Ht1. repeat split.
Qed.

(** X6.  A terminating signal while the loop sleeps.  Take the loop as
    the bring-up leaves it: the six signal watchers started, [i3_exit] the
    one exit handler, the drain watcher started, nothing pending, and a
    reference held.  If SIGHUP, SIGINT, SIGALRM, SIGTERM or SIGUSR1 is
    delivered while the loop waits, the process ends by [exit] with status
    128 plus the signal number: before the wait the queue was drained and
    flushed, and after it the only calls made are those of [i3_exit], so
    the SHM log and the IPC socket are removed before the process is
    gone. *)
Theorem term_signal_ends_the_loop_through_exit (s : signal_t) (fuel : nat)
    (arrivals : list xcb_generic_event_t) (wks : list wakeup) (w : World) :
  calm ->
  (length (queue w) + 1 < fuel)%nat ->
  s ∈ term_signal_watchers ->
  signal_watchers (main_loop w) = rev (numbered 0 term_signal_watchers) ->
  sigdisp (proc w) s = ev_action ->
  atexit_handlers (proc w) = [atexit_i3_exit] ->
  prepare_active (main_loop w) = true ->
  pending (main_loop w) = [] ->
  sig_pending (main_loop w) = [] ->
  activecnt (main_loop w) <> 0 ->
  exists w' pre post,
    ev_loop fuel
      ({| wk_arrivals := arrivals; wk_readable := []; wk_signals := [s] |}
       :: wks) w =
      Stop (Exited (128 + signum s) w') /\
    trace w' = trace w ++ pre ++ Wait :: post /\
    processed pre = map drain_call (queue w ++ arrived pre) /\
    last pre = Some (Call xcb_flush) /\
    calls post = cleanup_calls w.
Proof.
  intros Hcalm Hfuel Hs Hsw Hdisp Hexit Hact Hpend Hsp Hcnt.
  destruct (prepare_phase_runs fuel w Hcalm Hfuel Hact Hpend)
    as (w1 & pre & Hprep & (Hl1 & Hp1 & Hg1) & Htr1 & Hproc & Hlast).
  destruct fuel as [|f]; [lia|].
  unfold ev_loop. unfold bind at 1.
  cbn [ev_invoke_pending]. unfold bind at 1, gets. rewrite Hpend.
  cbn [ret]. rewrite ev_run_loop_unfold. unfold bind at 1.
  rewrite Hprep. unfold bind at 1, gets. rewrite Hl1.
  destruct (activecnt (main_loop w) =? 0) eqn:Hz;
    [apply Z.eqb_eq in Hz; contradiction|].
  unfold bind at 1, modify.
  set (wd := emit Wait w1).
  destruct (wakeup_phase_term_signal f s arrivals wd Hs)
    as (w2 & j & rest & Hwake & Hpend2 & Hp2 & Hg2 & Htr2).
  { subst wd. cbn. rewrite Hl1. exact Hsw. }
  { subst wd. cbn. rewrite Hp1. exact Hdisp. }
  { subst wd. cbn. rewrite Hl1. exact Hpend. }
  { subst wd. cbn. rewrite Hl1. exact Hsp. }
  unfold bind at 1. rewrite Hwake.
  unfold bind at 1. cbn [ev_invoke_pending]. unfold bind at 1, gets.
  rewrite Hpend2. unfold bind at 1, modify. unfold bind at 1.
  set (w3 := upd_loop (set_pending rest) w2).
  cbn [invoke].
  destruct (handle_term_signal_spec s w3) as (w' & Hstop & tr & Htr & Hcalls).
  { subst w3. cbn. rewrite Hp2. subst wd. cbn. rewrite Hp1. exact Hexit. }
  rewrite Hstop.
  exists w', pre, (map Arrive arrivals ++ tr).
  split; [reflexivity|].
  split.
  { rewrite Htr. subst w3. cbn. rewrite Htr2. subst wd. cbn.
    rewrite Htr1. rewrite <- !List.app_assoc. reflexivity. }
  split; [exact Hproc|]. split; [exact Hlast|].
  rewrite calls_app, calls_arrivals, Hcalls. cbn.
  unfold cleanup_calls. subst w3. cbn. rewrite Hg2. subst wd. cbn.
  rewrite Hg1. reflexivity.
Qed.

(** ** Further properties: the ways the negotiation ends *)











(** ** Further properties: the restart descriptor as an [int] *)

Lemma int_of_long_range z : - 2 ^ 31 <= int_of_long z < 2 ^ 31.
Proof.
  unfold int_of_long.
  pose proof (Z.mod_pos_bound (z + 2 ^ 31) (2 ^ 32) eq_refl). lia.
Qed.

Lemma int_of_long_fits z : - 2 ^ 31 <= z < 2 ^ 31 -> int_of_long z = z.
Proof.
  intros H. unfold int_of_long. rewrite Z.mod_small by lia. lia.
Qed.

Lemma int_of_long_wraps_around z k : int_of_long (z + k * 2 ^ 32) = int_of_long z.
Proof.
  unfold int_of_long.
  replace (z + k * 2 ^ 32 + 2 ^ 31) with (z + 2 ^ 31 + k * 2 ^ 32) by lia.
  rewrite Z.mod_add by lia. reflexivity.
Qed.

(** X8.  [parse_restart_fd] always returns, and what it returns is an
    [int]: the number [parse_long] read, unchanged when it fits, and
    otherwise cut to its low 32 bits rather than rejected, so that two
    values that differ by a multiple of 2^32 name the same descriptor.
    The result is other than -1 only if the variable is set and parses.
    The function only reads the environment: the variable stays set, and
    the loop, the process and the globals are as before. *)
Theorem parse_restart_fd_is_an_int (w : World) :
  exists fd w',
    parse_restart_fd w = Ret fd w' /\
    - 2 ^ 31 <= fd < 2 ^ 31 /\
    same_inside w w' /\
    (fd <> -1 ->
     exists s v, environ (proc w) !! "_I3_RESTART_FD" = Some s /\
                 parse_long s 10 = Some v /\ fd = int_of_long v) /\
    (forall s v, environ (proc w) !! "_I3_RESTART_FD" = Some s ->
       parse_long s 10 = Some v ->
       fd = int_of_long v /\
       (- 2 ^ 31 <= v < 2 ^ 31 -> fd = v) /\
       (forall k, int_of_long (v + k * 2 ^ 32) = fd)).
Proof.
  unfold parse_restart_fd, getenv, bind, gets, log, modify, ret.
  destruct (environ (proc w) !! "_I3_RESTART_FD") as [s|] eqn:Henv.
  - destruct (parse_long s 10) as [v|] eqn:Hparse.
    + exists (int_of_long v), w. split; [reflexivity|].
      split; [apply int_of_long_range|].
      split; [apply same_inside_refl|]. split.
      * intros _. exists s, v. auto.
      * intros s' v' [= <-]. rewrite Hparse. intros [= <-].
        split; [reflexivity|]. split; [apply int_of_long_fits|].
        intros k. apply int_of_long_wraps_around.
    + eexists. eexists. split; [reflexivity|]. split; [lia|].
      split; [apply same_inside_emit|]. split; [congruence|].
      intros s' v' [= <-]. rewrite Hparse. discriminate.
  - exists (-1), w. split; [reflexivity|]. split; [lia|].
    split; [apply same_inside_refl|]. split; [congruence|]. discriminate.
Qed.

(** ** Further properties: the command line *)

(** X9.  The table of long options against the [switch].  Every row of
    [long_options] is handled by the switch without reaching the usage
    text, whatever its argument, with one exception: "help" returns ['h'],
    which has no [case], so it prints the usage and exits with
    EXIT_FAILURE like an unknown option.  The same happens for any value
    that has no [case], such as the ['?'] of an unknown option. *)
Theorem long_options_against_the_switch (socket_path : option string)
    (st : cmdline) :
  (forall i o optarg,
     nth_error long_options i = Some o ->
     let r := {| g_opt := val o; g_index := i; g_optarg := optarg |} in
     (name o = "help" -> handle_option socket_path r st = usage) /\
     (name o <> "help" ->
      ~ In PrintUsage (fst (handle_option socket_path r st)))) /\
  (forall r, ~ In (g_opt r) handled_values ->
     handle_option socket_path r st = usage).
Proof.
  split.
  - intros i o optarg Hnth.
    do 21 (destruct i as [|i];
           [ cbn in Hnth; injection Hnth as <-; cbn;
             split;
             [ intros Hname; first [discriminate Hname | reflexivity]
             | intros Hname; try (exfalso; apply Hname; reflexivity);
               try destruct socket_path; cbn;
               intros Hin; repeat destruct Hin as [Hin|Hin];
               try discriminate Hin; try contradiction ]
           | ]).
    cbn in Hnth. destruct i; discriminate Hnth.
  - intros r Hr. unfold handle_option.
    repeat match goal with
    | |- context [g_opt r =? ?c] =>
        let H := fresh "H" in
        destruct (g_opt r =? c) eqn:H;
        [ exfalso; apply Hr; apply Z.eqb_eq in H; rewrite H; cbn; tauto | ]
    end.
    reflexivity.
Qed.

Ltac split_switch H :=
  repeat match type of H with
  | (if ?b then _ else _) = _ =>
      let E := fresh "E" in destruct b eqn:E
  | match ?o with Some _ => _ | None => _ end = _ => destruct o
  end.

Ltac read_tests :=
  repeat match goal with
  | E : (_ =? _) = true |- _ => apply Z.eqb_eq in E
  | E : (_ || _) = true |- _ => apply orb_true_iff in E; destruct E as [E|E]
  | E : String.eqb _ _ = true |- _ => apply String.eqb_eq in E
  end.

Lemma handle_option_step socket_path r st e st' :
  handle_option socket_path r st = (e, Went_on st') ->
  (layout_path (opts st'), delete_layout_path (opts st')) =
    chosen_layout r (layout_path (opts st), delete_layout_path (opts st)) /\
  autostart (opts st') = autostart (opts st) && negb (is_no_autostart r) /\
  disable_signalhandler (opts st') =
    disable_signalhandler (opts st) || is_disable_signalhandler r.
Proof.
  unfold handle_option, usage. intros H. split_switch H;
    try discriminate H; injection H as <- <-;
    unfold chosen_layout, layout_choice, is_no_autostart,
      is_disable_signalhandler;
    read_tests;
    repeat match goal with
    | E : g_opt r = _ |- _ => rewrite E in *
    | E : long_name (g_index r) = _ |- _ => rewrite E in *
    end;
    repeat match goal with
    | E : (_ =? _) = false |- _ => try rewrite E; clear E
    end;
    cbn; rewrite ?andb_true_r, ?andb_false_r, ?orb_false_r, ?orb_true_r;
    auto.
Qed.

Lemma chosen_layout_last rs : forall before,
  fold_left (fun chosen r => chosen_layout r chosen) rs before =
  match last (omap layout_choice rs) with
  | Some (path, del) => (Some path, del)
  | None => before
  end.
Proof.
  induction rs as [|r rs IH]; intros before; [reflexivity|].
  cbn [fold_left]. rewrite IH. unfold chosen_layout.
  change (omap layout_choice (r :: rs)) with
    (match layout_choice r with
     | Some c => c :: omap layout_choice rs
     | None => omap layout_choice rs
     end).
  destruct (layout_choice r) as [[path del]|]; [|reflexivity].
  rewrite last_cons. destruct (last (omap layout_choice rs)); reflexivity.
Qed.

(** X10.  What the options leave behind when the loop ends without an
    exit.  The layout file is the one named by the last of [-L],
    [--layout] and [--restart], and it is deleted after use exactly when
    that last one was [--restart]; with none of them nothing is restored.
    Autostart is off as soon as [-a] occurs once, and the crash handler is
    disabled as soon as [--disable-signalhandler] occurs once; no later
    option turns either back on. *)
Theorem parse_options_summary (socket_path : option string)
    (rs : list getopt_result) (st st' : cmdline) (e : list front_effect) :
  parse_options socket_path rs st = (e, Went_on st') ->
  (layout_path (opts st'), delete_layout_path (opts st')) =
    match last (omap layout_choice rs) with
    | Some (path, del) => (Some path, del)
    | None => (layout_path (opts st), delete_layout_path (opts st))
    end /\
  autostart (opts st') =
    autostart (opts st) && negb (existsb is_no_autostart rs) /\
  disable_signalhandler (opts st') =
    disable_signalhandler (opts st) || existsb is_disable_signalhandler rs.
Proof.
  rewrite <- chosen_layout_last.
  revert st e. induction rs as [|r rs IH]; intros st e Hrun.
  - cbn in Hrun. injection Hrun as <- <-. cbn.
    rewrite andb_true_r, orb_false_r. auto.
  - cbn [parse_options] in Hrun.
    destruct (handle_option socket_path r st) as [e1 [st1|status]] eqn:Hstep;
      [|discriminate Hrun].
    destruct (parse_options socket_path rs st1) as [e2 res] eqn:Hrest.
    injection Hrun as <- ->.
    destruct (handle_option_step _ _ _ _ _ Hstep) as (Hl & Ha & Hd).
    destruct (IH st1 e2 Hrest) as (Hl' & Ha' & Hd').
    cbn [fold_left existsb]. rewrite <- Hl, Hl', Ha', Ha, Hd', Hd.
    split; [reflexivity|].
    rewrite negb_orb, andb_assoc, orb_assoc. auto.
Qed.

(** ** Further properties: sending a command *)

Lemma append_assoc (a b c : string) :
  String.append (String.append a b) c = String.append a (String.append b c).
Proof.
  induction a as [|x a IH]; [reflexivity|].
  change (String x (String.append (String.append a b) c) =
          String x (String.append a (String.append b c))).
  f_equal. exact IH.
Qed.

Lemma length_append (a b : string) :
  String.length (String.append a b) = (String.length a + String.length b)%nat.
Proof.
  induction a as [|x a IH]; [reflexivity|].
  change (S (String.length (String.append a b)) =
          S (String.length a + String.length b)).
  f_equal. exact IH.
Qed.

Lemma concat_cons_cons sep (a b : string) (l : list string) :
  String.concat sep (a :: b :: l) =
  String.append a (String.append sep (String.concat sep (b :: l))).
Proof. reflexivity. Qed.

Lemma build_payload_some (args : list string) : forall p,
  build_payload (Some p) args = Some (String.concat " " (p :: args)).
Proof.
  induction args as [|a args IH]; intros p; [reflexivity|].
  cbn [build_payload]. rewrite IH.
  destruct args as [|b args]; [reflexivity|].
  rewrite !concat_cons_cons, append_assoc. reflexivity.
Qed.

Lemma length_concat (a : string) (args : list string) :
  String.length (String.concat " " (a :: args)) =
  (total_length (a :: args) + length args)%nat.
Proof.
  revert a. induction args as [|b args IH]; intros a.
  - cbn. lia.
  - rewrite concat_cons_cons, !length_append, IH. cbn. lia.
Qed.

(** X11.  The command that is sent.  The arguments left after the options
    are joined in order with one space between two of them and nothing at
    either end; an argument is taken as it is, so that an empty one still
    gets its separator.  The payload is as long as the arguments together
    plus one byte per separator. *)
Theorem build_payload_joins (arg : string) (args : list string) :
  build_payload None (arg :: args) =
    Some (String.concat " " (arg :: args)) /\
  String.length (String.concat " " (arg :: args)) =
    (total_length (arg :: args) + length args)%nat /\
  build_payload None [arg] = Some arg.
Proof.
  split; [apply build_payload_some|].
  split; [apply length_concat|reflexivity].
Qed.

Lemma length_substring n (s : string) :
  String.length (String.substring 0 n s) = Nat.min n (String.length s).
Proof.
  revert s. induction n as [|n IH]; intros [|c s]; cbn; try reflexivity.
  rewrite IH. reflexivity.
Qed.

Lemma prefix_substring n (s : string) :
  String.prefix (String.substring 0 n s) s = true.
Proof.
  revert s. induction n as [|n IH]; intros [|c s]; cbn; try reflexivity.
  destruct (Ascii.ascii_dec c c); [apply IH|contradiction].
Qed.

Lemma substring_all n (s : string) :
  (String.length s <= n)%nat -> String.substring 0 n s = s.
Proof.
  revert s. induction n as [|n IH]; intros [|c s] Hlen; cbn in *;
    try reflexivity; try lia.
  rewrite IH by lia. reflexivity.
Qed.

(** X12.  Command mode, from the arguments to the exit status.  The
    status is 0 or 1, and it is 0 exactly when the socket path is on the
    root window, the socket is created, the connection is accepted, the
    message is written, and a reply of type COMMAND is read; only then is
    the reply printed.  The address connected to is the socket path cut to
    the size of [sun_path] less one byte: a longer path is not refused but
    shortened, and a path that fits is used as it is.  What is sent is one
    message of type RUN_COMMAND whose payload is the joined arguments. *)
Theorem send_command_outcome (o : ipc_answers) (arg : string)
    (args : list string) :
  let payload := String.concat " " (arg :: args) in
  let result := send_command o (arg :: args) in
  (snd result = 0 \/ snd result = 1) /\
  (snd result = 0 <->
   exists socket_path reply,
     root_atom_contents o = Some socket_path /\
     socket_fd o <> -1 /\
     0 <= connect_to o (sun_path socket_path) /\
     ipc_send_message o payload <> -1 /\
     ipc_recv_message o = (0, I3_IPC_REPLY_TYPE_COMMAND, reply)) /\
  (forall s, In (PrintLine s) (fst result) ->
     snd result = 0 /\ snd (ipc_recv_message o) = s) /\
  (forall path, In (Connect path) (fst result) ->
     exists socket_path,
       root_atom_contents o = Some socket_path /\
       path = sun_path socket_path /\
       String.length path = Nat.min (sun_path_size - 1)
                              (String.length socket_path) /\
       String.prefix path socket_path = true /\
       ((String.length socket_path <= sun_path_size - 1)%nat ->
        path = socket_path)) /\
  (forall type len p, In (Send type len p) (fst result) ->
     type = I3_IPC_MESSAGE_TYPE_RUN_COMMAND /\ p = payload /\
     len = String.length payload).
Proof.
  intros payload result. subst result. unfold send_command.
  cbn [build_payload]. rewrite build_payload_some. fold payload.
  remember (root_atom_contents o) as answer eqn:Hanswer.
  assert (Hcut : forall socket_path,
            answer = Some socket_path ->
            exists sp, answer = Some sp /\
              sun_path socket_path = sun_path sp /\
              String.length (sun_path socket_path) =
                Nat.min (sun_path_size - 1) (String.length sp) /\
              String.prefix (sun_path socket_path) sp = true /\
              ((String.length sp <= sun_path_size - 1)%nat ->
               sun_path socket_path = sp)).
  { intros sp Hsp. exists sp. split; [exact Hsp|]. split; [reflexivity|].
    unfold sun_path. split; [apply length_substring|].
    split; [apply prefix_substring|apply substring_all]. }
  destruct answer as [socket_path|].
  2:{ cbn. split; [auto|]. split.
      - split; [discriminate|]. intros (sp & r & H & _). discriminate H.
      - repeat split; intros; repeat destruct H as [H|H];
          try discriminate H; contradiction. }
  specialize (Hcut socket_path eq_refl).
  destruct (socket_fd o =? -1) eqn:Hsock.
  { apply Z.eqb_eq in Hsock. cbn. split; [auto|]. split.
    - split; [discriminate|]. intros (sp & r & _ & H & _). contradiction.
    - repeat split; intros; repeat destruct H as [H|H];
        try discriminate H; contradiction. }
  apply Z.eqb_neq in Hsock.
  destruct (connect_to o (sun_path socket_path) <? 0) eqn:Hconn.
  { apply Z.ltb_lt in Hconn. cbn. split; [auto|]. split.
    - split; [discriminate|].
      intros (sp & r & [= <-] & _ & H & _). lia.
    - split; [|split].
      + intros s H. repeat destruct H as [H|H];
          try discriminate H; contradiction.
      + intros path H. repeat destruct H as [H|H];
          try discriminate H; try contradiction.
        injection H as <-. exact Hcut.
      + intros type len p H. repeat destruct H as [H|H];
          try discriminate H; contradiction. }
  apply Z.ltb_ge in Hconn.
  assert (Hconnect : forall e path,
            In (Connect path)
              ([SetVerbosity; Connect (sun_path socket_path);
                Send I3_IPC_MESSAGE_TYPE_RUN_COMMAND
                  (String.length payload) payload] ++ e) ->
            (forall x, ~ In (Connect x) e) ->
            exists sp, Some socket_path = Some sp /\
              path = sun_path sp /\
              String.length path =
                Nat.min (sun_path_size - 1) (String.length sp) /\
              String.prefix path sp = true /\
              ((String.length sp <= sun_path_size - 1)%nat -> path = sp)).
  { intros e path H He. cbn in H. destruct H as [H|[H|[H|H]]];
      try discriminate H; [|exfalso; exact (He _ H)].
    injection H as <-. exact Hcut. }
  assert (Hsend : forall e type len p,
            In (Send type len p)
              ([SetVerbosity; Connect (sun_path socket_path);
                Send I3_IPC_MESSAGE_TYPE_RUN_COMMAND
                  (String.length payload) payload] ++ e) ->
            (forall a b c, ~ In (Send a b c) e) ->
            type = I3_IPC_MESSAGE_TYPE_RUN_COMMAND /\ p = payload /\
            len = String.length payload).
  { intros e type len p H He. cbn in H. destruct H as [H|[H|[H|H]]];
      try discriminate H; [|exfalso; exact (He _ _ _ H)].
    injection H as <- <- <-. auto. }
  assert (Hnil : forall A (x : A), ~ In x []) by (intros A x []).
  destruct (ipc_send_message o payload =? -1) eqn:Hsent.
  { apply Z.eqb_eq in Hsent. cbn [fst snd]. split; [auto|]. split.
    - split; [discriminate|].
      intros (sp & r & _ & _ & _ & H & _). contradiction.
    - split; [|split].
      + intros s H. repeat destruct H as [H|H];
          try discriminate H; contradiction.
      + intros path H. apply (Hconnect [] path); [|intros x; apply Hnil].
        rewrite List.app_nil_r. exact H.
      + intros type len p H.
        apply (Hsend [] type len p); [|intros a b c; apply Hnil].
        rewrite List.app_nil_r. exact H. }
  apply Z.eqb_neq in Hsent.
  destruct (ipc_recv_message o) as [[ret reply_type] reply] eqn:Hrecv.
  destruct (ret =? 0) eqn:Hret; cbn [negb].
  2:{ apply Z.eqb_neq in Hret. cbn [fst snd]. split.
      - destruct (ret =? -1); auto.
      - split.
        + split.
          * destruct (ret =? -1); discriminate.
          * intros (sp & r & _ & _ & _ & _ & [= H _ _]). contradiction.
        + split; [|split].
          * intros s H. repeat destruct H as [H|H];
              try discriminate H; contradiction.
          * intros path H. apply (Hconnect [] path); [|intros x; apply Hnil].
            rewrite List.app_nil_r. exact H.
          * intros type len p H.
            apply (Hsend [] type len p); [|intros a b c; apply Hnil].
            rewrite List.app_nil_r. exact H. }
  apply Z.eqb_eq in Hret. subst ret.
  destruct (reply_type =? I3_IPC_REPLY_TYPE_COMMAND) eqn:Htype; cbn [negb].
  2:{ apply Z.eqb_neq in Htype. cbn [fst snd]. split; [auto|]. split.
      - split; [discriminate|].
        intros (sp & r & _ & _ & _ & _ & [= H _]). contradiction.
      - split; [|split].
        + intros s H. repeat destruct H as [H|H];
            try discriminate H; contradiction.
        + intros path H. apply (Hconnect [] path); [|intros x; apply Hnil].
          rewrite List.app_nil_r. exact H.
        + intros type len p H.
          apply (Hsend [] type len p); [|intros a b c; apply Hnil].
          rewrite List.app_nil_r. exact H. }
  apply Z.eqb_eq in Htype. subst reply_type. cbn [fst snd].
  split; [auto|]. split.
  - split; [|reflexivity]. intros _. exists socket_path, reply.
    repeat split; assumption.
  - split; [|split].
    + intros s H. apply List.in_app_or in H. destruct H as [H|[H|[]]].
      * repeat destruct H as [H|H]; try discriminate H; contradiction.
      * injection H as <-. auto.
    + intros path H. apply (Hconnect _ path H).
      intros x [Hx|[]]. discriminate Hx.
    + intros type len p H. apply (Hsend _ type len p H).
      intros a b c [Hx|[]]. discriminate Hx.
Qed.

(** ** Further properties: the buffer for the working directory *)

Lemma getcwd_loop_finds (len : Z) (fuel : nat) : forall size k,
  0 <= len < 2 ^ 63 ->
  size = 1024 * 2 ^ Z.of_nat k -> size < 2 ^ 64 ->
  size <= 2 * len \/ size = 1024 ->
  len < size * 2 ^ Z.of_nat fuel ->
  exists s j,
    getcwd_loop fuel (Some len) size = Some (Getcwd_ok, s) /\
    s = 1024 * 2 ^ Z.of_nat j /\ (k <= j <= k + fuel)%nat /\
    len < s < 2 ^ 64 /\ (s <= 2 * len \/ s = 1024).
Proof.
  induction fuel as [|fuel IH]; intros size k Hlen Hsize Hmax Htight Hfuel.
  - assert (Hpos : 0 < size) by (subst size; lia).
    cbn [getcwd_loop getcwd].
    destruct (size =? 0) eqn:Hz; [apply Z.eqb_eq in Hz; lia|].
    change (2 ^ Z.of_nat 0) with 1 in Hfuel.
    destruct (len <? size) eqn:Hfit; [|apply Z.ltb_ge in Hfit; lia].
    apply Z.ltb_lt in Hfit.
    exists size, k. repeat split; try assumption; lia.
  - assert (Hpos : 0 < size) by (subst size; lia).
    cbn [getcwd_loop getcwd].
    destruct (size =? 0) eqn:Hz; [apply Z.eqb_eq in Hz; lia|].
    destruct (len <? size) eqn:Hfit.
    + apply Z.ltb_lt in Hfit.
      exists size, k. repeat split; try assumption; lia.
    + apply Z.ltb_ge in Hfit.
      rewrite Z.mod_small by lia.
      destruct (IH (size * 2) (S k)) as (s & j & Hrun & Hs & Hj & Hb & Ht).
      * exact Hlen.
      * rewrite Nat2Z.inj_succ, Z.pow_succ_r by lia. lia.
      * lia.
      * left. lia.
      * rewrite Nat2Z.inj_succ, Z.pow_succ_r in Hfuel by lia. lia.
      * exists s, j. repeat split; try assumption; lia.
Qed.

(** X13.  The buffer for the working directory (debug builds).  For a
    path of fewer than 2^63 bytes the doubling ends after at most 53
    rounds with [getcwd] succeeding: the size is then 1024 times a power
    of two, large enough for the path and its NUL, never more than twice
    the length of the path unless it is the first 1024 bytes, and the
    [size_t] has not wrapped.  When [getcwd] fails for another reason the
    loop ends at once and the buffer keeps its 1024 bytes. *)
Theorem main_getcwd_buffer (len : Z) (fuel : nat) :
  0 <= len < 2 ^ 63 -> (53 <= fuel)%nat ->
  (exists size j,
     main_getcwd fuel (Some len) = Some (Getcwd_ok, size) /\
     size = 1024 * 2 ^ Z.of_nat j /\ (j <= 53)%nat /\
     len < size < 2 ^ 64 /\ (size <= 2 * len \/ size = 1024)) /\
  main_getcwd fuel None = Some (Getcwd_failed, 1024).
Proof.
  intros Hlen Hfuel. split.
  - destruct (getcwd_loop_finds len 53 1024 0 Hlen)
      as (s & j & Hrun & Hs & Hj & Hb & Ht);
      [reflexivity | reflexivity | right; reflexivity | |].
    + change (1024 * 2 ^ Z.of_nat 53) with (2 ^ 63). lia.
    + exists s, j. split; [|repeat split; try assumption; lia].
      unfold main_getcwd. clear - Hrun Hfuel.
      revert fuel Hfuel Hrun. generalize 1024 as size.
      generalize 53%nat as n.
      intros n. induction n as [|n IH]; intros size fuel Hfuel Hrun.
      * destruct fuel; cbn [getcwd_loop] in *;
          destruct (getcwd (Some len) size); try discriminate; exact Hrun.
      * destruct fuel as [|fuel]; [lia|]. cbn [getcwd_loop] in *.
        destruct (getcwd (Some len) size); try exact Hrun.
        apply IH; [lia|exact Hrun].
  - unfold main_getcwd. destruct fuel; reflexivity.
Qed.

(** ** Further properties: one run of the drain after another *)

(** X14.  What the flush of one run reads is handed to the next run.  A
    run of the drain that finds nothing queued makes one call, the flush,
    and no call of a handler; what is queued afterwards is what arrived
    during that flush.  When a run follows another, it deals first, and in
    order, with the events that the flush of the first run left queued,
    then with what arrives while it runs. *)
Theorem xcb_prepare_cb_hands_over_to_the_next_run (w : World) :
  (queue w = [] ->
   forall fuel, exists w1,
     xcb_prepare_cb (S fuel) w = Ret tt w1 /\
     trace w1 =
       trace w ++ Call xcb_flush :: map Arrive (brought xcb_flush w) /\
     queue w1 = brought xcb_flush w) /\
  (forall fuel fuel' w1 w2,
     xcb_prepare_cb fuel w = Ret tt w1 ->
     xcb_prepare_cb fuel' w1 = Ret tt w2 ->
     exists tr1 es1 tr2 es2,
       trace w1 = trace w ++ tr1 ++ Call xcb_flush :: map Arrive es1 /\
       queue w1 = es1 /\
       trace w2 = trace w1 ++ tr2 ++ Call xcb_flush :: map Arrive es2 /\
       processed tr2 = map drain_call (es1 ++ arrived tr2) /\
       queue w2 = es2).
Proof.
  split.
  - intros Hq fuel. exists (after_call xcb_flush w).
    split; [|split].
    + unfold xcb_prepare_cb, xcb_flush_out. cbn [xcb_prepare_cb_loop].
      unfold bind at 1. unfold bind at 1.
      destruct (xcb_poll_for_event_spec w)
        as [[_ Hpoll]|(e & v' & _ & Hcons & _)].
      * rewrite Hpoll. cbn [ret]. unfold bind. rewrite call_eq. reflexivity.
      * rewrite Hq in Hcons. discriminate Hcons.
    + apply after_call_trace.
    + rewrite after_call_queue, Hq. reflexivity.
  - intros fuel fuel' w1 w2 H1 H2.
    destruct (xcb_prepare_cb_drains _ _ _ H1) as (_ & tr1 & es1 & T1 & _ & Q1).
    destruct (xcb_prepare_cb_drains _ _ _ H2) as (_ & tr2 & es2 & T2 & P2 & Q2).
    exists tr1, es1, tr2, es2. rewrite Q1 in P2. auto.
Qed.

(** ** Further properties: the three ways [main] begins *)

Lemma handle_option_quiet socket_path r st :
  forallb (fun e => negb (talks_to_i3 e) && negb (loads_configuration e))
    (fst (handle_option socket_path r st)) = true.
Proof.
  unfold handle_option, usage.
  repeat match goal with
  | |- context [if ?b then _ else _] => destruct b
  | |- context [match ?o with Some _ => _ | None => _ end] => destruct o
  end; reflexivity.
Qed.

Lemma parse_options_quiet socket_path rs : forall st,
  forallb (fun e => negb (talks_to_i3 e) && negb (loads_configuration e))
    (fst (parse_options socket_path rs st)) = true.
Proof.
  induction rs as [|r rs IH]; intros st; [reflexivity|].
  cbn [parse_options].
  pose proof (handle_option_quiet socket_path r st) as Hstep.
  destruct (handle_option socket_path r st) as [e [st1|status]];
    [|exact Hstep].
  specialize (IH st1).
  destruct (parse_options socket_path rs st1) as [e' res].
  cbn [fst] in *. rewrite forallb_app, Hstep, IH. reflexivity.
Qed.

Lemma send_command_loads_nothing o args :
  forallb (fun e => negb (loads_configuration e))
    (fst (send_command o args)) = true.
Proof.
  unfold send_command.
  destruct (ipc_recv_message o) as [[ret reply_type] reply].
  repeat match goal with
  | |- context [if ?b then _ else _] => destruct b
  | |- context [match ?o with Some _ => _ | None => _ end] => destruct o
  end; reflexivity.
Qed.

Lemma handle_option_check socket_path r st e st' :
  handle_option socket_path r st = (e, Went_on st') ->
  only_check_config st' = only_check_config st || is_check_config r.
Proof.
  unfold handle_option, usage, is_check_config. intros H. split_switch H;
    try discriminate H; injection H as <- <-;
    read_tests;
    repeat match goal with
    | E : g_opt r = _ |- _ => rewrite E in *
    end;
    repeat match goal with
    | E : (_ =? _) = false |- _ => try rewrite E; clear E
    end;
    cbn; rewrite ?orb_false_r, ?orb_true_r; auto.
Qed.

Lemma parse_options_check socket_path rs : forall st e st',
  parse_options socket_path rs st = (e, Went_on st') ->
  only_check_config st' = only_check_config st || existsb is_check_config rs.
Proof.
  induction rs as [|r rs IH]; intros st e st' Hrun.
  - cbn in Hrun. injection Hrun as <- <-. cbn. rewrite orb_false_r.
    reflexivity.
  - cbn [parse_options] in Hrun.
    destruct (handle_option socket_path r st) as [e1 [st1|status]] eqn:Hstep;
      [|discriminate Hrun].
    destruct (parse_options socket_path rs st1) as [e2 res] eqn:Hrest.
    injection Hrun as <- ->.
    rewrite (IH st1 e2 st' Hrest), (handle_option_check _ _ _ _ _ Hstep).
    cbn [existsb]. rewrite orb_assoc. reflexivity.
Qed.

Lemma forallb_neither e :
  forallb (fun x => negb (talks_to_i3 x) && negb (loads_configuration x)) e =
    true ->
  existsb talks_to_i3 e = false /\ existsb loads_configuration e = false.
Proof.
  induction e as [|x e IH]; [auto|].
  cbn. intros H. apply andb_prop in H as [Hx He].
  apply andb_prop in Hx as [Ht Hl]. destruct (IH He) as [-> ->].
  destruct (talks_to_i3 x); [discriminate Ht|].
  destruct (loads_configuration x); [discriminate Hl|]. auto.
Qed.

(** X15.  The three ways [main] begins, once the options have been read
    without an exit.  With [-C] among the options the configuration is
    validated and the process ends with status 0 or 1 by the answer of
    [load_configuration], whether or not plain arguments are left: nothing
    is sent to a running i3.  Without [-C], plain arguments are sent as
    one command to the running i3 and the process ends with the status of
    that exchange; the configuration is not loaded.  Only without [-C] and
    without plain arguments does [main] go on to start the window manager,
    having neither validated the configuration nor talked to a running
    i3. *)
Theorem main_front_modes (is_debug_build : bool) (o : ipc_answers)
    (load_configuration_ok : bool) (argv0 : string)
    (rs : list getopt_result) (args : list string)
    (e : list front_effect) (st : cmdline) :
  parse_options (root_atom_contents o) rs
    (initial_cmdline is_debug_build argv0) = (e, Went_on st) ->
  let run := main_front is_debug_build o load_configuration_ok argv0 rs args in
  (existsb is_check_config rs = true ->
     snd run = Exits (if load_configuration_ok then 0 else 1) /\
     last (fst run) = Some (LoadConfiguration (override_configpath st)) /\
     existsb talks_to_i3 (fst run) = false) /\
  (existsb is_check_config rs = false -> args <> [] ->
     snd run = Exits (snd (send_command o args)) /\
     fst run = InitLogging :: e ++ fst (send_command o args) /\
     existsb loads_configuration (fst run) = false) /\
  (existsb is_check_config rs = false -> args = [] ->
     snd run = Went_on st /\
     existsb talks_to_i3 (fst run) = false /\
     existsb loads_configuration (fst run) = false).
Proof.
  intros Hparse run. subst run. unfold main_front.
  pose proof (parse_options_quiet (root_atom_contents o) rs
                (initial_cmdline is_debug_build argv0)) as Hquiet.
  pose proof (parse_options_check _ _ _ _ _ Hparse) as Hcheck.
  rewrite Hparse in *. cbn [fst] in Hquiet.
  destruct (forallb_neither e Hquiet) as [Htalk Hload].
  change (only_check_config (initial_cmdline is_debug_build argv0))
    with false in Hcheck. cbn [orb] in Hcheck. rewrite Hcheck.
  destruct (existsb is_check_config rs).
  - split; [|split; intros [=]]. intros _.
    cbn [fst snd]. split; [reflexivity|].
    split.
    + change (InitLogging :: e ++ [LoadConfiguration (override_configpath st)])
        with ((InitLogging :: e) ++
              [LoadConfiguration (override_configpath st)]).
      apply last_snoc.
    + cbn [existsb talks_to_i3 orb]. rewrite existsb_app, Htalk. reflexivity.
  - split; [intros [=]|]. destruct args as [|arg args].
    + split; [intros _ Hne; contradiction|]. intros _ _.
      cbn [fst snd existsb talks_to_i3 loads_configuration orb].
      rewrite !existsb_app, Htalk, Hload. auto.
    + split; [|intros _ [=]]. intros _ _.
      pose proof (send_command_loads_nothing o (arg :: args)) as Hsend.
      destruct (send_command o (arg :: args)) as [e' status].
      cbn [fst snd existsb loads_configuration orb] in *.
      split; [reflexivity|]. split; [reflexivity|].
      rewrite existsb_app, Hload. cbn [orb].
      clear - Hsend. induction e' as [|x e' IH]; [reflexivity|].
      cbn in *. apply andb_prop in Hsend as [Hx He]. rewrite (IH He).
      destruct (loads_configuration x); [discriminate Hx|reflexivity].
Qed.

End Model.

(** * Concrete runs

    A server without events of its own: the oracle answers every call
    with no traffic.  [sd_listen_fds] reports two descriptors, the client
    made for a descriptor is numbered 100 above it, the colormap id is 77,
    and every other call answers 0 (so [tree_restore] fails and
    [xcb_request_check] reports no error). *)

Definition quiet_oracle (c : extcall) (x : unit) : ext_result unit :=
  {| er_state := x;
     er_traffic := [];
     er_value :=
       match c with
       | sd_listen_fds _ => 2
       | ipc_new_client_on_fd fd => 100 + fd
       | xcb_generate_id => 77
       | _ => 0
       end |}.

(** The same server, except that it refuses to create a colormap (error
    code 8, BadMatch). *)
Definition no_colormap_oracle (c : extcall) (x : unit) : ext_result unit :=
  {| er_state := x;
     er_traffic := [];
     er_value :=
       match c with
       | xcb_generate_id => 77
       | xcb_request_check _ => 8
       | _ => 0
       end |}.

(** A MapNotify (type 19). *)
Definition map_notify : xcb_generic_event_t :=
  {| response_type := 19; pad0 := 0; sequence := 12; ev_data := [] |}.

(** A server that answers the handling of a MapRequest with that
    MapNotify, which libxcb reads at once into its queue. *)
Definition busy_oracle (c : extcall) (x : unit) : ext_result unit :=
  {| er_state := x;
     er_traffic :=
       match c with
       | handle_event 20 _ => [XArrive map_notify; XRead]
       | _ => []
       end;
     er_value := 0 |}.

Definition map_request : xcb_generic_event_t :=
  {| response_type := 20; pad0 := 0; sequence := 7; ev_data := [4194310] |}.

(** An UnmapNotify sent by a client: type 18 with bit 7 set. *)
Definition sent_unmap_notify : xcb_generic_event_t :=
  {| response_type := 146; pad0 := 0; sequence := 8; ev_data := [4194310] |}.

(** An error packet, BadWindow. *)
Definition bad_window : xcb_generic_event_t :=
  {| response_type := 0; pad0 := 3; sequence := 5; ev_data := [] |}.

Definition argb_visual : xcb_visualtype_t :=
  {| visual_id := 99; visual_class := 4 |}.

Definition root_visual : xcb_visualtype_t :=
  {| visual_id := 33; visual_class := 4 |}.

(** A screen whose root window has depth 24 and that also lists a visual
    of depth 32, and one that does not. *)
Definition screen_with_argb : xcb_screen_t :=
  {| scr_root := 1; scr_root_depth := 24; scr_default_colormap := 32;
     scr_root_visual := root_visual;
     allowed_depths :=
       [ {| depth := 24; visuals := [root_visual] |};
         {| depth := 32; visuals := [argb_visual] |} ] |}.

Definition screen_without_argb : xcb_screen_t :=
  {| scr_root := 1; scr_root_depth := 24; scr_default_colormap := 32;
     scr_root_visual := root_visual;
     allowed_depths := [ {| depth := 24; visuals := [root_visual] |} ] |}.

(** Decimal numerals, for [parse_long] at base 10. *)
Fixpoint parse_digits (s : string) (acc : Z) : option Z :=
  match s with
  | EmptyString => Some acc
  | String c s' =>
      let d := Z.of_nat (Ascii.nat_of_ascii c) - 48 in
      if (0 <=? d) && (d <=? 9) then parse_digits s' (10 * acc + d) else None
  end.

Definition decimal (s : string) (base : Z) : option Z :=
  match s with
  | EmptyString => None
  | _ => parse_digits s 0
  end.

(** The part of a path before its last slash. *)
Fixpoint has_slash (s : string) : bool :=
  match s with
  | EmptyString => false
  | String c s' => Ascii.eqb c (Ascii.ascii_of_nat 47) || has_slash s'
  end.

Fixpoint parent_directory (s : string) : string :=
  match s with
  | EmptyString => EmptyString
  | String c s' =>
      if has_slash s' then String c (parent_directory s') else EmptyString
  end.

(** A process right after start: descriptors 3 and 4 came from the
    supervisor with close-on-exec set, the restart descriptor is 9, all
    signals have their default disposition, the SHM log exists, one error
    packet is in libxcb's queue and two events are on the socket. *)
Definition fresh_process : process :=
  {| fdflags := {[ 3 := 1; 4 := 1; 9 := 0 ]};
     environ := {[ "_I3_RESTART_FD" := "9" ]};
     sigdisp := fun _ => SIG_DFL;
     atexit_handlers := [] |}.

Definition fresh_globals : globals :=
  {| shmlogname := "/i3-log-1234";
     ipc_socket_path := "/run/user/1000/i3/ipc-socket.1234";
     root_depth := 0; colormap := 0; visual_type := None; listen_fds := 0 |}.

Definition fresh_world : World unit :=
  {| ext := tt;
     conn := {| xcb_buffer := [bad_window];
                xcb_wire := [map_request; sent_unmap_notify] |};
     main_loop := {| io_watchers := []; prepare_active := false;
                     pending := []; activecnt := 0;
                     signal_watchers := []; sig_pending := [] |};
     proc := fresh_process;
     glob := fresh_globals;
     trace := [] |}.

(** The same process with the loop as [main] leaves it: the watchers of
    the X connection started, [i3_exit] registered. *)
Definition running_world : World unit :=
  {| ext := tt;
     conn := {| xcb_buffer := [bad_window];
                xcb_wire := [map_request; sent_unmap_notify] |};
     main_loop := {| io_watchers := [(5, cb_xcb_got_event)];
                     prepare_active := true;
                     pending := []; activecnt := 2;
                     signal_watchers := []; sig_pending := [] |};
     proc := {| fdflags := {[ 3 := 0; 4 := 0; 5 := 1 ]};
                environ := ∅;
                sigdisp := fun _ => SIG_DFL;
                atexit_handlers := [atexit_i3_exit] |};
     glob := fresh_globals;
     trace := [] |}.

(** Two wakeups: an event arrives but the socket is not reported
    readable; then the socket is reported readable with nothing new. *)
Definition two_wakeups : list wakeup :=
  [ {| wk_arrivals := [map_notify]; wk_readable := []; wk_signals := [] |};
    {| wk_arrivals := []; wk_readable := [5]; wk_signals := [] |} ].

(** The command line [i3 --restart /tmp/i3-restart/layout
    --disable-signalhandler]. *)
Definition sample_options : options :=
  {| autostart := true;
     layout_path := Some "/tmp/i3-restart/layout";
     delete_layout_path := true;
     disable_signalhandler := true |}.

(** The fresh process after lines 956 to 977 with the signal handler
    disabled, and after the whole bring-up. *)
Definition core_handlers_world : World unit :=
  match main_setup_signals unit quiet_oracle true fresh_world with
  | Ret _ _ _ w => w
  | _ => fresh_world
  end.

Definition brought_up_world : World unit :=
  match
    main_bring_up unit quiet_oracle 3 decimal parent_directory 4
      sample_options screen_with_argb 5 fresh_world
  with
  | Ret _ _ _ w => w
  | _ => fresh_world
  end.

(** ** Concrete inputs for the further properties *)

(** A server and libraries for which every check of the negotiation
    passes; like the quiet server otherwise. *)
Definition healthy_oracle (c : extcall) (x : unit) : ext_result unit :=
  {| er_state := x;
     er_traffic := [];
     er_value :=
       match c with
       | ev_default_loop | xcb_intern_atom_replies | xcb_get_geometry_reply
       | load_keymap => 1
       | xcb_generate_id => 77
       | _ => 0
       end |}.

(** [atoi] on the decimal numerals. *)
Definition decimal_atoi (s : string) : Z :=
  match parse_digits s 0 with
  | Some n => n
  | None => 0
  end.

(** The answers of [getopt_long] for
    [i3 --restart /tmp/i3-restart/layout -a -L /tmp/kept
        --disable-signalhandler]. *)
Definition sample_getopt : list getopt_result :=
  [ {| g_opt := 0; g_index := 8; g_optarg := "/tmp/i3-restart/layout" |};
    {| g_opt := chr "a"; g_index := 8; g_optarg := "" |};
    {| g_opt := chr "L"; g_index := 8; g_optarg := "/tmp/kept" |};
    {| g_opt := 0; g_index := 13; g_optarg := "" |} ].

(** A running i3 that answers a command, with its socket at a path of
    23 bytes. *)
Definition answering_i3 : ipc_answers :=
  {| root_atom_contents := Some "/run/user/1000/i3/ipc.s";
     socket_fd := 3;
     connect_to := fun _ => 0;
     ipc_send_message := fun _ => 0;
     ipc_recv_message := (0, 0, "[success]") |}.

(** A server that sends a MapNotify while the existing windows are being
    managed, that is, after the reconciliation drain. *)
Definition late_oracle (c : extcall) (x : unit) : ext_result unit :=
  {| er_state := x;
     er_traffic :=
       match c with
       | manage_existing_windows _ => [XArrive map_notify]
       | _ => []
       end;
     er_value := 0 |}.

(** The fresh process after the bring-up with that server. *)
Definition late_world : World unit :=
  match
    main_bring_up unit late_oracle 3 decimal parent_directory 4
      sample_options screen_with_argb 5 fresh_world
  with
  | Ret _ _ _ w => w
  | _ => fresh_world
  end.

(** A server with a MapNotify under way that reaches the socket while
    libxcb flushes for the first time; libxcb reads it then, as it does
    when it waits for the socket to take its requests.  The state of the
    outside says whether that event is still to come. *)
Definition flush_reads_oracle (c : extcall) (to_come : bool)
    : ext_result bool :=
  match c with
  | xcb_flush =>
      {| er_state := false;
         er_traffic := if to_come then [XArrive map_notify; XRead] else [];
         er_value := 0 |}
  | _ => {| er_state := to_come; er_traffic := []; er_value := 0 |}
  end.

(** The running process in front of that server. *)
Definition waiting_world : World bool :=
  {| ext := true;
     conn := conn unit running_world;
     main_loop := main_loop unit running_world;
     proc := proc unit running_world;
     glob := fresh_globals;
     trace := [] |}.

Example int_of_long_small : int_of_long 9 = 9.
Proof. reflexivity. Qed.

Example int_of_long_wraps : int_of_long 4294967295 = -1.
Proof. reflexivity. Qed.

Example decimal_9 : decimal "9" 10 = Some 9.
Proof. reflexivity. Qed.

Example decimal_rejects : decimal "9x" 10 = None.
Proof. reflexivity. Qed.

Example parent_directory_layout :
  parent_directory "/tmp/i3-restart/layout" = "/tmp/i3-restart".
Proof. reflexivity. Qed.

(** One run of the drain callback on the running process: the error
    packet is looked up, the two events are handled with bit 7 stripped,
    and the flush comes last. *)
Example xcb_prepare_cb_run :
  exists w',
    xcb_prepare_cb unit quiet_oracle 4 running_world = Ret unit unit tt w' /\
    calls (trace unit w') =
      [event_is_ignored 5 0; handle_event 20 map_request;
       handle_event 18 sent_unmap_notify; xcb_flush] /\
    queue unit w' = [].
Proof. eexists. split; [reflexivity|]. split; reflexivity. Qed.

(** The quiet server makes no event arrive. *)
Lemma quiet_oracle_calm : calm unit quiet_oracle.
Proof. intros c x. constructor. Qed.

(** With a server that answers the handling of the MapRequest by a
    MapNotify, that event is handled in the same run, after the events
    that were there before. *)
Example xcb_prepare_cb_busy_run :
  exists w',
    xcb_prepare_cb unit busy_oracle 5 running_world = Ret unit unit tt w' /\
    trace unit w' =
      [Call (event_is_ignored 5 0); Log (LogX11Error 5 3);
       Call (handle_event 20 map_request); Arrive map_notify;
       Call (handle_event 18 sent_unmap_notify);
       Call (handle_event 19 map_notify); Call xcb_flush] /\
    queue unit w' = [].
Proof. eexists. split; [vm_compute; reflexivity|]. split; vm_compute; reflexivity. Qed.

(** The loop over the two wakeups: the event that arrived without the
    socket being reported readable is handled before the second wait. *)
Example ev_loop_run :
  exists w',
    ev_loop unit quiet_oracle 4 8 two_wakeups running_world =
      Stop unit unit (Blocked unit w') /\
    trace unit w' =
      [Call (event_is_ignored 5 0); Log (LogX11Error 5 3);
       Call (handle_event 20 map_request);
       Call (handle_event 18 sent_unmap_notify); Call xcb_flush; Wait;
       Arrive map_notify; Call (handle_event 19 map_notify);
       Call xcb_flush; Wait; Call xcb_flush; Wait].
Proof. eexists. split; vm_compute; reflexivity. Qed.

(** ** The statements at these inputs *)

(** The failing run: the drain deals with the three events that are
    there and flushes; the MapNotify arrives and is read during the flush,
    and the loop goes to sleep with it in libxcb's queue and nothing left
    on the socket to wake it. *)
Lemma C1_flush_after_the_drain_leaves_events_queued_witness :
  prepare_active (main_loop bool waiting_world) = true /\
  exists w',
    ev_loop bool flush_reads_oracle 4 5 [] waiting_world =
      Stop bool unit (Blocked bool w') /\
    trace bool w' =
      [Call (event_is_ignored 5 0); Log (LogX11Error 5 3);
       Call (handle_event 20 map_request);
       Call (handle_event 18 sent_unmap_notify);
       Call xcb_flush; Arrive map_notify; Wait] /\
    xcb_buffer (conn bool w') = [map_notify] /\
    xcb_wire (conn bool w') = [] /\
    exists tr es,
      trace bool w' =
        trace bool waiting_world ++
        tr ++ Call xcb_flush :: map Arrive es ++ [Wait] /\
      processed tr =
        map drain_call (queue bool waiting_world ++ arrived tr) /\
      queue bool w' = es.
Proof.
  split; [reflexivity|].
  destruct (C1_flush_after_the_drain_leaves_events_queued bool
              flush_reads_oracle 4 waiting_world eq_refl)
    as (_ & _ & _ & Hsleep).
  assert (Hrun : exists w1,
            xcb_prepare_cb bool flush_reads_oracle 4 waiting_world =
              Ret bool unit tt w1) by (eexists; vm_compute; reflexivity).
  destruct Hrun as [w1 Hrun].
  destruct (Hsleep 3%nat w1) as (tr & es & w' & Hloop & Htr & Hp & Hq).
  - reflexivity.
  - vm_compute. discriminate.
  - exact Hrun.
  - exists w'. split; [exact Hloop|].
    assert (Hw' : trace bool w' =
              [Call (event_is_ignored 5 0); Log (LogX11Error 5 3);
               Call (handle_event 20 map_request);
               Call (handle_event 18 sent_unmap_notify);
               Call xcb_flush; Arrive map_notify; Wait] /\
            xcb_buffer (conn bool w') = [map_notify] /\
            xcb_wire (conn bool w') = []).
    { revert Hloop. vm_compute. intros [= <-]. repeat split. }
    destruct Hw' as (Ht & Hb & Hwire).
    split; [exact Ht|]. split; [exact Hb|]. split; [exact Hwire|].
    exists tr, es. split; [exact Htr|]. split; [exact Hp|exact Hq].
Defined.


Lemma C3_existing_window_reconciliation_witness :
  exists w',
    main_manage_existing unit quiet_oracle 4 1 fresh_world =
      Ret unit unit tt w' /\
    exists before after,
      trace unit w' =
        trace unit fresh_world ++
        before ++ Call (manage_existing_windows 1) :: after /\
      calls before =
        xcb_grab_server :: xcb_aux_sync ::
        map (handle_event XCB_MAP_REQUEST)
            (List.filter is_map_request
               (queue unit fresh_world ++ arrived before)) /\
      calls after = [xcb_ungrab_server] /\
      queue unit w' = arrived after.
Proof.
  destruct (C3_existing_window_reconciliation unit quiet_oracle 4 1
              fresh_world) as (Horder & _ & Hterm).
  destruct (Hterm quiet_oracle_calm) as [w' Hw'].
  { vm_compute. lia. }
  exists w'. split; [exact Hw'|]. exact (Horder w' Hw').
Defined.

Lemma C4_socket_activation_descriptors_witness :
  exists w',
    main_socket_activation unit quiet_oracle 3 fresh_world =
      Ret unit unit tt w' /\
    (3, cb_ipc_new_client) ∈ io_watchers (main_loop unit w') /\
    (4, cb_ipc_new_client) ∈ io_watchers (main_loop unit w') /\
    fdflags (proc unit w') !! 3 = Some (cloexec_cleared 1) /\
    survives_exec (fdflags (proc unit w')) 3 /\
    survives_exec (fdflags (proc unit w')) 4.
Proof.
  destruct (C4_socket_activation_descriptors unit quiet_oracle 3 fresh_world)
    as (w' & Hrun & _ & Hfds).
  exists w'. split; [exact Hrun|].
  destruct (Hfds 3) as [Hin3 Hfl3]; [vm_compute; split; congruence|].
  destruct (Hfds 4) as [Hin4 Hfl4]; [vm_compute; split; congruence|].
  destruct (Hfl3 1) as [Hcleared3 Hsurv3];
    [vm_compute; reflexivity | lia |].
  destruct (Hfl4 1) as [_ Hsurv4];
    [vm_compute; reflexivity | lia |].
  repeat split; assumption.
Defined.

Lemma C5_layout_restoration_witness :
  (exists w',
     main_restore_tree unit quiet_oracle parent_directory
       (Some "/tmp/i3-restart/layout") true fresh_world =
       Ret unit unit tt w' /\
     calls_since unit fresh_world w'
       [tree_restore "/tmp/i3-restart/layout";
        unlink "/tmp/i3-restart/layout"; rmdir "/tmp/i3-restart";
        tree_init]) /\
  (exists w',
     main_bring_up unit quiet_oracle 3 decimal parent_directory 4
       sample_options screen_with_argb 5 fresh_world = Ret unit unit tt w').
Proof.
  destruct (C5_layout_restoration unit quiet_oracle 3 decimal
              parent_directory "/tmp/i3-restart/layout" true fresh_world)
    as ((w' & Hrun & Hcalls) & _ & Hterm).
  split.
  - exists w'. split; [exact Hrun | exact Hcalls].
  - apply (Hterm quiet_oracle_calm). vm_compute. lia.
Defined.

Lemma C6_restart_descriptor_witness :
  exists w',
    main_restart_fd unit quiet_oracle decimal fresh_world =
      Ret unit unit tt w' /\
    calls_since unit fresh_world w'
      [ipc_new_client_on_fd 9; ipc_confirm_restart 109].
Proof.
  destruct (C6_restart_descriptor unit quiet_oracle decimal fresh_world)
    as (_ & _ & Hvalid & _).
  destruct (Hvalid "9" 9) as (w' & Hrun & Hcalls).
  - vm_compute. reflexivity.
  - reflexivity.
  - vm_compute. congruence.
  - exists w'. split; [exact Hrun | exact Hcalls].
Defined.

Lemma C7_colour_configuration_witness :
  (exists w',
     main_setup_visual unit quiet_oracle 4 screen_without_argb fresh_world =
       Ret unit unit tt w' /\
     root_depth (glob unit w') = 24 /\
     colormap (glob unit w') = 32 /\
     visual_type (glob unit w') = Some root_visual) /\
  (exists w',
     main_setup_visual unit quiet_oracle 4 screen_with_argb fresh_world =
       Ret unit unit tt w' /\
     visual_type (glob unit w') = Some argb_visual /\
     root_depth (glob unit w') = 32 /\
     colormap (glob unit w') = 77) /\
  (exists w',
     main_setup_visual unit no_colormap_oracle 4 screen_with_argb
       fresh_world = Stop unit unit (Exited unit EXIT_FAILURE w') /\
     exists tr,
       trace unit w' = trace unit fresh_world ++ tr /\
       In (Log (LogColormapError 8)) tr).
Proof.
  split; [|split].
  - destruct (C7_colour_configuration unit quiet_oracle 4 screen_without_argb
                fresh_world) as [Hfallback _].
    destruct (Hfallback eq_refl) as (w' & Hrun & Hdepth & Hmap & Hvis & _).
    exists w'. repeat split; assumption.
  - destruct (C7_colour_configuration unit quiet_oracle 4 screen_with_argb
                fresh_world) as [_ Hfound].
    destruct (Hfound argb_visual eq_refl) as (_ & Hok & _).
    destruct (Hok eq_refl) as (w' & Hrun & Hvis & Hdepth & Hmap).
    exists w'. repeat split; assumption.
  - destruct (C7_colour_configuration unit no_colormap_oracle 4
                screen_with_argb fresh_world) as [_ Hfound].
    destruct (Hfound argb_visual eq_refl) as (_ & _ & Hfail).
    apply Hfail. vm_compute. congruence.
Defined.

(** The server lists a visual of depth 32 and then refuses the colormap:
    the process exits with status 1 instead of falling back. *)
Lemma C7_counterexample :
  (exists d, In d (allowed_depths screen_with_argb) /\ depth d = 32) /\
  exists w',
    main_setup_visual unit no_colormap_oracle 4 screen_with_argb fresh_world =
      Stop unit unit (Exited unit EXIT_FAILURE w') /\
    EXIT_FAILURE <> 0.
Proof.
  split.
  - eexists. split; [right; left; reflexivity | reflexivity].
  - eexists. split; [vm_compute; reflexivity | vm_compute; congruence].
Qed.

(** On the running process: two watchers for SIGUSR1, and SIGUSR2, which
    terminates by default, kills the process where it stands. *)
Lemma C8_term_handlers_SIGUSR1_twice_SIGUSR2_never_witness :
  signal_watchers (main_loop unit running_world) = [] /\
  exists w',
    setup_term_handlers unit running_world = Ret unit unit tt w' /\
    map snd (signal_watchers (main_loop unit w')) =
      [SIGUSR1; SIGUSR1; SIGTERM; SIGALRM; SIGINT; SIGHUP] /\
    default_disposition SIGUSR2 = Term /\
    deliver unit quiet_oracle 1 SIGUSR2 w' =
      Stop unit unit (Killed unit SIGUSR2 w').
Proof.
  split; [reflexivity|].
  destruct (C8_term_handlers_SIGUSR1_twice_SIGUSR2_never unit quiet_oracle
              running_world eq_refl)
    as (w' & Hrun & Hwatchers & _ & _ & _ & _ & _ & Hkill).
  exists w'. split; [exact Hrun|]. split; [rewrite Hwatchers; reflexivity|].
  split; [reflexivity|]. exact (Hkill eq_refl 0%nat).
Defined.

Lemma C9_core_signal_handler_witness :
  exists w1,
    main_setup_signals unit quiet_oracle true fresh_world =
      Ret unit unit tt w1 /\
    sigdisp (proc unit w1) SIGSEGV = core_action /\
    exists w2,
      deliver unit quiet_oracle 2 SIGSEGV w1 =
        Stop unit unit (Killed unit SIGSEGV w2) /\
      sigdisp (proc unit w2) SIGSEGV = SIG_DFL.
Proof.
  destruct (C9_core_signal_handler unit quiet_oracle true fresh_world)
    as (w1 & Hrun & Hon & _).
  destruct (Hon eq_refl SIGSEGV) as (Hdisp & _ & Hdeliver);
    [simpl; tauto|].
  exists w1. split; [exact Hrun|]. split; [exact Hdisp|].
  destruct (Hdeliver 0%nat) as (w2 & Hkilled & Hreset & _).
  exists w2. split; [exact Hkilled | exact Hreset].
Defined.

(** With the crash handler enabled, which is the default, SIGSEGV dumps
    core by default and yet [main] does not give it [handle_core_signal]:
    the one call it makes is [setup_signal_handler]. *)
Lemma C9_counterexample :
  default_disposition SIGSEGV = Core /\
  exists w0,
    main_setup_signals unit quiet_oracle false fresh_world =
      Ret unit unit tt w0 /\
    calls (trace unit w0) = [setup_signal_handler] /\
    sigdisp (proc unit w0) SIGSEGV <> core_action.
Proof.
  split; [reflexivity|].
  eexists. split; [vm_compute; reflexivity|].
  split; [reflexivity | vm_compute; congruence].
Qed.

Lemma C10_SIGPIPE_is_ignored_witness :
  main_bring_up unit quiet_oracle 3 decimal parent_directory 4
    sample_options screen_with_argb 5 fresh_world =
    Ret unit unit tt brought_up_world /\
  sigdisp (proc unit brought_up_world) SIGPIPE = SIG_IGN /\
  write_to_closed_peer unit quiet_oracle 1 brought_up_world =
    Ret unit Z (-1) brought_up_world /\
  forall v,
    ev_loop unit quiet_oracle 4 8 two_wakeups brought_up_world <>
      Stop unit unit (Killed unit SIGPIPE v).
Proof.
  destruct (C10_SIGPIPE_is_ignored unit quiet_oracle 3 4 decimal
              parent_directory fresh_world) as (_ & Hmain & _).
  destruct (C10_SIGPIPE_is_ignored unit quiet_oracle 3 4 decimal
              parent_directory brought_up_world) as (_ & _ & Hignored).
  assert (Hrun : main_bring_up unit quiet_oracle 3 decimal parent_directory 4
            sample_options screen_with_argb 5 fresh_world =
            Ret unit unit tt brought_up_world) by (vm_compute; reflexivity).
  split; [exact Hrun|].
  split; [exact (Hmain _ _ _ _ _ Hrun)|].
  destruct (Hignored (Hmain _ _ _ _ _ Hrun)) as (Hwrite & Halive & _).
  split; [exact (Hwrite 0%nat) | exact (Halive 8%nat two_wakeups)].
Defined.

(** ** The further properties at these inputs *)

Lemma healthy_oracle_calm : calm unit healthy_oracle.
Proof. intros c x. constructor. Qed.

Example option_help_is_a_failure :
  handle_option decimal_atoi None
    {| g_opt := chr "h"; g_index := 6; g_optarg := "" |}
    (initial_cmdline false "i3") =
  ([PrintUsage], Exits cmdline EXIT_FAILURE).
Proof. reflexivity. Qed.

Example shmlog_by_name :
  shmlog_size (initial_cmdline false "/usr/bin/i3-with-shmlog") = 26214400 /\
  shmlog_size (initial_cmdline false "/usr/bin/i3") = 0.
Proof. split; reflexivity. Qed.

Example send_command_run :
  send_command 0 0 108 answering_i3 ["floating"; "toggle"] =
  ([SetVerbosity; Connect "/run/user/1000/i3/ipc.s";
    Send 0 15 "floating toggle"; PrintLine "[success]"], 0).
Proof. reflexivity. Qed.

(** With room for 7 bytes only, the path is cut. *)
Example send_command_cut :
  fst (send_command 0 0 8 answering_i3 ["kill"]) =
  [SetVerbosity; Connect "/run/us"; Send 0 4 "kill"; PrintLine "[success]"].
Proof. reflexivity. Qed.

(** [-C] wins over plain arguments, which win over starting. *)
Example main_front_runs :
  snd (main_front decimal_atoi 0 0 108 false answering_i3 true "i3"
         [ {| g_opt := chr "C"; g_index := 0; g_optarg := "" |} ]
         ["kill"]) = Exits cmdline 0 /\
  snd (main_front decimal_atoi 0 0 108 false answering_i3 true "i3"
         [] ["kill"]) = Exits cmdline 0 /\
  (exists st,
     snd (main_front decimal_atoi 0 0 108 false answering_i3 true "i3"
            sample_getopt []) = Went_on cmdline st /\
     layout_path (opts st) = Some "/tmp/kept").
Proof.
  split; [reflexivity|]. split; [reflexivity|].
  eexists. split; reflexivity.
Qed.

Lemma xcb_prepare_cb_dispatch_arguments_witness :
  exists w1 tr,
    xcb_prepare_cb unit busy_oracle 5 running_world = Ret unit unit tt w1 /\
    trace unit w1 = trace unit running_world ++ tr /\
    In (Call (handle_event 18 sent_unmap_notify)) tr /\
    (forall type event, In (Call (handle_event type event)) tr ->
       response_type event <> 0 /\
       type = Z.land (response_type event) 127 /\
       0 <= type < 128 /\
       In event (queue unit running_world ++ arrived tr)).
Proof.
  assert (Hrun : exists w1,
            xcb_prepare_cb unit busy_oracle 5 running_world =
              Ret unit unit tt w1) by (eexists; vm_compute; reflexivity).
  destruct Hrun as [w1 Hrun].
  destruct (xcb_prepare_cb_dispatch_arguments unit busy_oracle 5
              running_world w1 Hrun) as (tr & Htr & Hhandle & _).
  exists w1, tr. split; [exact Hrun|]. split; [exact Htr|].
  split; [|exact Hhandle].
  assert (Hin : In (Call (handle_event 18 sent_unmap_notify))
                  (trace unit w1)).
  { revert Hrun. vm_compute. intros [= <-]. cbn. tauto. }
  rewrite Htr in Hin. exact Hin.
Defined.

Lemma main_bring_up_prepares_the_loop_witness :
  main_bring_up unit quiet_oracle 3 decimal parent_directory 4
    sample_options screen_with_argb 5 fresh_world =
    Ret unit unit tt brought_up_world /\
  prepare_active (main_loop unit brought_up_world) = true /\
  (5, cb_xcb_got_event) ∈ io_watchers (main_loop unit brought_up_world) /\
  atexit_handlers (proc unit brought_up_world) = [atexit_i3_exit] /\
  map snd (signal_watchers (main_loop unit brought_up_world)) =
    [SIGUSR1; SIGUSR1; SIGTERM; SIGALRM; SIGINT; SIGHUP].
Proof.
  assert (Hrun : main_bring_up unit quiet_oracle 3 decimal parent_directory
            4 sample_options screen_with_argb 5 fresh_world =
            Ret unit unit tt brought_up_world) by (vm_compute; reflexivity).
  destruct (main_bring_up_prepares_the_loop unit quiet_oracle 3 decimal
              parent_directory 4 sample_options screen_with_argb 5
              fresh_world brought_up_world Hrun)
    as (Hact & Hio & _ & _ & _ & _ & Hexit & Hsw & _).
  split; [exact Hrun|]. split; [exact Hact|]. split; [exact Hio|].
  split; [exact Hexit|]. rewrite Hsw. reflexivity.
Defined.

Lemma term_signal_ends_the_loop_through_exit_witness :
  exists w' pre post,
    ev_loop unit quiet_oracle 4 4
      [ {| wk_arrivals := [map_notify]; wk_readable := [];
           wk_signals := [SIGTERM] |} ] brought_up_world =
      Stop unit unit (Exited unit (128 + 15) w') /\
    trace unit w' = trace unit brought_up_world ++ pre ++ Wait :: post /\
    calls post =
      [shm_unlink "/i3-log-1234"; ipc_shutdown SHUTDOWN_REASON_EXIT (-1);
       unlink "/run/user/1000/i3/ipc-socket.1234"; xcb_disconnect;
       ev_loop_destroy].
Proof.
  destruct (term_signal_ends_the_loop_through_exit unit quiet_oracle 4
              SIGTERM 4 [map_notify] [] brought_up_world)
    as (w' & pre & post & Hrun & Htr & _ & _ & Hcalls).
  - exact quiet_oracle_calm.
  - vm_compute. lia.
  - vm_compute. apply list_elem_of_further, list_elem_of_further,
      list_elem_of_further, list_elem_of_here.
  - vm_compute. reflexivity.
  - vm_compute. reflexivity.
  - vm_compute. reflexivity.
  - vm_compute. reflexivity.
  - vm_compute. reflexivity.
  - vm_compute. reflexivity.
  - vm_compute. discriminate.
  - exists w', pre, post. split; [exact Hrun|]. split; [exact Htr|].
    exact Hcalls.
Defined.


Lemma parse_options_summary_witness :
  exists e st,
    parse_options decimal_atoi None sample_getopt
      (initial_cmdline false "i3") = (e, Went_on cmdline st) /\
    layout_path (opts st) = Some "/tmp/kept" /\
    delete_layout_path (opts st) = false /\
    autostart (opts st) = false /\
    disable_signalhandler (opts st) = true.
Proof.
  assert (Hrun : exists e st,
            parse_options decimal_atoi None sample_getopt
              (initial_cmdline false "i3") = (e, Went_on cmdline st))
    by (eexists; eexists; reflexivity).
  destruct Hrun as (e & st & Hrun).
  destruct (parse_options_summary decimal_atoi None sample_getopt _ st e Hrun)
    as (Hlayout & Hauto & Hdis).
  exists e, st. split; [exact Hrun|].
  injection Hlayout as Hpath Hdel.
  repeat split; assumption.
Defined.

Lemma main_getcwd_buffer_witness :
  exists j,
    main_getcwd 53 (Some 3000) = Some (Getcwd_ok, 4096) /\
    4096 = 1024 * 2 ^ Z.of_nat j.
Proof.
  destruct (main_getcwd_buffer 3000 53) as [(size & j & Hrun & Hsize & _) _];
    [lia | lia |].
  assert (Hconcrete : main_getcwd 53 (Some 3000) = Some (Getcwd_ok, 4096))
    by reflexivity.
  rewrite Hconcrete in Hrun. injection Hrun as <-.
  exists j. split; [reflexivity|exact Hsize].
Defined.

Lemma main_socket_activation_accounting_witness :
  exists w' tr,
    main_socket_activation unit quiet_oracle 8 fresh_world =
      Ret unit unit tt w' /\
    trace unit w' = trace unit fresh_world ++ tr /\
    activecnt (main_loop unit w') = 2 /\
    In (Log (LogCloexecError 8)) tr /\
    fdflags (proc unit w') !! 8 = None /\
    (8, cb_ipc_new_client) ∈ io_watchers (main_loop unit w').
Proof.
  destruct (main_socket_activation_accounting unit quiet_oracle 8 fresh_world)
    as (w' & tr & Hrun & Htr & _ & _ & Hcnt & _ & Hclosed).
  destruct (Hclosed 8) as (Hlog & Hnone & Hio);
    [vm_compute; split; congruence | vm_compute; reflexivity |].
  exists w', tr. split; [exact Hrun|]. split; [exact Htr|].
  split; [exact Hcnt|]. split; [exact Hlog|]. split; [exact Hnone|exact Hio].
Defined.

Lemma long_options_against_the_switch_witness :
  handle_option decimal_atoi None
    {| g_opt := chr "h"; g_index := 6; g_optarg := "" |}
    (initial_cmdline false "i3") = usage /\
  ~ In PrintUsage
      (fst (handle_option decimal_atoi None
              {| g_opt := 0; g_index := 8; g_optarg := "/tmp/layout" |}
              (initial_cmdline false "i3"))) /\
  handle_option decimal_atoi None
    {| g_opt := chr "?"; g_index := 0; g_optarg := "" |}
    (initial_cmdline false "i3") = usage.
Proof.
  destruct (long_options_against_the_switch decimal_atoi None
              (initial_cmdline false "i3")) as [Htable Hother].
  split; [|split].
  - exact (proj1 (Htable 6%nat _ "" eq_refl) eq_refl).
  - apply (proj2 (Htable 8%nat _ "/tmp/layout" eq_refl)). discriminate.
  - apply Hother. vm_compute. intuition discriminate.
Defined.

Lemma send_command_outcome_witness :
  snd (send_command 0 0 8 answering_i3 ["floating"; "toggle"]) = 0 /\
  (forall path,
     In (Connect path)
        (fst (send_command 0 0 8 answering_i3 ["floating"; "toggle"])) ->
     String.length path = 7%nat) /\
  (forall type len p,
     In (Send type len p)
        (fst (send_command 0 0 8 answering_i3 ["floating"; "toggle"])) ->
     p = "floating toggle" /\ len = 15%nat).
Proof.
  destruct (send_command_outcome 0 0 8 answering_i3 "floating" ["toggle"])
    as (_ & Hzero & _ & Hconnect & Hsend).
  split; [|split].
  - apply Hzero. exists "/run/user/1000/i3/ipc.s", "[success]".
    repeat split; (discriminate || reflexivity).
  - intros path Hin.
    destruct (Hconnect path Hin) as (sp & [= <-] & _ & Hlen & _).
    exact Hlen.
  - intros type len p Hin.
    destruct (Hsend type len p Hin) as (_ & Hp & Hlen).
    split; [exact Hp|exact Hlen].
Defined.

Lemma parse_restart_fd_is_an_int_witness :
  exists w',
    parse_restart_fd unit decimal fresh_world = Ret unit Z 9 w' /\
    int_of_long (9 + 2 ^ 32) = 9.
Proof.
  destruct (parse_restart_fd_is_an_int unit decimal fresh_world)
    as (fd & w' & Hrun & _ & _ & _ & Hvalue).
  destruct (Hvalue "9" 9) as (Hfd & _ & Hwrap);
    [vm_compute; reflexivity | reflexivity |].
  change (int_of_long 9) with 9 in Hfd. subst fd.
  exists w'. split; [exact Hrun|]. exact (Hwrap 1).
Defined.

Lemma xcb_prepare_cb_hands_over_to_the_next_run_witness :
  exists w1 w2,
    xcb_prepare_cb bool flush_reads_oracle 4 waiting_world =
      Ret bool unit tt w1 /\
    xcb_prepare_cb bool flush_reads_oracle 2 w1 = Ret bool unit tt w2 /\
    queue bool w1 = [map_notify] /\
    exists tr2 es2,
      trace bool w2 =
        trace bool w1 ++ tr2 ++ Call xcb_flush :: map Arrive es2 /\
      processed tr2 = map drain_call ([map_notify] ++ arrived tr2) /\
      queue bool w2 = es2.
Proof.
  assert (H1 : exists w1,
            xcb_prepare_cb bool flush_reads_oracle 4 waiting_world =
              Ret bool unit tt w1 /\ queue bool w1 = [map_notify])
    by (eexists; split; vm_compute; reflexivity).
  destruct H1 as (w1 & H1 & Hq1).
  assert (H2 : exists w2,
            xcb_prepare_cb bool flush_reads_oracle 2 w1 =
              Ret bool unit tt w2).
  { revert H1. vm_compute. intros [= <-]. eexists. reflexivity. }
  destruct H2 as (w2 & H2).
  destruct (xcb_prepare_cb_hands_over_to_the_next_run bool flush_reads_oracle
              waiting_world) as [_ Hnext].
  destruct (Hnext 4%nat 2%nat w1 w2 H1 H2)
    as (tr1 & es1 & tr2 & es2 & _ & Hes1 & Htr2 & Hp2 & Hq2).
  exists w1, w2. split; [exact H1|]. split; [exact H2|].
  split; [exact Hq1|].
  exists tr2, es2. rewrite Hq1 in Hes1. subst es1.
  split; [exact Htr2|]. split; [exact Hp2|exact Hq2].
Defined.

Lemma main_front_modes_witness :
  snd (main_front decimal_atoi 0 0 108 false answering_i3 true "i3"
         [ {| g_opt := chr "C"; g_index := 0; g_optarg := "" |} ]
         ["kill"]) = Exits cmdline 0 /\
  existsb talks_to_i3
    (fst (main_front decimal_atoi 0 0 108 false answering_i3 true "i3"
            [ {| g_opt := chr "C"; g_index := 0; g_optarg := "" |} ]
            ["kill"])) = false /\
  snd (main_front decimal_atoi 0 0 108 false answering_i3 true "i3"
         [] ["kill"]) =
    Exits cmdline (snd (send_command 0 0 108 answering_i3 ["kill"])).
Proof.
  assert (Hcheck : exists e st,
            parse_options decimal_atoi (root_atom_contents answering_i3)
              [ {| g_opt := chr "C"; g_index := 0; g_optarg := "" |} ]
              (initial_cmdline false "i3") = (e, Went_on cmdline st))
    by (eexists; eexists; reflexivity).
  destruct Hcheck as (e & st & Hcheck).
  destruct (main_front_modes decimal_atoi 0 0 108 false answering_i3 true
              "i3" _ ["kill"] e st Hcheck) as (Hvalidate & _ & _).
  destruct (Hvalidate eq_refl) as (Hstatus & _ & Hquiet).
  split; [exact Hstatus|]. split; [exact Hquiet|].
  assert (Hplain : exists e0 st0,
            parse_options decimal_atoi (root_atom_contents answering_i3) []
              (initial_cmdline false "i3") = (e0, Went_on cmdline st0))
    by (eexists; eexists; reflexivity).
  destruct Hplain as (e0 & st0 & Hplain).
  destruct (main_front_modes decimal_atoi 0 0 108 false answering_i3 true
              "i3" [] ["kill"] e0 st0 Hplain) as (_ & Hsend & _).
  destruct (Hsend eq_refl) as (Hsent & _); [discriminate|].
  exact Hsent.
Defined.

Lemma events_queued_at_loop_entry_are_dispatched_witness :
  queue unit late_world = [map_notify] /\
  exists w2 done es,
    ev_loop unit late_oracle 4 4 [] late_world =
      Stop unit unit (Blocked unit w2) /\
    trace unit w2 =
      trace unit late_world ++
      [Call (handle_event 19 map_notify); Call xcb_flush] ++ [Wait] /\
    [Call (handle_event 19 map_notify); Call xcb_flush] =
      done ++ Call xcb_flush :: map Arrive es /\
    processed done =
      map drain_call (queue unit late_world ++ arrived done).
Proof.
  split; [vm_compute; reflexivity|].
  assert (Hbring : main_bring_up unit late_oracle 3 decimal parent_directory
            4 sample_options screen_with_argb 5 fresh_world =
            Ret unit unit tt late_world) by (vm_compute; reflexivity).
  assert (Hloop : exists w2,
            ev_loop unit late_oracle 4 4 [] late_world =
              Stop unit unit (Blocked unit w2) /\
            trace unit w2 =
              trace unit late_world ++
              [Call (handle_event 19 map_notify); Call xcb_flush] ++ [Wait])
    by (eexists; split; vm_compute; reflexivity).
  destruct Hloop as (w2 & Hloop & Htrace).
  destruct (events_queued_at_loop_entry_are_dispatched unit late_oracle 3 4
              decimal parent_directory 4 sample_options screen_with_argb 5
              fresh_world late_world Hbring 4%nat [] w2) as (tr & Htr & Hwaits).
  { rewrite Hloop. reflexivity. }
  rewrite Htrace in Htr. apply List.app_inv_head in Htr. subst tr.
  destruct (Hwaits [Call (handle_event 19 map_notify); Call xcb_flush] []
              eq_refl) as (done & es & Hpre & Hprocessed).
  exists w2, done, es.
  split; [exact Hloop|]. split; [exact Htrace|].
  split; [exact Hpre|exact Hprocessed].
Defined.
